(** * cookies-house backend: external-API gateway layer

    A shallow embedding of
      - [src/services/wechat.ts]  (getAccessToken, the access-token cache), and
      - the AI gateway routes     (callDeepSeek, /analysis/diary,
                                   /analysis/long-term, /goals/split),
    together with the parts of the JavaScript runtime these functions lean
    on: strings as sequences of UTF-16 code units, [String.prototype.trim],
    backtracking regular expressions, [JSON.parse] / [JSON.stringify] and
    the stable [Array.prototype.sort]. *)

From Stdlib Require Import String Ascii.
From Stdlib Require Import List NArith ZArith Arith Bool Lia.
From Stdlib Require Import Sorting.Sorted Sorting.Permutation.
Import ListNotations.

Set Implicit Arguments.
Set Warnings "-register-all".

(* ===================================================================== *)
(** * Part I: definitions                                                 *)
(* ===================================================================== *)

(** ** JavaScript strings *)

Module JsString.

(** A JavaScript string is a sequence of 16-bit code units. *)
Definition jschar := N.
Definition jsstring := list jschar.

Definition wf_char (c : jschar) : Prop := (c < 65536)%N.
Definition wf_string (s : jsstring) : Prop := Forall wf_char s.

(** ASCII literals of the source are written as Rocq strings. *)
Fixpoint lit (s : string) : jsstring :=
  match s with
  | EmptyString => []
  | String a s' => N_of_ascii a :: lit s'
  end.

(** [WhiteSpace] and [LineTerminator] of ECMA-262: what [\s] matches and
    what [trim] strips. *)
Definition is_space (c : jschar) : bool :=
  ((9 <=? c) && (c <=? 13)          (* TAB LF VT FF CR *)
   || (c =? 32)                     (* SP *)
   || (c =? 160)                    (* NBSP *)
   || (c =? 5760)                   (* U+1680 *)
   || ((8192 <=? c) && (c <=? 8202))  (* U+2000 .. U+200A *)
   || (c =? 8232) || (c =? 8233)    (* LS PS *)
   || (c =? 8239) || (c =? 8287)    (* U+202F U+205F *)
   || (c =? 12288)                  (* U+3000 *)
   || (c =? 65279))%N.              (* U+FEFF *)

(** [\d] *)
Definition is_digit (c : jschar) : bool := ((48 <=? c) && (c <=? 57))%N.

Fixpoint trimStart (s : jsstring) : jsstring :=
  match s with
  | c :: s' => if is_space c then trimStart s' else s
  | [] => []
  end.

Definition trimEnd (s : jsstring) : jsstring := rev (trimStart (rev s)).

(** [s.trim()] *)
Definition trim (s : jsstring) : jsstring := trimEnd (trimStart s).

(** [s.slice(0, n)] for [n >= 0] *)
Definition slice0 (n : nat) (s : jsstring) : jsstring := firstn n s.

(** [a === b] on strings *)
Fixpoint eqb (a b : jsstring) : bool :=
  match a, b with
  | [], [] => true
  | x :: a', y :: b' => (x =? y)%N && eqb a' b'
  | _, _ => false
  end.

(** Truthiness of a string: [!!s] *)
Definition nonempty (s : jsstring) : bool :=
  match s with [] => false | _ :: _ => true end.

End JsString.
Import JsString.

(** ** Regular expressions

    The regular expressions of the source, with the backtracking semantics
    of ECMA-262 (sec. 22.2.2): a matcher takes a continuation and returns
    the first successful way of matching, alternatives being tried left to
    right, greedy quantifiers longest first and lazy ones shortest first.
    Only the constructs the source uses are present; every quantified atom
    of the source is a single character class, and no source expression has
    more than one capturing group. *)

Module Regex.

Inductive regex : Type :=
| RChar (c : jschar)               (* a literal character *)
| RSet (p : jschar -> bool)        (* a class: [..], \s, \d *)
| RSeq (r1 r2 : regex)             (* r1 r2 *)
| RAlt (r1 r2 : regex)             (* r1 | r2 *)
| ROpt (r : regex)                 (* r?   *)
| RStar (p : jschar -> bool)       (* [p]*  *)
| RStarLazy (p : jschar -> bool)   (* [p]*? *)
| RPlus (p : jschar -> bool)       (* [p]+  *)
| RGroup (r : regex)               (* ( r ), capturing group 1 *)
| RLookahead (r : regex)           (* (?= r) *)
| RBol                             (* ^ (no m flag) *)
| REol                             (* $ (no m flag) *)
| REmpty.

(** A literal word. *)
Fixpoint RLit (w : jsstring) : regex :=
  match w with
  | [] => REmpty
  | [c] => RChar c
  | c :: w' => RSeq (RChar c) (RLit w')
  end.

(** Matcher state: the index reached, the input from there on, and the
    current value of capturing group 1. *)
Definition answer : Type := (nat * option jsstring)%type.
Definition cont : Type := nat -> jsstring -> option jsstring -> option answer.

Definition orelse {A} (a b : option A) : option A :=
  match a with Some _ => a | None => b end.

Fixpoint star_greedy (p : jschar -> bool) (k : cont)
         (pos : nat) (s : jsstring) (cap : option jsstring) : option answer :=
  match s with
  | c :: s' =>
      if p c then orelse (star_greedy p k (S pos) s' cap) (k pos s cap)
      else k pos s cap
  | [] => k pos s cap
  end.

Fixpoint star_lazy (p : jschar -> bool) (k : cont)
         (pos : nat) (s : jsstring) (cap : option jsstring) : option answer :=
  match s with
  | c :: s' =>
      orelse (k pos s cap)
             (if p c then star_lazy p k (S pos) s' cap else None)
  | [] => k pos s cap
  end.

Definition accept : cont := fun pos _ cap => Some (pos, cap).

Fixpoint rmatch (r : regex) (k : cont)
         (pos : nat) (s : jsstring) (cap : option jsstring) : option answer :=
  match r with
  | RChar c =>
      match s with
      | x :: s' => if N.eqb x c then k (S pos) s' cap else None
      | [] => None
      end
  | RSet p =>
      match s with
      | x :: s' => if p x then k (S pos) s' cap else None
      | [] => None
      end
  | RSeq r1 r2 => rmatch r1 (rmatch r2 k) pos s cap
  | RAlt r1 r2 => orelse (rmatch r1 k pos s cap) (rmatch r2 k pos s cap)
  | ROpt r1 =>
      orelse (rmatch r1 (fun pos' s' cap' =>
                           if Nat.eqb pos' pos then None else k pos' s' cap')
                     pos s cap)
             (k pos s cap)
  | RStar p => star_greedy p k pos s cap
  | RStarLazy p => star_lazy p k pos s cap
  | RPlus p =>
      match s with
      | x :: s' => if p x then star_greedy p k (S pos) s' cap else None
      | [] => None
      end
  | RGroup r1 =>
      rmatch r1 (fun pos' s' _ => k pos' s' (Some (firstn (pos' - pos) s)))
             pos s cap
  | RLookahead r1 =>
      match rmatch r1 accept pos s cap with
      | Some (_, cap') => k pos s cap'
      | None => None
      end
  | RBol => if Nat.eqb pos 0 then k pos s cap else None
  | REol => match s with [] => k pos s cap | _ :: _ => None end
  | REmpty => k pos s cap
  end.

(** The result of [RegExp.prototype.exec]: where the match starts and ends,
    and group 1. *)
Record rmatch_result : Type := MatchResult {
  m_index : nat;
  m_end : nat;
  m_group1 : option jsstring
}.

(** Try every start index from the left. *)
Fixpoint exec_from (r : regex) (pos : nat) (s : jsstring) : option rmatch_result :=
  match rmatch r accept pos s None with
  | Some (e, cap) => Some (MatchResult pos e cap)
  | None =>
      match s with
      | [] => None
      | _ :: s' => exec_from r (S pos) s'
      end
  end.

(** [s.match(r)] for a regular expression without the g flag. *)
Definition exec (r : regex) (s : jsstring) : option rmatch_result :=
  exec_from r 0 s.

(** [m[0]] *)
Definition matched (s : jsstring) (m : rmatch_result) : jsstring :=
  firstn (m_end m - m_index m) (skipn (m_index m) s).

(** [s.replace(r, '')] for a regular expression without the g flag. *)
Definition replace_empty (r : regex) (s : jsstring) : jsstring :=
  match exec r s with
  | Some m => firstn (m_index m) s ++ skipn (m_end m) s
  | None => s
  end.

(** [s.split(r)] (ECMA-262 sec. 22.2.6.14) for a separator without
    capturing groups.  [split_scan] walks the string at index [q]; [piece]
    holds, reversed, the characters since the last separator (from index
    [p]), and [skip] counts the characters of a separator still to be
    passed. *)
Fixpoint split_scan (r : regex) (q : nat) (s : jsstring)
         (skip : nat) (piece : jsstring) : list jsstring :=
  match s with
  | [] => [rev piece]
  | c :: s' =>
      match skip with
      | S n => split_scan r (S q) s' n piece
      | O =>
          match rmatch r accept q s None with
          | None => split_scan r (S q) s' 0 (c :: piece)
          | Some (e, _) =>
              if Nat.eqb e q then
                match piece with
                | [] => split_scan r (S q) s' 0 [c]
                | _ :: _ => rev piece :: split_scan r (S q) s' 0 [c]
                end
              else rev piece :: split_scan r (S q) s' (e - q - 1) []
          end
      end
  end.

Definition split (r : regex) (s : jsstring) : list jsstring :=
  match s with
  | [] => match rmatch r accept 0 [] None with Some _ => [] | None => [[]] end
  | _ :: _ => split_scan r 0 s 0 []
  end.

End Regex.
Import Regex.

(** ** JSON values, [JSON.parse] and [JSON.stringify] *)

Module Json.

(** A number as [JSON.parse] reads it: the literal
    [(-1)^num_neg * num_mant * 10^num_exp], standing for the double
    nearest to it. *)
Record jnum : Type := JNumber {
  num_neg : bool;
  num_mant : N;
  num_exp : Z
}.

Inductive json : Type :=
| JNull
| JBool (b : bool)
| JNum (n : jnum)
| JStr (s : jsstring)
| JArr (l : list json)
| JObj (l : list (jsstring * json)).

(** The nearest double of a decimal is (plus or minus) zero exactly when
    the mantissa is zero or the magnitude is at most [2^-1075], half the
    least subnormal (a tie rounds to the even neighbour, zero). *)
Definition num_is_zero (n : jnum) : bool :=
  (num_mant n =? 0)%N
  || ((num_exp n <? 0)%Z
      && (Z.of_N (num_mant n) * 2 ^ 1075 <=? 10 ^ (- num_exp n))%Z).

(** [ToBoolean] on the values [JSON.parse] can produce. *)
Definition truthy (v : json) : bool :=
  match v with
  | JNull => false
  | JBool b => b
  | JNum n => negb (num_is_zero n)
  | JStr s => nonempty s
  | JArr _ => true
  | JObj _ => true
  end.

(** A JavaScript value read from a property: [None] is [undefined]. *)
Definition jsval : Type := option json.

Definition truthy_val (v : jsval) : bool :=
  match v with
  | None => false
  | Some j => truthy j
  end.

(** Own property lookup on a parsed object: [JSON.parse] keeps the last
    of duplicate keys. *)
Fixpoint lookup (key : jsstring) (l : list (jsstring * json)) : jsval :=
  match l with
  | [] => None
  | (k, v) :: l' =>
      match lookup key l' with
      | Some w => Some w
      | None => if JsString.eqb k key then Some v else None
      end
  end.

(** [obj.key] for a key that no built-in prototype defines: [None] when
    the access throws a TypeError (on [null]), [Some undefined] on the
    other primitives and on arrays. *)
Definition get_prop (obj : json) (key : jsstring) : option jsval :=
  match obj with
  | JNull => None
  | JObj l => Some (lookup key l)
  | _ => Some None
  end.

(** *** Lexical helpers *)

(** JSON whitespace: TAB, LF, CR, SP. *)
Definition is_json_ws (c : jschar) : bool :=
  ((c =? 9) || (c =? 10) || (c =? 13) || (c =? 32))%N.

Fixpoint skip_ws (s : jsstring) : jsstring :=
  match s with
  | c :: s' => if is_json_ws c then skip_ws s' else s
  | [] => []
  end.

Definition hexval (c : jschar) : option N :=
  (if (48 <=? c) && (c <=? 57) then Some (c - 48)
   else if (97 <=? c) && (c <=? 102) then Some (c - 87)
   else if (65 <=? c) && (c <=? 70) then Some (c - 55)
   else None)%N.

Definition hex4 (a b c d : jschar) : option jschar :=
  match hexval a, hexval b, hexval c, hexval d with
  | Some x, Some y, Some z, Some w => Some (4096 * x + 256 * y + 16 * z + w)%N
  | _, _, _, _ => None
  end.

(** The single-character escapes: a backslash followed by a quote, a
    backslash, a slash, or one of the letters b f n r t. *)
Definition unescape (e : jschar) : option jschar :=
  (if e =? 34 then Some 34
   else if e =? 92 then Some 92
   else if e =? 47 then Some 47
   else if e =? 98 then Some 8
   else if e =? 102 then Some 12
   else if e =? 110 then Some 10
   else if e =? 114 then Some 13
   else if e =? 116 then Some 9
   else None)%N.

Definition cons_fst (c : jschar) (r : option (jsstring * jsstring))
  : option (jsstring * jsstring) :=
  match r with
  | Some (str, rest) => Some (c :: str, rest)
  | None => None
  end.

(** A string, from just after its opening quote: the characters of the
    string and the input after the closing quote. *)
Fixpoint parse_string (s : jsstring) : option (jsstring * jsstring) :=
  match s with
  | [] => None
  | c :: s1 =>
      if (c =? 34)%N then Some ([], s1)
      else if (c =? 92)%N then
        match s1 with
        | [] => None
        | e :: s2 =>
            if (e =? 117)%N then
              match s2 with
              | h1 :: h2 :: h3 :: h4 :: s3 =>
                  match hex4 h1 h2 h3 h4 with
                  | Some u => cons_fst u (parse_string s3)
                  | None => None
                  end
              | _ => None
              end
            else
              match unescape e with
              | Some x => cons_fst x (parse_string s2)
              | None => None
              end
        end
      else if (c <? 32)%N then None
      else cons_fst c (parse_string s1)
  end.

(** A run of decimal digits, accumulated into [acc]; also counts them. *)
Fixpoint digits (acc : N) (n : nat) (s : jsstring) : N * nat * jsstring :=
  match s with
  | c :: s' =>
      if is_digit c then digits (10 * acc + (c - 48))%N (S n) s'
      else (acc, n, s)
  | [] => (acc, n, s)
  end.

(** A number: an optional minus sign; a zero, or a non-zero digit and
    more digits; optionally a dot and one or more digits; optionally e or
    E, an optional sign and one or more digits. *)
Definition parse_number (s : jsstring) : option (jnum * jsstring) :=
  let '(neg, s1) :=
    match s with
    | c :: s' => if (c =? 45)%N then (true, s') else (false, s)
    | [] => (false, s)
    end in
  let int_part :=
    match s1 with
    | c :: s' =>
        if (c =? 48)%N then Some (0%N, s')
        else if is_digit c then
          let '(m, _, r) := digits 0 0 s1 in Some (m, r)
        else None
    | [] => None
    end in
  match int_part with
  | None => None
  | Some (m, s2) =>
      let frac_part :=
        match s2 with
        | c :: s' =>
            if (c =? 46)%N then
              let '(m', n, r) := digits m 0 s' in
              match n with
              | O => None
              | S _ => Some (m', Z.of_nat n, r)
              end
            else Some (m, 0%Z, s2)
        | [] => Some (m, 0%Z, s2)
        end in
      match frac_part with
      | None => None
      | Some (m', fd, s3) =>
          match s3 with
          | c :: s' =>
              if ((c =? 101) || (c =? 69))%N then
                let '(eneg, s4) :=
                  match s' with
                  | d :: s'' =>
                      if (d =? 45)%N then (true, s'')
                      else if (d =? 43)%N then (false, s'')
                      else (false, s')
                  | [] => (false, s')
                  end in
                let '(e, n, r) := digits 0 0 s4 in
                match n with
                | O => None
                | S _ =>
                    let ez := if eneg then (- Z.of_N e)%Z else Z.of_N e in
                    Some (JNumber neg m' (ez - fd), r)
                end
              else Some (JNumber neg m' (- fd), s3)
          | [] => Some (JNumber neg m' (- fd), s3)
          end
      end
  end.

(** [s] starts with the word [w]: the rest of [s]. *)
Fixpoint strip_prefix (w s : jsstring) : option jsstring :=
  match w, s with
  | [], _ => Some s
  | a :: w', b :: s' => if (a =? b)%N then strip_prefix w' s' else None
  | _ :: _, [] => None
  end.

(** *** The value grammar *)

Inductive presult (A : Type) : Type :=
| POk (a : A) (rest : jsstring)
| PErr                            (* SyntaxError *)
| PFuel.                          (* recursion budget exhausted *)
Arguments POk {A} a rest.
Arguments PErr {A}.
Arguments PFuel {A}.

Fixpoint parse_value (fuel : nat) (s : jsstring) {struct fuel} : presult json :=
  match fuel with
  | O => PFuel
  | S f =>
      match s with
      | [] => PErr
      | c :: s1 =>
          if (c =? 123)%N then                        (* { *)
            match skip_ws s1 with
            | [] => PErr
            | d :: s2 =>
                if (d =? 125)%N then POk (JObj []) s2 (* } *)
                else
                  match parse_members f s1 with
                  | POk ms r => POk (JObj ms) r
                  | PErr => PErr
                  | PFuel => PFuel
                  end
            end
          else if (c =? 91)%N then                    (* [ *)
            match skip_ws s1 with
            | [] => PErr
            | d :: s2 =>
                if (d =? 93)%N then POk (JArr []) s2  (* ] *)
                else
                  match parse_elements f s1 with
                  | POk vs r => POk (JArr vs) r
                  | PErr => PErr
                  | PFuel => PFuel
                  end
            end
          else if (c =? 34)%N then                    (* quote *)
            match parse_string s1 with
            | Some (str, r) => POk (JStr str) r
            | None => PErr
            end
          else if (c =? 116)%N then                   (* t *)
            match strip_prefix (lit "rue") s1 with
            | Some r => POk (JBool true) r
            | None => PErr
            end
          else if (c =? 102)%N then                   (* f *)
            match strip_prefix (lit "alse") s1 with
            | Some r => POk (JBool false) r
            | None => PErr
            end
          else if (c =? 110)%N then                   (* n *)
            match strip_prefix (lit "ull") s1 with
            | Some r => POk JNull r
            | None => PErr
            end
          else
            match parse_number s with
            | Some (n, r) => POk (JNum n) r
            | None => PErr
            end
      end
  end

with parse_elements (fuel : nat) (s : jsstring) {struct fuel}
  : presult (list json) :=
  match fuel with
  | O => PFuel
  | S f =>
      match parse_value f (skip_ws s) with
      | POk v r =>
          match skip_ws r with
          | [] => PErr
          | c :: r1 =>
              if (c =? 44)%N then                     (* , *)
                match parse_elements f r1 with
                | POk vs r2 => POk (v :: vs) r2
                | PErr => PErr
                | PFuel => PFuel
                end
              else if (c =? 93)%N then POk [v] r1     (* ] *)
              else PErr
          end
      | PErr => PErr
      | PFuel => PFuel
      end
  end

with parse_members (fuel : nat) (s : jsstring) {struct fuel}
  : presult (list (jsstring * json)) :=
  match fuel with
  | O => PFuel
  | S f =>
      match skip_ws s with
      | [] => PErr
      | q :: s1 =>
          if (q =? 34)%N then
            match parse_string s1 with
            | None => PErr
            | Some (key, s2) =>
                match skip_ws s2 with
                | [] => PErr
                | c :: s3 =>
                    if (c =? 58)%N then               (* : *)
                      match parse_value f (skip_ws s3) with
                      | POk v r =>
                          match skip_ws r with
                          | [] => PErr
                          | d :: r1 =>
                              if (d =? 44)%N then
                                match parse_members f r1 with
                                | POk ms r2 => POk ((key, v) :: ms) r2
                                | PErr => PErr
                                | PFuel => PFuel
                                end
                              else if (d =? 125)%N then POk [(key, v)] r1
                              else PErr
                          end
                      | PErr => PErr
                      | PFuel => PFuel
                      end
                    else PErr
                end
            end
          else PErr
      end
  end.

(** The budget handed to the parser; [parse_fuel_enough] below shows it is
    never exhausted. *)
Definition parse_fuel (s : jsstring) : nat := S (2 * length s).

(** [JSON.parse(s)]: [None] when it throws SyntaxError. *)
Definition JSON_parse (s : jsstring) : option json :=
  match parse_value (parse_fuel s) (skip_ws s) with
  | POk v r =>
      match skip_ws r with
      | [] => Some v
      | _ :: _ => None
      end
  | PErr => None
  | PFuel => None
  end.

(** *** [JSON.stringify] on strings and on objects of strings *)

Definition hexdigit (d : N) : jschar :=
  (if d <? 10 then 48 + d else 87 + d)%N.

(** [\uXXXX], lower-case hexadecimal *)
Definition unicode_escape (c : jschar) : jsstring :=
  [92; 117; hexdigit (c / 4096); hexdigit ((c / 256) mod 16);
   hexdigit ((c / 16) mod 16); hexdigit (c mod 16)]%N.

Definition is_high_surrogate (c : jschar) : bool :=
  ((55296 <=? c) && (c <=? 56319))%N.
Definition is_low_surrogate (c : jschar) : bool :=
  ((56320 <=? c) && (c <=? 57343))%N.

(** One code unit that is not half of a well-formed surrogate pair. *)
Definition quote_unit (c : jschar) : jsstring :=
  (if c =? 8 then [92; 98]
   else if c =? 9 then [92; 116]
   else if c =? 10 then [92; 110]
   else if c =? 12 then [92; 102]
   else if c =? 13 then [92; 114]
   else if c =? 34 then [92; 34]
   else if c =? 92 then [92; 92]
   else if (c <? 32) || is_high_surrogate c || is_low_surrogate c
        then unicode_escape c
   else [c])%N.

(** QuoteJSONString walks the string by code points: a high surrogate
    followed by a low one is copied, a lone surrogate is escaped. *)
Fixpoint quote_body (s : jsstring) : jsstring :=
  match s with
  | [] => []
  | c :: s1 =>
      if is_high_surrogate c then
        match s1 with
        | d :: s2 =>
            if is_low_surrogate d then c :: d :: quote_body s2
            else quote_unit c ++ quote_body s1
        | [] => quote_unit c
        end
      else quote_unit c ++ quote_body s1
  end.

Definition quote (s : jsstring) : jsstring := 34%N :: quote_body s ++ [34%N].

Fixpoint stringify_members (l : list (jsstring * jsstring)) : jsstring :=
  match l with
  | [] => []
  | [(k, v)] => quote k ++ [58%N] ++ quote v
  | (k, v) :: l' => quote k ++ [58%N] ++ quote v ++ [44%N] ++ stringify_members l'
  end.

(** [JSON.stringify(o)] for an object [o] whose own properties, in
    insertion order, are [l] and hold strings. *)
Definition stringify_object (l : list (jsstring * jsstring)) : jsstring :=
  123%N :: stringify_members l ++ [125%N].

End Json.
Import Json.

(** ** Outcomes of calls *)

(** What [await axios.get/post(..)] resumes with: the response body, or a
    rejection (no connection, timeout, a status outside 2xx). *)
Inductive axios_result (A : Type) : Type :=
| Resolved (data : A)
| Rejected (message : jsstring).
Arguments Resolved {A} data.
Arguments Rejected {A} message.

(** A call either returns a value or throws. *)
Inductive result (E A : Type) : Type :=
| Return (a : A)
| Throw (e : E).
Arguments Return {E A} a.
Arguments Throw {E A} e.

(** ** services/wechat.ts: the access-token cache *)

Module Wechat.

(** [config.wechat] *)
Record WechatConfig : Type := {
  appId : jsstring;
  secret : jsstring
}.

(** [cachedAccessToken], when it is not [null]; times are in milliseconds
    since the epoch, as [Date.now()] gives them. *)
Record CachedToken : Type := {
  token : jsstring;
  expireAt : Z
}.

(** The body of the token endpoint's answer. *)
Record TokenData : Type := {
  access_token : option jsstring;
  expires_in : option Z;
  errcode : option Z;
  errmsg : option jsstring
}.

(** The query sent to [TOKEN_URL]. *)
Record TokenRequest : Type := {
  grant_type : jsstring;
  req_appid : jsstring;
  req_secret : jsstring
}.

Inductive wx_error : Type :=
| NotConfigured                       (* the AppID/Secret error of line 22 *)
| TokenRefused (data : TokenData)     (* data.errmsg, or the line-37 message *)
| RequestFailed (message : jsstring). (* axios rejected *)

(** [!!n] on an optional number *)
Definition truthy_num (n : option Z) : bool :=
  match n with
  | Some z => negb (z =? 0)%Z
  | None => false
  end.

(** [!!s] on an optional string *)
Definition truthy_str (s : option jsstring) : bool :=
  match s with
  | Some x => nonempty x
  | None => false
  end.

(** [getAccessToken] is an async function: it runs up to its [await]
    without interruption, and from the [await] to its end without
    interruption once the answer is there. *)
Inductive suspended : Type :=
| Settled (r : result wx_error jsstring)   (* finished before any await *)
| Awaiting (req : TokenRequest).           (* axios.get(TOKEN_URL, ..) is out *)

(** Lines 21-35: the refresh, up to its [await]. *)
Definition request_token (config : WechatConfig) : suspended :=
  if negb (nonempty (appId config)) || negb (nonempty (secret config))
  then Settled (Throw NotConfigured)
  else Awaiting {| grant_type := lit "client_credential";
                   req_appid := appId config;
                   req_secret := secret config |}.

(** Lines 18-35: from the call to the [await]. *)
Definition getAccessToken_begin (config : WechatConfig)
           (cache : option CachedToken) (now : Z) : suspended :=
  match cache with
  | Some c =>
      if (expireAt c >? now + 60000)%Z then Settled (Return (token c))
      else request_token config
  | None => request_token config
  end.

(** Lines 36-43: from the answer to the end; the new value of
    [cachedAccessToken] and the outcome. *)
Definition getAccessToken_resume (cache : option CachedToken) (now : Z)
           (answer : axios_result TokenData)
  : option CachedToken * result wx_error jsstring :=
  match answer with
  | Rejected m => (cache, Throw (RequestFailed m))
  | Resolved data =>
      if truthy_num (errcode data) || negb (truthy_str (access_token data))
      then (cache, Throw (TokenRefused data))
      else
        match access_token data with
        | None => (cache, Throw (TokenRefused data))
        | Some t =>
            let lifetime :=
              match expires_in data with Some n => n | None => 7200%Z end in
            let cached := {| token := t; expireAt := (now + lifetime * 1000)%Z |} in
            (Some cached, Return (token cached))
        end
  end.

(** One whole call, given the clock at both ends and the endpoint's answer:
    the new cache, how many requests went out, and the outcome. *)
Definition getAccessToken (config : WechatConfig) (cache : option CachedToken)
           (now : Z) (answer : axios_result TokenData) (later : Z)
  : option CachedToken * nat * result wx_error jsstring :=
  match getAccessToken_begin config cache now with
  | Settled r => (cache, 0, r)
  | Awaiting _ =>
      let '(cache', r) := getAccessToken_resume cache later answer in
      (cache', 1, r)
  end.

(** *** Interleaved callers

    Node runs the callers on one thread: each stretch between two [await]s
    is atomic, and stretches of different calls interleave freely.  The
    process state is the cache, the requests sent so far, the calls
    suspended at their [await] and the outcomes delivered. *)

Record process : Type := {
  cachedAccessToken : option CachedToken;
  sent : list TokenRequest;                               (* newest first *)
  waiting : list nat;                                     (* caller ids *)
  delivered : list (nat * result wx_error jsstring)
}.

Inductive event : Type :=
| Call (caller : nat) (now : Z)
| Answer (caller : nat) (now : Z) (answer : axios_result TokenData).

Definition step (config : WechatConfig) (p : process) (e : event) : process :=
  match e with
  | Call caller now =>
      match getAccessToken_begin config (cachedAccessToken p) now with
      | Settled r =>
          {| cachedAccessToken := cachedAccessToken p;
             sent := sent p;
             waiting := waiting p;
             delivered := (caller, r) :: delivered p |}
      | Awaiting req =>
          {| cachedAccessToken := cachedAccessToken p;
             sent := req :: sent p;
             waiting := caller :: waiting p;
             delivered := delivered p |}
      end
  | Answer caller now answer =>
      if existsb (Nat.eqb caller) (waiting p) then
        let '(cache', r) :=
          getAccessToken_resume (cachedAccessToken p) now answer in
        {| cachedAccessToken := cache';
           sent := sent p;
           waiting := filter (fun c => negb (Nat.eqb caller c)) (waiting p);
           delivered := (caller, r) :: delivered p |}
      else p
  end.

Definition run (config : WechatConfig) (p : process) (es : list event) : process :=
  fold_left (step config) es p.

End Wechat.

(** ** The AI gateway routes *)

Module Gateway.

(** *** callDeepSeek *)

Record ChatMessage : Type := { content : option jsstring }.
Record ChatChoice : Type := { message : option ChatMessage }.
Record ChatData : Type := { choices : option (list ChatChoice) }.

Inductive ai_error : Type :=
| EmptyContent                        (* the line-121 error *)
| PostFailed (message : jsstring).    (* axios rejected *)

(** [data.choices?.[0]?.message?.content] *)
Definition first_content (data : ChatData) : option jsstring :=
  match choices data with
  | None => None
  | Some cs =>
      match nth_error cs 0 with
      | None => None
      | Some ch =>
          match message ch with
          | None => None
          | Some m =>
              match content m with
              | None => None
              | Some c => Some c
              end
          end
      end
  end.

(** [callDeepSeek], from the answer of its one POST on. *)
Definition callDeepSeek (answer : axios_result ChatData)
  : result ai_error jsstring :=
  match answer with
  | Rejected m => Throw (PostFailed m)
  | Resolved data =>
      let content :=
        match first_content data with
        | Some c => trim c                  (* ?.toString().trim() *)
        | None => []                        (* ?? '' *)
        end in
      if negb (nonempty content) then Throw EmptyContent
      else Return content
  end.

(** *** POST /goals/split *)

(** [/\r?\n/] *)
Definition re_newline : regex := RSeq (ROpt (RChar 13%N)) (RChar 10%N).

(** [[\d\.\-\)\s]] *)
Definition marker_char (c : jschar) : bool :=
  (is_digit c || (c =? 46) || (c =? 45) || (c =? 41) || is_space c)%N.

(** [/^[\d\.\-\)\s]+/] *)
Definition re_marker : regex := RSeq RBol (RPlus marker_char).

(** The [steps] array built from the model's text. *)
Definition split_steps (stepsText : jsstring) : list jsstring :=
  map (replace_empty re_marker)
      (filter nonempty
              (map trim (split re_newline stepsText))).

(** *** POST /analysis/diary *)

Definition any_char (c : jschar) : bool := true.     (* [\s\S] *)

(** [/\{[\s\S]*\}/] *)
Definition re_json_span : regex :=
  RSeq (RChar 123%N) (RSeq (RStar any_char) (RChar 125%N)).

(** The section headings, as UTF-16 code units. *)
Definition w_full_diary : jsstring := [23436; 25972; 26085; 35760]%N.
Definition w_diary : jsstring := [26085; 35760]%N.
Definition w_key_points : jsstring := [20851; 38190; 35201; 28857]%N.
Definition w_points : jsstring := [35201; 28857]%N.
Definition w_insight : jsstring := [27934; 23519]%N.
Definition w_advice : jsstring := [24314; 35758]%N.
Definition w_insight_and_advice : jsstring :=
  [27934; 23519; 19982; 24314; 35758]%N.

(** The class of the full-width and the ASCII colon. *)
Definition colon_char (c : jschar) : bool := ((c =? 65306) || (c =? 58))%N.

(** The three header expressions of lines 259-261.  Their i flag changes
    nothing: no character of the patterns has a case variant. *)
Definition re_diary : regex :=
  RSeq (RAlt (RLit w_full_diary) (RLit w_diary))
  (RSeq (RSet colon_char)
  (RSeq (RStar is_space)
  (RSeq (RGroup (RStarLazy any_char))
        (RLookahead (RAlt (RLit w_key_points) (RAlt (RLit w_points) REol)))))).

Definition re_points : regex :=
  RSeq (RAlt (RLit w_key_points) (RLit w_points))
  (RSeq (RSet colon_char)
  (RSeq (RStar is_space)
  (RSeq (RGroup (RStarLazy any_char))
        (RLookahead (RAlt (RLit w_insight) (RAlt (RLit w_advice) REol)))))).

Definition re_insights : regex :=
  RSeq (RAlt (RLit w_insight) (RAlt (RLit w_advice) (RLit w_insight_and_advice)))
  (RSeq (RSet colon_char)
  (RSeq (RStar is_space)
        (RGroup (RStar any_char)))).

(** The local [parsed]: its fields hold whatever was last assigned. *)
Record parsed_fields : Type := {
  parsed_diary : jsval;
  parsed_keyPoints : jsval;
  parsed_insights : jsval
}.

(** [if (v) parsed.f = v] *)
Definition assign_if (v old : jsval) : jsval :=
  if truthy_val v then v else old.

(** How a [try] block ends: at its last statement, or at a throw, with the
    variables as they then are. *)
Inductive try_end (A : Type) : Type :=
| Completed (a : A)
| Caught (a : A).
Arguments Completed {A} a.
Arguments Caught {A} a.

(** Lines 253-256. *)
Definition diary_try (span : jsstring) (parsed : parsed_fields)
  : try_end parsed_fields :=
  match JSON_parse span with
  | None => Caught parsed
  | Some obj =>
      match get_prop obj (lit "diary") with
      | None => Caught parsed
      | Some d =>
          let parsed1 :=
            {| parsed_diary := assign_if d (parsed_diary parsed);
               parsed_keyPoints := parsed_keyPoints parsed;
               parsed_insights := parsed_insights parsed |} in
          match get_prop obj (lit "keyPoints") with
          | None => Caught parsed1
          | Some k =>
              let parsed2 :=
                {| parsed_diary := parsed_diary parsed1;
                   parsed_keyPoints := assign_if k (parsed_keyPoints parsed1);
                   parsed_insights := parsed_insights parsed1 |} in
              match get_prop obj (lit "insights") with
              | None => Caught parsed2
              | Some i =>
                  Completed
                    {| parsed_diary := parsed_diary parsed2;
                       parsed_keyPoints := parsed_keyPoints parsed2;
                       parsed_insights := assign_if i (parsed_insights parsed2) |}
              end
          end
      end
  end.

(** [m[1].trim()]: a TypeError when group 1 is [undefined]. *)
Definition group1_trim (m : rmatch_result) : option jsstring :=
  match m_group1 m with
  | Some g => Some (trim g)
  | None => None
  end.

(** Lines 259-264, the [catch] block; [None] when it throws itself. *)
Definition diary_catch (raw : jsstring) (parsed : parsed_fields)
  : option parsed_fields :=
  let diaryMatch := exec re_diary raw in
  let pointsMatch := exec re_points raw in
  let insightsMatch := exec re_insights raw in
  match
    match diaryMatch with
    | Some m =>
        match group1_trim m with
        | Some t => Some (Some (JStr t))
        | None => None
        end
    | None => Some (parsed_diary parsed)
    end
  with
  | None => None
  | Some d =>
      match
        match pointsMatch with
        | Some m =>
            match group1_trim m with
            | Some t => Some (Some (JStr t))
            | None => None
            end
        | None => Some (parsed_keyPoints parsed)
        end
      with
      | None => None
      | Some k =>
          match
            match insightsMatch with
            | Some m =>
                match group1_trim m with
                | Some t => Some (Some (JStr t))
                | None => None
                end
            | None => Some (parsed_insights parsed)
            end
          with
          | None => None
          | Some i =>
              Some {| parsed_diary := d;
                      parsed_keyPoints := k;
                      parsed_insights := i |}
          end
      end
  end.

(** [a || b] *)
Definition or_else (a : jsval) (b : json) : json :=
  match a with
  | Some j => if truthy j then j else b
  | None => b
  end.

(** The [data] of the response. *)
Record DiaryData : Type := {
  diary : json;
  keyPoints : json;
  insights : json
}.

Inductive extract_error : Type :=
| TypeError.           (* thrown inside the handler, answered with a 502 *)

(** Lines 244-275: from the model's text to the response data. *)
Definition diary_extract (raw : jsstring) : result extract_error DiaryData :=
  let parsed0 :=
    {| parsed_diary := Some (JStr raw);
       parsed_keyPoints := Some (JStr []);
       parsed_insights := Some (JStr []) |} in
  let after :=
    match exec re_json_span raw with
    | Some jsonMatch =>
        match diary_try (matched raw jsonMatch) parsed0 with
        | Completed p => Some p
        | Caught p => diary_catch raw p
        end
    | None => Some parsed0
    end in
  match after with
  | None => Throw TypeError
  | Some parsed =>
      Return {| diary := or_else (parsed_diary parsed) (JStr raw);
                keyPoints := or_else (parsed_keyPoints parsed) (JStr []);
                insights := or_else (parsed_insights parsed) (JStr []) |}
  end.

(** *** POST /analysis/long-term *)

Definition w_recent : jsstring := [36817; 26399]%N.

(** Lines 480-485. *)
Definition long_term_fallback (raw : jsstring) : json :=
  JObj [ (lit "summary",
          JObj [ (lit "timeRange", JStr w_recent);
                 (lit "keyPoints", JArr [JStr (slice0 200 raw)]) ]);
         (lit "psychologicalInsight",
          JObj [ (lit "letter", JStr raw); (lit "themes", JArr []) ]);
         (lit "lifeAdvice", JObj [ (lit "adviceBlocks", JArr []) ]);
         (lit "metrics", JObj []) ].

(** Lines 469-488; [parsed] starts as [null]. *)
Definition long_term_extract (raw : jsstring) : json :=
  let parsed :=
    match exec re_json_span raw with
    | Some jsonMatch =>
        match JSON_parse (matched raw jsonMatch) with
        | Some v => v
        | None => JNull
        end
    | None => JNull
    end in
  if negb (truthy parsed) then long_term_fallback raw else parsed.

(** Whether a response object has an own property [key]. *)
Definition has_field (v : json) (key : jsstring) : bool :=
  match v with
  | JObj l => match lookup key l with Some _ => true | None => false end
  | _ => false
  end.

Definition is_string (v : json) : bool :=
  match v with
  | JStr _ => true
  | _ => false
  end.

(** *** The entries of POST /analysis/diary *)

Record Entry : Type := {
  text : jsstring;
  type : jsstring;
  timestamp : option Z
}.

(** [e.timestamp || 0] *)
Definition timestamp_or_zero (e : Entry) : Z :=
  match timestamp e with
  | Some t => if (t =? 0)%Z then 0%Z else t
  | None => 0%Z
  end.

(** The comparator of line 225. *)
Definition by_timestamp (a b : Entry) : Z :=
  (timestamp_or_zero a - timestamp_or_zero b)%Z.

(** [Array.prototype.sort] is stable: with a consistent comparator it can
    only give the result of a stable insertion sort. *)
Fixpoint insert_sorted {A : Type} (cmp : A -> A -> Z) (x : A) (l : list A) : list A :=
  match l with
  | [] => [x]
  | y :: l' =>
      if (cmp x y <=? 0)%Z then x :: y :: l'
      else y :: insert_sorted cmp x l'
  end.

Fixpoint sort {A : Type} (cmp : A -> A -> Z) (l : list A) : list A :=
  match l with
  | [] => []
  | x :: l' => insert_sorted cmp x (sort cmp l')
  end.

(** One element of the array handed to [JSON.stringify]. *)
Record PayloadEntry : Type := {
  index : nat;
  payload_text : jsstring;
  payload_type : jsstring;
  time : option jsstring
}.

Fixpoint map_index {A B : Type} (f : A -> nat -> B) (idx : nat) (l : list A) : list B :=
  match l with
  | [] => []
  | x :: l' => f x idx :: map_index f (S idx) l'
  end.

Section Payload.

(** [new Date(t).toLocaleTimeString('zh-CN', ..)] depends on the host's
    time zone and locale data. *)
Variable toLocaleTimeString : Z -> jsstring.

(** Lines 224-236. *)
Definition diary_payload (entries : list Entry) : list PayloadEntry :=
  map_index
    (fun e idx =>
       {| index := idx + 1;
          payload_text := text e;
          payload_type := type e;
          time := match timestamp e with
                  | Some t => if (t =? 0)%Z then None
                              else Some (toLocaleTimeString t)
                  | None => None
                  end |})
    0
    (sort by_timestamp entries).

End Payload.

End Gateway.

(** ** config: values read from the environment *)

Module Config.

Section Env.

(** [process.env]: a variable is a string or is not set. *)
Variable env : jsstring -> option jsstring.

(** [getEnv(key, defaultValue)]; the warning it may print is left out. *)
Definition getEnv (key : jsstring) (defaultValue : option jsstring) : jsstring :=
  let value :=
    match env key with
    | Some v => Some v
    | None => defaultValue                 (* ?? defaultValue *)
    end in
  match value with
  | Some v => if nonempty v then v else [] (* value || '' *)
  | None => []
  end.

(** [config.wechat] *)
Definition wechat : Wechat.WechatConfig :=
  {| Wechat.appId := getEnv (lit "WECHAT_APPID") None;
     Wechat.secret := getEnv (lit "WECHAT_SECRET") None |}.

(** [config.jwt.secret] *)
Definition jwt_secret : jsstring := getEnv (lit "JWT_SECRET") None.

End Env.

End Config.

(** ** services/wechat.ts: code2Session and getPhoneNumber *)

Module WechatApi.

(** The body of the jscode2session answer. *)
Record SessionData : Type := {
  data_openid : option jsstring;
  data_session_key : option jsstring;
  data_unionid : option jsstring;
  errcode : option Z;
  errmsg : option jsstring
}.

(** The query sent to [CODE2SESSION_URL]. *)
Record SessionRequest : Type := {
  appid : jsstring;
  secret : jsstring;
  js_code : jsstring;
  grant_type : jsstring
}.

(** [Code2SessionResult]; [session_key] is declared a string but is
    copied from the answer under a non-null assertion, unchecked. *)
Record Code2SessionResult : Type := {
  openid : jsstring;
  session_key : option jsstring;
  unionid : option jsstring
}.

Inductive session_error : Type :=
| SessionNotConfigured                    (* the AppID/Secret error of line 48 *)
| SessionRefused (data : SessionData)     (* data.errmsg, or the line-65 message *)
| SessionRequestFailed (message : jsstring).

Inductive session_suspended : Type :=
| SessionSettled (r : result session_error Code2SessionResult)
| SessionAwaiting (req : SessionRequest).

(** Lines 47-63: from the call to the [await]. *)
Definition code2Session_begin (config : Wechat.WechatConfig) (code : jsstring)
  : session_suspended :=
  if negb (nonempty (Wechat.appId config)) || negb (nonempty (Wechat.secret config))
  then SessionSettled (Throw SessionNotConfigured)
  else SessionAwaiting {| appid := Wechat.appId config;
                          secret := Wechat.secret config;
                          js_code := code;
                          grant_type := lit "authorization_code" |}.

(** Lines 64-71: from the answer to the end. *)
Definition code2Session_resume (answer : axios_result SessionData)
  : result session_error Code2SessionResult :=
  match answer with
  | Rejected m => Throw (SessionRequestFailed m)
  | Resolved data =>
      if Wechat.truthy_num (errcode data)
         || negb (Wechat.truthy_str (data_openid data))
      then Throw (SessionRefused data)
      else
        match data_openid data with
        | None => Throw (SessionRefused data)
        | Some o =>
            Return {| openid := o;
                      session_key := data_session_key data;
                      unionid := data_unionid data |}
        end
  end.

(** One whole call: how many requests went out, and the outcome. *)
Definition code2Session (config : Wechat.WechatConfig) (code : jsstring)
           (answer : axios_result SessionData)
  : nat * result session_error Code2SessionResult :=
  match code2Session_begin config code with
  | SessionSettled r => (0, r)
  | SessionAwaiting _ => (1, code2Session_resume answer)
  end.

(** [phone_info] of the getuserphonenumber answer. *)
Record PhoneInfo : Type := {
  phoneNumber : jsstring;
  purePhoneNumber : jsstring
}.

Record PhoneData : Type := {
  phone_errcode : option Z;
  phone_errmsg : option jsstring;
  phone_info : option PhoneInfo
}.

(** A request that went out: the token query, or the POST of the phone
    code to [GET_PHONE_URL] with the access token in its query string. *)
Inductive request : Type :=
| TokenRequested (req : Wechat.TokenRequest)
| PhoneRequested (access_token : jsstring) (code : jsstring).

Inductive phone_error : Type :=
| TokenFailed (e : Wechat.wx_error)       (* thrown by getAccessToken *)
| PhoneRefused (data : PhoneData)         (* data.errmsg, or the line-83 message *)
| PhoneRequestFailed (message : jsstring).

(** Lines 77-88: the phone request made with [accessToken] and what
    becomes of its answer. *)
Definition phone_step (answer : axios_result PhoneData)
  : result phone_error PhoneInfo :=
  match answer with
  | Rejected m => Throw (PhoneRequestFailed m)
  | Resolved data =>
      if Wechat.truthy_num (phone_errcode data) then Throw (PhoneRefused data)
      else
        match phone_info data with
        | None => Throw (PhoneRefused data)
        | Some info =>
            Return {| phoneNumber := phoneNumber info;
                      purePhoneNumber := purePhoneNumber info |}
        end
  end.

(** [getPhoneNumber(phoneCode)] as one caller sees it: the clock at the
    call and at the token answer, the answers of the two endpoints; the
    cache it leaves, the requests it made in order, and its outcome. *)
Definition getPhoneNumber (config : Wechat.WechatConfig)
           (cache : option Wechat.CachedToken) (phoneCode : jsstring)
           (now : Z) (tokenAnswer : axios_result Wechat.TokenData) (later : Z)
           (phoneAnswer : axios_result PhoneData)
  : option Wechat.CachedToken * list request * result phone_error PhoneInfo :=
  match Wechat.getAccessToken_begin config cache now with
  | Wechat.Settled (Throw e) => (cache, [], Throw (TokenFailed e))
  | Wechat.Settled (Return accessToken) =>
      (cache, [PhoneRequested accessToken phoneCode], phone_step phoneAnswer)
  | Wechat.Awaiting req =>
      match Wechat.getAccessToken_resume cache later tokenAnswer with
      | (cache', Throw e) => (cache', [TokenRequested req], Throw (TokenFailed e))
      | (cache', Return accessToken) =>
          (cache',
           [TokenRequested req; PhoneRequested accessToken phoneCode],
           phone_step phoneAnswer)
      end
  end.

End WechatApi.

(** ** db/index.ts: the users and emotion_cookies tables *)

Module Db.

(** A row of [users]. *)
Record UserRow : Type := {
  id : Z;
  wx_open_id : jsstring;
  phone : option jsstring;
  vip_level : jsstring;
  settings : jsstring;
  created_at : jsstring;
  updated_at : jsstring
}.

(** The table: its rows in rowid order, and the largest rowid ever given
    out (AUTOINCREMENT hands out the next one). *)
Record users_table : Type := {
  user_rows : list UserRow;
  user_seq : Z
}.

(** A string bound to a statement crosses into SQLite as UTF-8 and is
    read back from UTF-8: a surrogate pair survives the passage, a
    surrogate code unit that stands alone comes back as U+FFFD.
    [to_text s] is what the TEXT column holds, and gives back, for the
    JavaScript string [s]; the rows of the tables below hold strings as
    they are read back. *)
Definition is_lead (c : jschar) : bool := ((55296 <=? c) && (c <=? 56319))%N.
Definition is_trail (c : jschar) : bool := ((56320 <=? c) && (c <=? 57343))%N.

Fixpoint to_text (s : jsstring) : jsstring :=
  match s with
  | [] => []
  | c :: s' =>
      if is_lead c then
        match s' with
        | d :: s'' => if is_trail d then c :: d :: to_text s''
                      else 65533%N :: to_text s'
        | [] => [65533%N]
        end
      else if is_trail c then 65533%N :: to_text s'
      else c :: to_text s'
  end.

(** [SELECT * FROM users WHERE wx_open_id = ?], first row: the column is
    compared with the bound text. *)
Definition findUserByWxOpenId (t : users_table) (wxOpenId : jsstring)
  : option UserRow :=
  find (fun r => JsString.eqb (wx_open_id r) (to_text wxOpenId)) (user_rows t).

(** [SELECT * FROM users WHERE id = ?], first row *)
Definition getUserById (t : users_table) (userId : Z) : option UserRow :=
  find (fun r => (id r =? userId)%Z) (user_rows t).

(** [createUser(wxOpenId, phone)] at the time [now] (an ISO string).  The
    INSERT fails on the UNIQUE constraint of [wx_open_id], which bears on
    the text stored: [None]. *)
Definition createUser (t : users_table) (wxOpenId : jsstring)
           (phoneArg : option jsstring) (now : jsstring)
  : option (users_table * UserRow) :=
  match findUserByWxOpenId t wxOpenId with
  | Some _ => None
  | None =>
      let row := {| id := (user_seq t + 1)%Z;
                    wx_open_id := to_text wxOpenId;
                    phone := option_map to_text phoneArg;
                    vip_level := lit "free";
                    settings := lit "{}";
                    created_at := to_text now;
                    updated_at := to_text now |} in
      let t' := {| user_rows := user_rows t ++ [row];
                   user_seq := (user_seq t + 1)%Z |} in
      match getUserById t' (user_seq t + 1)%Z with
      | Some r => Some (t', r)
      | None => None
      end
  end.

(** [UPDATE users SET phone = ?, updated_at = ? WHERE id = ?] *)
Definition updateUserPhone (t : users_table) (userId : Z)
           (newPhone : jsstring) (now : jsstring) : users_table :=
  {| user_rows :=
       map (fun r =>
              if (id r =? userId)%Z
              then {| id := id r;
                      wx_open_id := wx_open_id r;
                      phone := Some (to_text newPhone);
                      vip_level := vip_level r;
                      settings := settings r;
                      created_at := created_at r;
                      updated_at := to_text now |}
              else r)
           (user_rows t);
     user_seq := user_seq t |}.

(** A row of [emotion_cookies]. *)
Record EmotionDayRow : Type := {
  day_id : Z;
  user_id : Z;
  date : jsstring;
  data : jsstring;
  day_created_at : jsstring;
  day_updated_at : jsstring;
  is_deleted : Z
}.

Record days_table : Type := {
  day_rows : list EmotionDayRow;
  day_seq : Z
}.

Definition day_by_id (t : days_table) (rowid : Z) : option EmotionDayRow :=
  find (fun r => (day_id r =? rowid)%Z) (day_rows t).

(** [SELECT id FROM emotion_cookies WHERE user_id = ? AND date = ? AND
    is_deleted = 0], first row; the date column is compared with the bound
    text. *)
Definition existing_day (t : days_table) (userId : Z) (day : jsstring)
  : option EmotionDayRow :=
  find (fun r => (user_id r =? userId)%Z
                 && JsString.eqb (date r) (to_text day)
                 && (is_deleted r =? 0)%Z)
       (day_rows t).

Inductive db_error : Type :=
| ForeignKeyFailed.    (* SQLITE_CONSTRAINT_FOREIGNKEY, thrown by [run] *)

(** [upsertEmotionDay(userId, date, dataJson)] at the time [now].  The
    schema declares [user_id] a foreign key into [users(id)], and the
    database is opened with foreign keys enforced: the INSERT throws when
    [users] holds no row with that id, and nothing is written; the UPDATE
    leaves [user_id] alone and is not checked.  In the outcome, [None]
    stands for the [undefined] a failed re-read would give. *)
Definition upsertEmotionDay (users : users_table) (t : days_table)
           (userId : Z) (day : jsstring) (dataJson : jsstring) (now : jsstring)
  : result db_error (days_table * option EmotionDayRow) :=
  match existing_day t userId day with
  | Some existed =>
      let t' :=
        {| day_rows :=
             map (fun r =>
                    if (day_id r =? day_id existed)%Z
                    then {| day_id := day_id r;
                            user_id := user_id r;
                            date := date r;
                            data := to_text dataJson;
                            day_created_at := day_created_at r;
                            day_updated_at := to_text now;
                            is_deleted := is_deleted r |}
                    else r)
                 (day_rows t);
           day_seq := day_seq t |} in
      Return (t', day_by_id t' (day_id existed))
  | None =>
      match getUserById users userId with
      | None => Throw ForeignKeyFailed
      | Some _ =>
          let row := {| day_id := (day_seq t + 1)%Z;
                        user_id := userId;
                        date := to_text day;
                        data := to_text dataJson;
                        day_created_at := to_text now;
                        day_updated_at := to_text now;
                        is_deleted := 0%Z |} in
          let t' := {| day_rows := day_rows t ++ [row];
                       day_seq := (day_seq t + 1)%Z |} in
          Return (t', day_by_id t' (day_seq t + 1)%Z)
      end
  end.

End Db.

(** ** middleware/auth.ts and routes/auth.ts *)

Module Auth.

(** What a token carries ([iat] and [exp] are the library's business). *)
Record JwtPayload : Type := {
  userId : Z;
  wxOpenId : jsstring
}.

(** [req.user] *)
Record ReqUser : Type := {
  req_id : Z;
  req_wxOpenId : jsstring
}.

(** What [toUserDto] builds. *)
Record UserDto : Type := {
  dto_id : Z;
  dto_wxOpenId : jsstring;
  dto_phone : option jsstring;
  dto_vipLevel : jsstring;
  dto_settings : json;
  dto_createdAt : jsstring;
  dto_updatedAt : jsstring
}.

(** [toUserDto(row)]; [None] when [JSON.parse(row.settings)] throws. *)
Definition toUserDto (row : Db.UserRow) : option UserDto :=
  match (if nonempty (Db.settings row) then JSON_parse (Db.settings row)
         else Some (JObj [])) with
  | None => None
  | Some parsedSettings =>
      Some {| dto_id := Db.id row;
              dto_wxOpenId := Db.wx_open_id row;
              dto_phone := Db.phone row;
              dto_vipLevel := Db.vip_level row;
              dto_settings := parsedSettings;
              dto_createdAt := Db.created_at row;
              dto_updatedAt := Db.updated_at row |}
  end.

(** How [authMiddleware] ends: one of its four refusals, or [next()] with
    [req.user] set. *)
Inductive middleware_end : Type :=
| NoToken              (* 401, line 22 *)
| JwtNotConfigured     (* 500, line 26 *)
| UserNotFound         (* 401, line 33 *)
| TokenRejected        (* 401, line 39 *)
| Next (user : ReqUser).

Inductive login_failure : Type :=
| SessionFailed (e : WechatApi.session_error)
| InsertFailed
| SettingsUnreadable.

Inductive login_response : Type :=
| LoginNoCode                                  (* 400 *)
| LoginNoJwt                                   (* 500 *)
| LoginRejected (e : login_failure)            (* 401 *)
| LoginOk (token : jsstring) (user : UserDto). (* code 0 *)

Inductive me_response : Type :=
| MeUserNotFound            (* 401 *)
| MeOk (user : UserDto)     (* code 0 *)
| MeThrows.                 (* toUserDto threw, outside any try *)

Inductive phone_failure : Type :=
| LookupFailed (e : WechatApi.phone_error)
| PhoneUserUnreadable.      (* toUserDto threw, or the user is gone *)

Inductive phone_response : Type :=
| PhoneNoCode                        (* 400 *)
| PhoneNotLoggedIn                   (* 401 *)
| PhoneRejected (e : phone_failure)  (* 400 *)
| PhoneOk (user : UserDto).          (* code 0 *)

(** A body field that must be a non-empty string:
    [!v || typeof v !== 'string'] is false. *)
Definition string_field (v : jsval) : option jsstring :=
  match v with
  | Some (JStr s) => if nonempty s then Some s else None
  | _ => None
  end.

Section Jwt.

(** [jwt.sign(payload, secret, { expiresIn })] and
    [jwt.verify(token, secret)] of the jsonwebtoken library; [None] when
    [verify] throws.  With [expiresIn] the token carries the time of
    signing and the expiry counted from it, so [jwt_sign] also takes the
    clock, in seconds, at the call. *)
Variable jwt_sign : JwtPayload -> jsstring -> Z -> jsstring.
Variable jwt_verify : jsstring -> jsstring -> option JwtPayload.

(** [authMiddleware], given [config.jwt.secret], the users table and the
    Authorization header. *)
Definition authMiddleware (secret : jsstring) (users : Db.users_table)
           (authorization : option jsstring) : middleware_end :=
  let token :=
    match authorization with
    | Some auth => strip_prefix (lit "Bearer ") auth   (* auth.slice(7) *)
    | None => None
    end in
  match token with
  | None => NoToken
  | Some [] => NoToken
  | Some (c :: t) =>
      if negb (nonempty secret) then JwtNotConfigured
      else
        match jwt_verify (c :: t) secret with
        | None => TokenRejected
        | Some payload =>
            match Db.getUserById users (userId payload) with
            | None => UserNotFound
            | Some user =>
                Next {| req_id := Db.id user;
                        req_wxOpenId := Db.wx_open_id user |}
            end
        end
  end.

(** POST /login as one caller sees it: the users table it leaves, the
    requests it made, its response.  [now] is the time [createUser] reads
    and [iat] the clock [jwt.sign] reads. *)
Definition login (secret : jsstring) (config : Wechat.WechatConfig)
           (users : Db.users_table) (code : jsval)
           (answer : axios_result WechatApi.SessionData) (now : jsstring)
           (iat : Z)
  : Db.users_table * nat * login_response :=
  match string_field code with
  | None => (users, 0, LoginNoCode)
  | Some c =>
      if negb (nonempty secret) then (users, 0, LoginNoJwt)
      else
        match WechatApi.code2Session config c answer with
        | (n, Throw e) => (users, n, LoginRejected (SessionFailed e))
        | (n, Return session) =>
            match
              match Db.findUserByWxOpenId users (WechatApi.openid session) with
              | Some user => Some (users, user)
              | None => Db.createUser users (WechatApi.openid session) None now
              end
            with
            | None => (users, n, LoginRejected InsertFailed)
            | Some (users', user) =>
                let token :=
                  jwt_sign {| userId := Db.id user;
                              wxOpenId := Db.wx_open_id user |} secret iat in
                match toUserDto user with
                | None => (users', n, LoginRejected SettingsUnreadable)
                | Some dto => (users', n, LoginOk token dto)
                end
            end
        end
  end.

(** The handler of GET /me, run once [authMiddleware] called [next()]. *)
Definition me (users : Db.users_table) (user : option ReqUser) : me_response :=
  match user with
  | None => MeUserNotFound
  | Some u =>
      match Db.getUserById users (req_id u) with
      | None => MeUserNotFound
      | Some row =>
          match toUserDto row with
          | Some dto => MeOk dto
          | None => MeThrows
          end
      end
  end.

(** The handler of POST /phone as one caller sees it; [nowIso] is the time
    of the update. *)
Definition phone (config : Wechat.WechatConfig)
           (cache : option Wechat.CachedToken) (users : Db.users_table)
           (user : option ReqUser) (code : jsval)
           (now : Z) (tokenAnswer : axios_result Wechat.TokenData) (later : Z)
           (phoneAnswer : axios_result WechatApi.PhoneData) (nowIso : jsstring)
  : option Wechat.CachedToken * Db.users_table * list WechatApi.request
    * phone_response :=
  match string_field code with
  | None => (cache, users, [], PhoneNoCode)
  | Some c =>
      match user with
      | None => (cache, users, [], PhoneNotLoggedIn)
      | Some u =>
          match WechatApi.getPhoneNumber config cache c now tokenAnswer later
                                         phoneAnswer with
          | (cache', reqs, Throw e) =>
              (cache', users, reqs, PhoneRejected (LookupFailed e))
          | (cache', reqs, Return info) =>
              let users' :=
                Db.updateUserPhone users (req_id u)
                                   (WechatApi.purePhoneNumber info) nowIso in
              match Db.getUserById users' (req_id u) with
              | None => (cache', users', reqs, PhoneRejected PhoneUserUnreadable)
              | Some row =>
                  match toUserDto row with
                  | None => (cache', users', reqs, PhoneRejected PhoneUserUnreadable)
                  | Some dto => (cache', users', reqs, PhoneOk dto)
                  end
              end
          end
      end
  end.

End Jwt.

End Auth.

(** ** routes/emotionCookies.ts: saving a day *)

Module EmotionCookies.

Inductive save_response : Type :=
| SaveNotLoggedIn                      (* 401 *)
| SaveNotVip                           (* 403 *)
| SaveNoDate                           (* 400 *)
| Saved (rowid : Z) (day : jsstring)   (* code 0 *)
| SaveThrows.           (* the upsert threw, or the row read back is undefined *)

(** The handler of POST /, run once [authMiddleware] called [next()];
    [dataJson] is [JSON.stringify({ entries, analysis })] of the body. *)
Definition save_day (users : Db.users_table) (days : Db.days_table)
           (user : option Auth.ReqUser) (dateField : jsval)
           (dataJson : jsstring) (now : jsstring)
  : Db.days_table * save_response :=
  match user with
  | None => (days, SaveNotLoggedIn)
  | Some u =>
      match Db.getUserById users (Auth.req_id u) with
      | None => (days, SaveNotLoggedIn)
      | Some row =>
          if negb (JsString.eqb (Db.vip_level row) (lit "vip"))
          then (days, SaveNotVip)
          else
            match Auth.string_field dateField with
            | None => (days, SaveNoDate)
            | Some day =>
                match Db.upsertEmotionDay users days (Db.id row) day dataJson
                                          now with
                | Return (days', Some saved) =>
                    (days', Saved (Db.day_id saved) (Db.date saved))
                | Return (days', None) => (days', SaveThrows)
                | Throw _ => (days, SaveThrows)
                end
            end
      end
  end.

End EmotionCookies.

(** ** routes/sync.ts: the snapshot filter *)

Module Snapshot.

Definition SNAPSHOT_KEYS : list jsstring :=
  [ lit "emotion_cookies"; lit "cookie_goals"; lit "user_info";
    lit "enrichment_data"; lit "skill_tree_data"; lit "diary_prompt_custom";
    lit "user_vip"; lit "counselor_diary" ].

(** [out[key] = v] on an object given by its own properties in insertion
    order. *)
Fixpoint set_prop (out : list (jsstring * json)) (key : jsstring) (v : json)
  : list (jsstring * json) :=
  match out with
  | [] => [(key, v)]
  | (k, w) :: rest =>
      if JsString.eqb k key then (k, v) :: rest
      else (k, w) :: set_prop rest key v
  end.

(** [sanitizeSnapshot(body)]: [body[key] !== undefined] holds exactly when
    the parsed body has the property. *)
Definition sanitizeSnapshot (body : list (jsstring * json))
  : list (jsstring * json) :=
  fold_left (fun out key =>
               match lookup key body with
               | Some v => set_prop out key v
               | None => out
               end)
            SNAPSHOT_KEYS [].

End Snapshot.

(** ** The AI gateway routes as a whole *)

Module Routes.
Import Gateway.

Inductive bad_request : Type :=
| MissingApiKey        (* the apiKey message *)
| NothingToAnalyse     (* the empty-content message *)
| MissingTitle.        (* the title message *)

Inductive gateway_error : Type :=
| ModelFailed (e : ai_error)          (* callDeepSeek threw *)
| HandlerFailed (e : extract_error).  (* the handler itself threw *)

(** A response: 400, 502, or 200 with [code: 0] and [data]. *)
Inductive api_response (A : Type) : Type :=
| BadRequest (why : bad_request)
| BadGateway (e : gateway_error)
| Success (data : A).
Arguments BadRequest {A} why.
Arguments BadGateway {A} e.
Arguments Success {A} data.

(** [!apiKey || typeof apiKey !== 'string'] is false. *)
Definition api_key (v : jsval) : option jsstring := Auth.string_field v.

Section Constants.

(** The prompt texts, whose wording plays no part here. *)
Variable DIARY_DEFAULT_PROMPT : jsstring.
Variable DIARY_JSON_SUFFIX : jsstring.
Variable toLocaleTimeString : Z -> jsstring.

(** Lines 217-220. *)
Definition diary_system_prompt (customPrompt : jsval) : jsstring :=
  match customPrompt with
  | Some (JStr p) =>
      if nonempty p && (0 <? length (trim p))
      then trim p ++ DIARY_JSON_SUFFIX
      else DIARY_DEFAULT_PROMPT
  | _ => DIARY_DEFAULT_PROMPT
  end.



End Constants.

(** *** POST /goals/split as a whole *)

Definition goals_route (apiKey title : jsval) (answer : axios_result ChatData)
  : nat * api_response (list jsstring) :=
  match api_key apiKey with
  | None => (0, BadRequest MissingApiKey)
  | Some _ =>
      match Auth.string_field title with
      | None => (0, BadRequest MissingTitle)
      | Some _ =>
          match callDeepSeek answer with
          | Throw err => (1, BadGateway (ModelFailed err))
          | Return stepsText => (1, Success (split_steps stepsText))
          end
      end
  end.

(** *** POST /fortune/generate *)

Section Fortune.

(** The seven prompt texts. *)
Variables p_physical p_touch p_social p_cognitive p_sensory p_food p_selfCare
  : jsstring.

Definition FORTUNE_PROMPTS : list (jsstring * jsstring) :=
  [ (lit "physical", p_physical); (lit "touch", p_touch);
    (lit "social", p_social); (lit "cognitive", p_cognitive);
    (lit "sensory", p_sensory); (lit "food", p_food);
    (lit "selfCare", p_selfCare) ].

(** [Object.keys(FORTUNE_PROMPTS)] *)
Definition FORTUNE_CATEGORIES : list jsstring := map fst FORTUNE_PROMPTS.

(** [FORTUNE_CATEGORIES.includes(c)] *)
Definition includes (l : list jsstring) (c : jsstring) : bool :=
  existsb (JsString.eqb c) l.

(** [FORTUNE_PROMPTS[key]] *)
Fixpoint prompt_of (l : list (jsstring * jsstring)) (key : jsstring)
  : option jsstring :=
  match l with
  | [] => None
  | (k, p) :: rest => if JsString.eqb k key then Some p else prompt_of rest key
  end.

(** Lines 593-596; [pick] is [Math.floor(Math.random() * 7)], and an
    index outside the array reads [undefined]. *)
Definition final_category (category : jsval) (pick : nat) : option jsstring :=
  match category with
  | Some (JStr c) =>
      if nonempty c && includes FORTUNE_CATEGORIES c then Some c
      else nth_error FORTUNE_CATEGORIES pick
  | _ => nth_error FORTUNE_CATEGORIES pick
  end.

Record FortuneData : Type := {
  fortune_content : jsstring;
  fortune_category : option jsstring
}.

Record FortuneRequest : Type := {
  fortune_systemPrompt : option jsstring;
  fortune_userContent : jsstring
}.

(** The user content: the category between the two halves of the line-600
    template; [undefined] prints as the word. *)
Definition fortune_user_content (finalCategory : option jsstring) : jsstring :=
  [35831; 20026; 12300]%N
  ++ match finalCategory with Some c => c | None => lit "undefined" end
  ++ [12301; 26495; 22359; 29983; 25104; 19968; 26465; 20170; 26085; 23567;
      20219; 21153; 12290]%N.

Definition fortune_route (apiKey category : jsval) (pick : nat)
           (answer : axios_result ChatData)
  : list FortuneRequest * api_response FortuneData :=
  match api_key apiKey with
  | None => ([], BadRequest MissingApiKey)
  | Some _ =>
      let finalCategory := final_category category pick in
      let request :=
        {| fortune_systemPrompt :=
             match finalCategory with
             | Some c => prompt_of FORTUNE_PROMPTS c
             | None => None
             end;
           fortune_userContent := fortune_user_content finalCategory |} in
      match callDeepSeek answer with
      | Throw err => ([request], BadGateway (ModelFailed err))
      | Return content =>
          ([request],
           Success {| fortune_content := trim content;
                      fortune_category := finalCategory |})
      end
  end.

End Fortune.

(** *** POST /analysis/counselor-diary *)





Section Counselor.

Variable toLocaleTimeString : Z -> jsstring.
(** [a.localeCompare(b)] depends on the host's collation data. *)
Variable localeCompare : jsstring -> jsstring -> Z.




End Counselor.

End Routes.

(** ** Auxiliary notions for the statements *)

(** The string without its longest prefix of characters in [p]. *)
Fixpoint drop_while (p : jschar -> bool) (s : jsstring) : jsstring :=
  match s with
  | c :: s' => if p c then drop_while p s' else s
  | [] => []
  end.

(** The length of that prefix. *)
Fixpoint span_length (p : jschar -> bool) (s : jsstring) : nat :=
  match s with
  | c :: s' => if p c then S (span_length p s') else 0
  | [] => 0
  end.

(** The first character of [s], if any, is outside [p]. *)
Definition starts_outside (p : jschar -> bool) (s : jsstring) : Prop :=
  match s with
  | c :: _ => p c = false
  | [] => True
  end.

(** The cached credential is absent or within 60 seconds of its expiry. *)
Definition cache_stale (cache : option Wechat.CachedToken) (now : Z) : Prop :=
  match cache with
  | Some c => (Wechat.expireAt c - now <= 60000)%Z
  | None => True
  end.

(** Both the AppID and the secret are set. *)
Definition configured (config : Wechat.WechatConfig) : Prop :=
  Wechat.appId config <> [] /\ Wechat.secret config <> [].

(** The token endpoint's answer is no usable token: the request was
    rejected, the body reports an error code, or it has no access token. *)
Definition refused (answer : axios_result Wechat.TokenData) : Prop :=
  match answer with
  | Rejected _ => True
  | Resolved data =>
      (exists n, Wechat.errcode data = Some n /\ n <> 0%Z)
      \/ Wechat.access_token data = None
      \/ Wechat.access_token data = Some []
  end.

(** The text holds an opening brace with a closing brace somewhere after
    it. *)
Definition has_span (raw : jsstring) : Prop :=
  exists a b c, raw = a ++ 123%N :: b ++ 125%N :: c.

(** What [JSON.parse] makes of the text from the first opening brace to
    the last closing brace: [None] when there is no such span or when it
    is not JSON. *)
Definition span_json (raw : jsstring) : option json :=
  match exec Gateway.re_json_span raw with
  | Some jsonMatch => JSON_parse (matched raw jsonMatch)
  | None => None
  end.

(** Group 1 of the first match of [r] in [raw], trimmed. *)
Definition captured (r : regex) (raw : jsstring) : option jsstring :=
  match exec r raw with
  | Some m => Gateway.group1_trim m
  | None => None
  end.

(** The value under [key] when it is truthy, else the string [default]. *)
Definition field_or (l : list (jsstring * json)) (key default : jsstring) : json :=
  match lookup key l with
  | Some v => if truthy v then v else JStr default
  | None => JStr default
  end.

(** The text [{"diary":"x"}]. *)
Definition raw_diary_x : jsstring :=
  [123; 34; 100; 105; 97; 114; 121; 34; 58; 34; 120; 34; 125]%N.

(** An object of the diary shape, as its properties in insertion order. *)
Definition diary_object (d k i : jsstring) : list (jsstring * jsstring) :=
  [ (lit "diary", d); (lit "keyPoints", k); (lit "insights", i) ].

(** A caller arriving at a given time. *)
Definition call_event (c : nat * Z) : Wechat.event :=
  Wechat.Call (fst c) (snd c).

(** A process with nothing sent, nobody waiting and nothing delivered. *)
Definition idle (cache : option Wechat.CachedToken) : Wechat.process :=
  {| Wechat.cachedAccessToken := cache;
     Wechat.sent := [];
     Wechat.waiting := [];
     Wechat.delivered := [] |}.

(** Entries compared, and selected, by the timestamp they sort under. *)
Definition ts_le (a b : Gateway.Entry) : Prop :=
  (Gateway.timestamp_or_zero a <= Gateway.timestamp_or_zero b)%Z.

Definition has_ts (t : Z) (e : Gateway.Entry) : bool :=
  (Gateway.timestamp_or_zero e =? t)%Z.

(** Every successful match of [r] sets group 1. *)
Definition sets_group (r : regex) : Prop :=
  forall k pos s cap a,
    rmatch r k pos s cap = Some a ->
    exists pos' s' g, k pos' s' (Some g) = Some a.

(** The object [JSON.parse] builds from an object of strings. *)
Definition as_json_fields (l : list (jsstring * jsstring))
  : list (jsstring * json) :=
  map (fun kv => (fst kv, JStr (snd kv))) l.

Definition wf_fields (l : list (jsstring * jsstring)) : Prop :=
  Forall (fun kv => wf_string (fst kv) /\ wf_string (snd kv)) l.

(** The token a cache holds, if any, is not empty. *)
Definition cache_sound (cache : option Wechat.CachedToken) : Prop :=
  match cache with
  | Some c => Wechat.token c <> []
  | None => True
  end.

(** No caller was handed an empty token. *)
Definition delivered_sound (p : Wechat.process) : Prop :=
  Forall (fun d => match snd d with
                   | Return t => t <> []
                   | Throw _ => True
                   end)
         (Wechat.delivered p).

(** The lifetime, in seconds, the code gives a token. *)
Definition lifetime_of (data : Wechat.TokenData) : Z :=
  match Wechat.expires_in data with
  | Some n => n
  | None => 7200%Z
  end.

(** What the schema of [users] keeps true: ids and openids are unique and
    no id exceeds the AUTOINCREMENT counter. *)
Definition users_ok (t : Db.users_table) : Prop :=
  NoDup (map Db.id (Db.user_rows t))
  /\ NoDup (map Db.wx_open_id (Db.user_rows t))
  /\ Forall (fun r => (Db.id r <= Db.user_seq t)%Z) (Db.user_rows t).

(** The same for the ids of [emotion_cookies]. *)
Definition days_ok (t : Db.days_table) : Prop :=
  NoDup (map Db.day_id (Db.day_rows t))
  /\ Forall (fun r => (Db.day_id r <= Db.day_seq t)%Z) (Db.day_rows t).

(** The row is a live row of the given user and day. *)
Definition live_day (userId : Z) (day : jsstring) (r : Db.EmotionDayRow) : Prop :=
  Db.user_id r = userId /\ Db.date r = day /\ Db.is_deleted r = 0%Z.

(** No user has two live rows for one day. *)
Definition one_day_each (t : Db.days_table) : Prop :=
  forall a b userId day,
    In a (Db.day_rows t) -> In b (Db.day_rows t) ->
    live_day userId day a -> live_day userId day b ->
    Db.day_id a = Db.day_id b.

(** The string holds no surrogate code unit. *)
Definition plain (s : jsstring) : Prop :=
  Forall (fun c => Db.is_lead c = false /\ Db.is_trail c = false) s.

(** A user row with a new phone and update time. *)
Definition with_phone (newPhone now : jsstring) (r : Db.UserRow) : Db.UserRow :=
  {| Db.id := Db.id r;
     Db.wx_open_id := Db.wx_open_id r;
     Db.phone := Some newPhone;
     Db.vip_level := Db.vip_level r;
     Db.settings := Db.settings r;
     Db.created_at := Db.created_at r;
     Db.updated_at := now |}.

(** A day row with new data and update time. *)
Definition with_data (dataJson now : jsstring) (r : Db.EmotionDayRow)
  : Db.EmotionDayRow :=
  {| Db.day_id := Db.day_id r;
     Db.user_id := Db.user_id r;
     Db.date := Db.date r;
     Db.data := dataJson;
     Db.day_created_at := Db.day_created_at r;
     Db.day_updated_at := now;
     Db.is_deleted := Db.is_deleted r |}.

(** The WHERE clause of the SELECT in [upsertEmotionDay]. *)
Definition is_live (u : Z) (day : jsstring) (r : Db.EmotionDayRow) : bool :=
  (Db.user_id r =? u)%Z && JsString.eqb (Db.date r) day
  && (Db.is_deleted r =? 0)%Z.

(** What the UPDATE of [upsertEmotionDay] does to a row, [e] being the row
    the SELECT found. *)
Definition touch (e : Db.EmotionDayRow) (d now : jsstring) (r : Db.EmotionDayRow)
  : Db.EmotionDayRow :=
  if (Db.day_id r =? Db.day_id e)%Z then with_data d now r else r.

(** One turn of the loop of [sanitizeSnapshot]. *)
Definition copy_key (body : list (jsstring * json))
           (out : list (jsstring * json)) (key : jsstring)
  : list (jsstring * json) :=
  match lookup key body with
  | Some v => Snapshot.set_prop out key v
  | None => out
  end.

(** The properties of [body] under the given keys, in the order of the
    keys. *)
Definition pick_keys (keys : list jsstring) (body : list (jsstring * json))
  : list (jsstring * json) :=
  flat_map (fun k => match lookup k body with
                     | Some v => [(k, v)]
                     | None => []
                     end)
           keys.

(** The string has no whitespace at either end. *)
Definition trimmed (s : jsstring) : Prop :=
  starts_outside is_space s /\ starts_outside is_space (rev s).

(** The variable is not set, or set to the empty string. *)
Definition unset (env : jsstring -> option jsstring) (key : jsstring) : Prop :=
  env key = None \/ env key = Some [].


(* ===================================================================== *)
(** * Part II: properties                                                 *)
(* ===================================================================== *)

Unset Implicit Arguments.

(** ** Strings and regular expressions *)

Section RegexFacts.

Import Gateway.

Lemma skipn_span_length (p : jschar -> bool) (s : jsstring) :
  skipn (span_length p s) s = drop_while p s.
Proof.
  induction s as [|c s IH]; simpl; [reflexivity|].
  destruct (p c); simpl; auto.
Qed.

Lemma drop_while_starts_outside (p : jschar -> bool) (s : jsstring) :
  starts_outside p (drop_while p s).
Proof.
  induction s as [|c s IH]; simpl; [exact I|].
  destruct (p c) eqn:E; simpl; auto.
Qed.

(** A greedy class star followed by nothing takes the longest run. *)
Lemma star_greedy_accept (p : jschar -> bool) (s : jsstring) :
  forall pos cap,
    star_greedy p accept pos s cap = Some (pos + span_length p s, cap).
Proof.
  induction s as [|c s IH]; intros pos cap; simpl.
  - unfold accept. now rewrite Nat.add_0_r.
  - destruct (p c).
    + rewrite IH. simpl. f_equal. f_equal. lia.
    + unfold accept. now rewrite Nat.add_0_r.
Qed.

(** [^] cannot match after the first index. *)
Lemma exec_from_bol (r : regex) (s : jsstring) :
  forall pos, pos <> 0 -> exec_from (RSeq RBol r) pos s = None.
Proof.
  induction s as [|c s IH]; intros pos Hpos; simpl;
    destruct (Nat.eqb_spec pos 0) as [E|_]; try contradiction; auto.
Qed.

(** Stripping the enumeration marker removes exactly the longest prefix of
    marker characters. *)
Lemma replace_marker (s : jsstring) :
  replace_empty re_marker s = drop_while marker_char s.
Proof.
  unfold replace_empty, exec, re_marker.
  destruct s as [|c s]; [reflexivity|].
  cbn [exec_from rmatch Nat.eqb].
  destruct (marker_char c) eqn:E.
  - rewrite star_greedy_accept. cbn [m_index m_end firstn app].
    change (1 + span_length marker_char s) with (S (span_length marker_char s)).
    cbn [skipn drop_while]. rewrite E. apply skipn_span_length.
  - rewrite exec_from_bol by discriminate. cbn [drop_while]. now rewrite E.
Qed.

End RegexFacts.

(** ** POST /goals/split *)

Module GoalsSplit.
Import Gateway.

Lemma in_split_steps (stepsText step : jsstring) :
  In step (split_steps stepsText) ->
  exists line, step = drop_while marker_char line.
Proof.
  unfold split_steps. intros H.
  apply in_map_iff in H. destruct H as [line [<- _]].
  exists line. apply replace_marker.
Qed.

(** A line that survives the blank-line filter and holds only marker
    characters becomes the empty step. *)
Lemma marker_only_line (line : jsstring) :
  forallb marker_char line = true ->
  replace_empty re_marker line = [].
Proof.
  rewrite replace_marker.
  induction line as [|c l IH]; simpl; [reflexivity|].
  intros H. apply andb_prop in H. destruct H as [Hc Hl].
  rewrite Hc. auto.
Qed.

(** C10: in [POST /goals/split] the blank-line filter runs before the
    enumeration markers are stripped, so the text ["1."] yields a steps
    array whose one element is the empty string, as does every surviving
    line made of marker characters only; and no returned step starts with
    a digit, a dot, a dash, a closing parenthesis or a whitespace
    character. *)
Theorem split_steps_marker_edge :
  split_steps (lit "1.") = [[]]
  /\ (forall stepsText line,
        In line (filter nonempty (map trim (split re_newline stepsText))) ->
        forallb marker_char line = true ->
        In [] (split_steps stepsText))
  /\ (forall stepsText step,
        In step (split_steps stepsText) -> starts_outside marker_char step).
Proof.
  split; [reflexivity|split].
  - intros stepsText line Hin Hall. unfold split_steps.
    apply in_map_iff. exists line. split; [|exact Hin].
    now apply marker_only_line.
  - intros stepsText step H.
    destruct (in_split_steps _ _ H) as [line ->].
    apply drop_while_starts_outside.
Qed.

Lemma split_steps_marker_edge_witness :
  In [] (split_steps (lit "1."))
  /\ starts_outside marker_char (lit "foo").
Proof.
  split.
  - apply (proj1 (proj2 split_steps_marker_edge) (lit "1.") (lit "1.")).
    + vm_compute. left. reflexivity.
    + reflexivity.
  - apply (proj2 (proj2 split_steps_marker_edge) (lit "1. foo") (lit "foo")).
    vm_compute. left. reflexivity.
Defined.

End GoalsSplit.

(** ** callDeepSeek *)

Module CallDeepSeek.
Import Gateway.

Lemma trimStart_blank (s : jsstring) :
  forallb is_space s = true -> trimStart s = [].
Proof.
  induction s as [|c s IH]; simpl; [reflexivity|].
  intros H. apply andb_prop in H. destruct H as [-> Hs]. auto.
Qed.

Lemma trim_blank (s : jsstring) :
  forallb is_space s = true -> trim s = [].
Proof.
  intros H. unfold trim, trimEnd. now rewrite (trimStart_blank _ H).
Qed.

(** C8: on a response that arrived, [callDeepSeek] takes the content of
    the first choice; when that content is absent, empty or made of
    whitespace only, the call throws the empty-content error; and whenever
    the call returns, the text it returns is not empty. *)
Theorem callDeepSeek_empty_response :
  (forall data,
      first_content data = None ->
      callDeepSeek (Resolved data) = Throw EmptyContent)
  /\ (forall data c,
        first_content data = Some c ->
        forallb is_space c = true ->
        callDeepSeek (Resolved data) = Throw EmptyContent)
  /\ (forall answer text,
        callDeepSeek answer = Return text ->
        text <> []
        /\ exists data c, answer = Resolved data
                          /\ first_content data = Some c /\ text = trim c).
Proof.
  split; [|split].
  - intros data H. unfold callDeepSeek. now rewrite H.
  - intros data c H Hblank. unfold callDeepSeek.
    rewrite H, (trim_blank _ Hblank). reflexivity.
  - intros [data|m] text; unfold callDeepSeek; [|discriminate].
    destruct (first_content data) as [c|] eqn:E; [|discriminate].
    destruct (trim c) as [|x t] eqn:Et; simpl; [discriminate|].
    intros H. injection H as <-. split; [discriminate|].
    exists data, c. now rewrite Et.
Qed.

Lemma callDeepSeek_empty_response_witness :
  callDeepSeek (Resolved {| choices := Some [] |}) = Throw EmptyContent
  /\ callDeepSeek
       (Resolved {| choices :=
                      Some [ {| message := Some {| content := Some (lit "  ") |} |} ] |})
     = Throw EmptyContent
  /\ lit "ok" <> [].
Proof.
  split; [|split].
  - apply (proj1 callDeepSeek_empty_response). reflexivity.
  - apply (proj1 (proj2 callDeepSeek_empty_response)) with (c := lit "  ");
      reflexivity.
  - apply (proj2 (proj2 callDeepSeek_empty_response)
             (Resolved {| choices :=
                  Some [ {| message := Some {| content := Some (lit " ok ") |} |} ] |})
             (lit "ok")).
    reflexivity.
Defined.

End CallDeepSeek.

(** ** The access-token cache *)

Module TokenCache.
Import Wechat.

Lemma request_token_configured (config : WechatConfig) :
  configured config ->
  request_token config =
  Awaiting {| grant_type := lit "client_credential";
              req_appid := appId config;
              req_secret := secret config |}.
Proof.
  intros [Ha Hs]. unfold request_token.
  destruct (appId config); [contradiction|].
  destruct (secret config); [contradiction|]. reflexivity.
Qed.

Lemma request_token_unconfigured (config : WechatConfig) :
  ~ configured config ->
  request_token config = Settled (Throw NotConfigured).
Proof.
  intros H. unfold request_token, configured in *.
  destruct (appId config); [reflexivity|].
  destruct (secret config); [reflexivity|].
  exfalso. apply H. split; discriminate.
Qed.

Lemma begin_stale (config : WechatConfig) (cache : option CachedToken) (now : Z) :
  cache_stale cache now ->
  getAccessToken_begin config cache now = request_token config.
Proof.
  destruct cache as [c|]; simpl; [|reflexivity].
  intros H. destruct (Z.gtb_spec (expireAt c) (now + 60000)); [lia|reflexivity].
Qed.

Lemma begin_fresh (config : WechatConfig) (c : CachedToken) (now : Z) :
  (expireAt c - now > 60000)%Z ->
  getAccessToken_begin config (Some c) now = Settled (Return (token c)).
Proof.
  intros H. simpl.
  destruct (Z.gtb_spec (expireAt c) (now + 60000)); [reflexivity|lia].
Qed.

Lemma resume_refused (cache : option CachedToken) (now : Z)
      (answer : axios_result TokenData) :
  refused answer ->
  exists e, getAccessToken_resume cache now answer = (cache, Throw e).
Proof.
  destruct answer as [data|m]; simpl.
  - intros [[n [En Hn]]|[Ea|Ea]].
    + rewrite En. simpl. destruct (Z.eqb_spec n 0); [contradiction|].
      simpl. eauto.
    + rewrite Ea. simpl. rewrite orb_true_r. eauto.
    + rewrite Ea. simpl. rewrite orb_true_r. eauto.
  - eauto.
Qed.

Lemma resume_throw (cache : option CachedToken) (now : Z)
      (answer : axios_result TokenData) (e : wx_error) :
  snd (getAccessToken_resume cache now answer) = Throw e ->
  fst (getAccessToken_resume cache now answer) = cache.
Proof.
  unfold getAccessToken_resume.
  destruct answer as [data|m]; [|reflexivity].
  destruct (truthy_num (errcode data) || negb (truthy_str (access_token data)));
    [reflexivity|].
  destruct (access_token data); [discriminate|reflexivity].
Qed.

Lemma resume_return (cache : option CachedToken) (now : Z)
      (answer : axios_result TokenData) (t : jsstring) :
  snd (getAccessToken_resume cache now answer) = Return t ->
  t <> []
  /\ exists data,
      answer = Resolved data /\ access_token data = Some t
      /\ fst (getAccessToken_resume cache now answer)
         = Some {| token := t;
                   expireAt := (now + match expires_in data with
                                      | Some n => n
                                      | None => 7200
                                      end * 1000)%Z |}.
Proof.
  unfold getAccessToken_resume.
  destruct answer as [data|m]; [|discriminate].
  destruct (truthy_num (errcode data)); [discriminate|]. simpl.
  destruct (access_token data) as [[|x t']|] eqn:Ea; simpl; try discriminate.
  intros H. injection H as <-. split; [discriminate|].
  exists data. auto.
Qed.

Lemma resume_accepted (cache : option CachedToken) (later : Z)
      (data : TokenData) (t : jsstring) :
  truthy_num (errcode data) = false ->
  access_token data = Some t -> t <> [] ->
  getAccessToken_resume cache later (Resolved data)
  = (Some {| token := t; expireAt := (later + lifetime_of data * 1000)%Z |},
     Return t).
Proof.
  intros He Ha Hne. unfold getAccessToken_resume, lifetime_of.
  rewrite He, Ha. destruct t as [|x t]; [contradiction|]. reflexivity.
Qed.

(** C6 as the claim states it fails: a call that finds the cached
    credential expired refreshes, and the token the endpoint grants for 30
    seconds is returned to the caller, though it is within 60 seconds of
    its expiry. *)
Lemma short_lived_token_counterexample :
  let config := {| appId := lit "wx1"; secret := lit "s" |} in
  let old := Some {| token := lit "old"; expireAt := 500 |} in
  let answer := Resolved {| access_token := Some (lit "T");
                            expires_in := Some 30%Z;
                            errcode := None;
                            errmsg := None |} in
  getAccessToken config old 0 answer 1000
  = (Some {| token := lit "T"; expireAt := 31000 |}, 1, Return (lit "T"))
  /\ ~ (31000 - 1000 > 60000)%Z.
Proof.
  cbv zeta. split; [reflexivity|lia].
Qed.

(** C6, amended: a cached credential with more than 60 seconds left is
    returned at once, with no request sent and the cache untouched.  A
    cached credential within 60 seconds of its expiry is never returned
    from the cache: the call goes on exactly as with no cached credential.
    Without AppID or secret it throws and sends nothing; otherwise it sends
    one request, throws on a refused answer with the cache as it was, and
    on an answer without error code and with a non-empty access token it
    stores and returns that token, with the lifetime the answer grants
    (7200 seconds when it names none) counted from the answer, whatever
    that lifetime is.  A token the call returns is always that of the
    answer, stored with that expiry. *)
Theorem cached_token_fast_path (config : WechatConfig) (c : CachedToken) (now : Z) :
  ((expireAt c - now > 60000)%Z ->
     getAccessToken_begin config (Some c) now = Settled (Return (token c))
     /\ (forall answer later,
           getAccessToken config (Some c) now answer later
           = (Some c, 0, Return (token c)))
     /\ (forall p caller,
           cachedAccessToken p = Some c ->
           sent (step config p (Call caller now)) = sent p
           /\ delivered (step config p (Call caller now))
              = (caller, Return (token c)) :: delivered p))
  /\ ((expireAt c - now <= 60000)%Z ->
      getAccessToken_begin config (Some c) now
      = getAccessToken_begin config None now
      /\ (~ configured config ->
          forall answer later,
            getAccessToken config (Some c) now answer later
            = (Some c, 0, Throw NotConfigured))
      /\ (configured config ->
          (forall answer later,
              refused answer ->
              exists e, getAccessToken config (Some c) now answer later
                        = (Some c, 1, Throw e))
          /\ (forall data t later,
                truthy_num (errcode data) = false ->
                access_token data = Some t -> t <> [] ->
                getAccessToken config (Some c) now (Resolved data) later
                = (Some {| token := t;
                           expireAt := (later + lifetime_of data * 1000)%Z |},
                   1, Return t)))
      /\ (forall answer later cache' n t,
            getAccessToken config (Some c) now answer later
            = (cache', n, Return t) ->
            n = 1
            /\ exists data,
                answer = Resolved data /\ access_token data = Some t
                /\ cache' = Some {| token := t;
                                    expireAt := (later + lifetime_of data * 1000)%Z |})).
Proof.
  split.
  - intros H. pose proof (begin_fresh config c now H) as B.
    split; [exact B|split].
    + intros answer later. unfold getAccessToken. now rewrite B.
    + intros p caller Hp. unfold step. rewrite Hp, B. simpl. auto.
  - intros H. pose proof (begin_stale config (Some c) now H) as B.
    split; [|split; [|split]].
    + exact B.
    + intros Hc answer later. unfold getAccessToken.
      now rewrite B, (request_token_unconfigured config Hc).
    + intros Hc. split.
      * intros answer later Hr. unfold getAccessToken.
        rewrite B, (request_token_configured config Hc).
        destruct (resume_refused (Some c) later answer Hr) as [e ->]. eauto.
      * intros data t later He Ha Hne. unfold getAccessToken.
        rewrite B, (request_token_configured config Hc).
        now rewrite (resume_accepted (Some c) later data t He Ha Hne).
    + intros answer later cache' n t. unfold getAccessToken.
      rewrite B. unfold request_token.
      destruct (negb (nonempty (appId config)) || negb (nonempty (secret config)));
        [discriminate|].
      pose proof (resume_return (Some c) later answer t) as R.
      destruct (getAccessToken_resume (Some c) later answer) as [c1 r1].
      intros E. injection E as <- <- ->. split; [reflexivity|].
      destruct (R eq_refl) as [_ [data [Ea [Et Ec]]]].
      exists data. split; [exact Ea|]. split; [exact Et|exact Ec].
Qed.

Lemma cached_token_fast_path_witness :
  let config := {| appId := lit "wx1"; secret := lit "s" |} in
  let data := {| access_token := Some (lit "N"); expires_in := None;
                 errcode := Some 0%Z; errmsg := None |} in
  getAccessToken_begin config (Some {| token := lit "T"; expireAt := 100000 |}) 0
  = Settled (Return (lit "T"))
  /\ getAccessToken config (Some {| token := lit "T"; expireAt := 60000 |}) 0
                    (Resolved data) 9
     = (Some {| token := lit "N"; expireAt := 7200009 |}, 1, Return (lit "N")).
Proof.
  split.
  - apply (proj1 (cached_token_fast_path
                    {| appId := lit "wx1"; secret := lit "s" |}
                    {| token := lit "T"; expireAt := 100000 |} 0)).
    simpl. lia.
  - assert (Hs : (expireAt {| token := lit "T"; expireAt := 60000 |} - 0
                  <= 60000)%Z) by (simpl; lia).
    assert (Hc : configured {| appId := lit "wx1"; secret := lit "s" |})
      by (split; discriminate).
    assert (Hne : lit "N" <> []) by discriminate.
    exact (proj2 (proj1 (proj2 (proj2
             (proj2 (cached_token_fast_path
                       {| appId := lit "wx1"; secret := lit "s" |}
                       {| token := lit "T"; expireAt := 60000 |} 0) Hs))) Hc)
             {| access_token := Some (lit "N"); expires_in := None;
                errcode := Some 0%Z; errmsg := None |}
             (lit "N") 9%Z eq_refl eq_refl Hne).
Defined.

(** C7: when the refresh fails (AppID or secret missing, request
    rejected, error code in the answer, access token absent or empty)
    [getAccessToken] throws and [cachedAccessToken] is what it was; more
    generally the cache changes only when the call returns, and then it
    holds the non-empty token of the answer, the very token returned. *)
Theorem refresh_failure_keeps_cache
        (config : WechatConfig) (cache : option CachedToken)
        (now later : Z) (answer : axios_result TokenData) :
  (cache_stale cache now -> ~ configured config ->
     getAccessToken config cache now answer later
     = (cache, 0, Throw NotConfigured))
  /\ (cache_stale cache now -> configured config -> refused answer ->
      exists e, getAccessToken config cache now answer later
                = (cache, 1, Throw e))
  /\ (forall cache' n e,
        getAccessToken config cache now answer later = (cache', n, Throw e) ->
        cache' = cache)
  /\ (forall cache' n t,
        getAccessToken config cache now answer later = (cache', n, Return t) ->
        cache' = cache
        \/ (t <> [] /\ exists c, cache' = Some c /\ token c = t)).
Proof.
  split; [|split; [|split]].
  - intros Hs Hc. unfold getAccessToken.
    now rewrite (begin_stale config cache now Hs), (request_token_unconfigured config Hc).
  - intros Hs Hc Hr. unfold getAccessToken.
    rewrite (begin_stale config cache now Hs), (request_token_configured config Hc).
    destruct (resume_refused cache later answer Hr) as [e ->]. eauto.
  - intros cache' n e. unfold getAccessToken.
    destruct (getAccessToken_begin config cache now) as [r|req].
    + intros H. now injection H as <- _ _.
    + pose proof (resume_throw cache later answer) as T.
      destruct (getAccessToken_resume cache later answer) as [c1 r1].
      intros H. injection H as <- _ ->. apply (T e). reflexivity.
  - intros cache' n t. unfold getAccessToken.
    destruct (getAccessToken_begin config cache now) as [r|req].
    + intros H. injection H as <- _ _. now left.
    + pose proof (resume_return cache later answer) as T.
      destruct (getAccessToken_resume cache later answer) as [c1 r1].
      intros H. injection H as <- _ ->. right.
      destruct (T t eq_refl) as [Hne [data [_ [_ Hc]]]]. simpl in Hc.
      split; [exact Hne|]. eexists. split; [exact Hc|reflexivity].
Qed.

Lemma refresh_failure_keeps_cache_witness :
  let config := {| appId := lit "wx1"; secret := lit "s" |} in
  let old := Some {| token := lit "T"; expireAt := 1000 |} in
  let bad := Resolved {| access_token := Some (lit "half");
                         expires_in := Some 7200%Z;
                         errcode := Some 40013%Z;
                         errmsg := None |} in
  exists e, getAccessToken config old 5000 bad 5001 = (old, 1, Throw e).
Proof.
  apply (proj1 (proj2 (refresh_failure_keeps_cache
           {| appId := lit "wx1"; secret := lit "s" |}
           (Some {| token := lit "T"; expireAt := 1000 |}) 5000 5001
           (Resolved {| access_token := Some (lit "half");
                        expires_in := Some 7200%Z;
                        errcode := Some 40013%Z;
                        errmsg := None |})))).
  - simpl. lia.
  - split; discriminate.
  - simpl. left. exists 40013%Z. split; [reflexivity|discriminate].
Defined.

(** *** Concurrent callers *)

Lemma step_call_stale (config : WechatConfig) (p : process) (caller : nat) (now : Z) :
  configured config ->
  cache_stale (cachedAccessToken p) now ->
  step config p (Call caller now)
  = {| cachedAccessToken := cachedAccessToken p;
       sent := {| grant_type := lit "client_credential";
                  req_appid := appId config;
                  req_secret := secret config |} :: sent p;
       waiting := caller :: waiting p;
       delivered := delivered p |}.
Proof.
  intros Hc Hs. unfold step.
  now rewrite (begin_stale config _ now Hs), (request_token_configured config Hc).
Qed.

Lemma run_calls_stale (config : WechatConfig) (calls : list (nat * Z)) :
  configured config ->
  forall p,
    (forall c, In c calls -> cache_stale (cachedAccessToken p) (snd c)) ->
    cachedAccessToken (run config p (map call_event calls)) = cachedAccessToken p
    /\ length (sent (run config p (map call_event calls)))
       = length (sent p) + length calls
    /\ waiting (run config p (map call_event calls))
       = rev (map fst calls) ++ waiting p
    /\ delivered (run config p (map call_event calls)) = delivered p.
Proof.
  intros Hc. induction calls as [|[caller now] calls IH]; intros p Hs.
  - simpl. repeat split; lia.
  - cbn [map run fold_left].
    change (call_event (caller, now)) with (Call caller now).
    rewrite (@step_call_stale config p caller now Hc (Hs (caller, now) (or_introl eq_refl))).
    match goal with |- context [fold_left _ _ ?q] => specialize (IH q) end.
    destruct IH as [I1 [I2 [I3 I4]]].
    { intros c Hin. simpl. apply Hs. now right. }
    unfold run in *. rewrite I1, I2, I3, I4. cbn.
    repeat split; try lia.
    now rewrite <- app_assoc.
Qed.

(** C1 as the claim states it fails: two callers that find no cached
    credential have two token requests in flight, not one, and each is
    handed the token of its own answer, not a shared one. *)
Lemma single_flight_counterexample :
  let config := {| appId := lit "wx1"; secret := lit "s" |} in
  let p := run config (idle None) [Call 1 0; Call 2 0] in
  let answer t := Resolved {| access_token := Some t;
                              expires_in := Some 7200%Z;
                              errcode := None;
                              errmsg := None |} in
  ~ (length (sent p) <= 1)
  /\ ~ (length (waiting p) <= 1)
  /\ delivered (run config p [Answer 1 10 (answer (lit "A"));
                              Answer 2 20 (answer (lit "B"))])
     = [(2, Return (lit "B")); (1, Return (lit "A"))].
Proof.
  vm_compute. split; [|split]; [intros H; lia|intros H; lia|reflexivity].
Qed.

(** C1, amended: [getAccessToken] does not coalesce refreshes.  With the
    AppID and secret configured, every caller that finds the cached
    credential absent or expired sends a token request of its own, so N
    callers arriving before any answer leave N requests in flight; and
    each waiting caller resumes with the answer to its own request. *)
Theorem concurrent_callers_refresh_each
        (config : WechatConfig) (p : process) (calls : list (nat * Z)) :
  configured config ->
  (forall c, In c calls -> cache_stale (cachedAccessToken p) (snd c)) ->
  length (sent (run config p (map call_event calls)))
  = length (sent p) + length calls
  /\ waiting (run config p (map call_event calls))
     = rev (map fst calls) ++ waiting p
  /\ (forall q caller now answer,
        In caller (waiting q) ->
        delivered (step config q (Answer caller now answer))
        = (caller, snd (getAccessToken_resume (cachedAccessToken q) now answer))
            :: delivered q).
Proof.
  intros Hc Hs.
  destruct (@run_calls_stale config calls Hc p Hs) as [_ [H2 [H3 _]]].
  split; [exact H2|split; [exact H3|]].
  intros q caller now answer Hin. unfold step.
  assert (E : existsb (Nat.eqb caller) (waiting q) = true).
  { apply existsb_exists. exists caller. split; [exact Hin|apply Nat.eqb_refl]. }
  rewrite E.
  destruct (getAccessToken_resume (cachedAccessToken q) now answer); reflexivity.
Qed.

Lemma concurrent_callers_refresh_each_witness :
  let config := {| appId := lit "wx1"; secret := lit "s" |} in
  let calls := [(1, 0%Z); (2, 5%Z); (3, 9%Z)] in
  length (sent (run config (idle None) (map call_event calls))) = 3
  /\ waiting (run config (idle None) (map call_event calls)) = [3; 2; 1].
Proof.
  assert (Hc : configured {| appId := lit "wx1"; secret := lit "s" |})
    by (split; discriminate).
  assert (Hs : forall c : nat * Z,
             In c [(1, 0%Z); (2, 5%Z); (3, 9%Z)] ->
             cache_stale (cachedAccessToken (idle None)) (snd c))
    by (intros c _; exact I).
  destruct (@concurrent_callers_refresh_each _ (idle None) _ Hc Hs) as [H1 [H2 _]].
  split; [exact H1|exact H2].
Defined.

End TokenCache.

(** ** The entries of POST /analysis/diary *)

Module EntryOrder.
Import Gateway.

Lemma insert_sorted_perm (x : Entry) (l : list Entry) :
  Permutation (x :: l) (insert_sorted by_timestamp x l).
Proof.
  induction l as [|y l IH]; simpl; [apply Permutation_refl|].
  destruct (by_timestamp x y <=? 0)%Z; [apply Permutation_refl|].
  eapply perm_trans; [apply perm_swap|]. now apply perm_skip.
Qed.

Lemma sort_perm (l : list Entry) : Permutation l (sort by_timestamp l).
Proof.
  induction l as [|x l IH]; simpl; [constructor|].
  eapply perm_trans; [|apply insert_sorted_perm]. now apply perm_skip.
Qed.

Lemma insert_sorted_hd (x a : Entry) (l : list Entry) :
  ts_le a x -> HdRel ts_le a l -> HdRel ts_le a (insert_sorted by_timestamp x l).
Proof.
  intros Hax Hal. destruct l as [|y l]; simpl; [now constructor|].
  destruct (by_timestamp x y <=? 0)%Z; constructor; auto.
  now inversion Hal.
Qed.

Lemma insert_sorted_sorted (x : Entry) (l : list Entry) :
  Sorted ts_le l -> Sorted ts_le (insert_sorted by_timestamp x l).
Proof.
  induction 1 as [|y l Hs IH Hhd]; simpl; [repeat constructor|].
  destruct (Z.leb_spec (by_timestamp x y) 0) as [Hle|Hgt].
  - constructor; [now constructor|]. constructor.
    unfold ts_le, by_timestamp in *. lia.
  - constructor; [exact IH|]. apply insert_sorted_hd; [|exact Hhd].
    unfold ts_le, by_timestamp in *. lia.
Qed.

Lemma sort_sorted (l : list Entry) : Sorted ts_le (sort by_timestamp l).
Proof.
  induction l as [|x l IH]; simpl; [constructor|].
  now apply insert_sorted_sorted.
Qed.

Lemma insert_sorted_filter (t : Z) (x : Entry) (l : list Entry) :
  filter (has_ts t) (insert_sorted by_timestamp x l)
  = filter (has_ts t) (x :: l).
Proof.
  induction l as [|y l IH]; [reflexivity|].
  cbn [insert_sorted].
  destruct (Z.leb_spec (by_timestamp x y) 0) as [Hle|Hgt]; [reflexivity|].
  cbn [filter] in *. rewrite IH.
  unfold has_ts, by_timestamp in *.
  destruct (Z.eqb_spec (timestamp_or_zero y) t);
    destruct (Z.eqb_spec (timestamp_or_zero x) t); try reflexivity.
  lia.
Qed.

Lemma sort_stable (t : Z) (l : list Entry) :
  filter (has_ts t) (sort by_timestamp l) = filter (has_ts t) l.
Proof.
  induction l as [|x l IH]; [reflexivity|].
  cbn [sort]. rewrite insert_sorted_filter. cbn [filter]. now rewrite IH.
Qed.

Lemma map_index_text (fmt : Z -> jsstring) (l : list Entry) :
  forall i,
    map payload_text
        (map_index (fun e idx =>
           {| index := idx + 1;
              payload_text := text e;
              payload_type := type e;
              time := match timestamp e with
                      | Some t => if (t =? 0)%Z then None else Some (fmt t)
                      | None => None
                      end |}) i l)
    = map text l
    /\ map index
        (map_index (fun e idx =>
           {| index := idx + 1;
              payload_text := text e;
              payload_type := type e;
              time := match timestamp e with
                      | Some t => if (t =? 0)%Z then None else Some (fmt t)
                      | None => None
                      end |}) i l)
       = seq (i + 1) (length l).
Proof.
  induction l as [|x l IH]; intros i; [split; reflexivity|].
  cbn [map_index map length seq]. destruct (IH (S i)) as [-> ->].
  split; [reflexivity|]. cbn [index]. f_equal.
Qed.

Lemma ts_le_head (x : Entry) (l : list Entry) :
  Sorted ts_le (x :: l) -> Forall (ts_le x) l.
Proof.
  intros H. apply Sorted_StronglySorted in H.
  - now inversion H.
  - intros a b c. unfold ts_le. lia.
Qed.

Lemma filter_head_in (t : Z) (l : list Entry) (z : Entry) (rest : list Entry) :
  filter (has_ts t) l = z :: rest -> In z l /\ timestamp_or_zero z = t.
Proof.
  intros H. assert (I : In z (filter (has_ts t) l)) by (rewrite H; now left).
  apply filter_In in I. destruct I as [I1 I2]. split; [exact I1|].
  unfold has_ts in I2. now apply Z.eqb_eq.
Qed.

Lemma filter_has_ts_cons (t : Z) (x : Entry) (l : list Entry) :
  filter (has_ts t) (x :: l)
  = if (timestamp_or_zero x =? t)%Z then x :: filter (has_ts t) l
    else filter (has_ts t) l.
Proof. reflexivity. Qed.

(** There is only one stable ascending arrangement: whatever algorithm
    the engine runs behind [Array.prototype.sort], its result is the one
    of [sort]. *)
Lemma sorted_stable_unique (a : list Entry) :
  forall b,
    Sorted ts_le a -> Sorted ts_le b ->
    (forall t, filter (has_ts t) a = filter (has_ts t) b) ->
    a = b.
Proof.
  induction a as [|x a IH]; intros [|y b] Sa Sb F.
  - reflexivity.
  - specialize (F (timestamp_or_zero y)).
    rewrite filter_has_ts_cons, Z.eqb_refl in F. discriminate.
  - specialize (F (timestamp_or_zero x)).
    rewrite filter_has_ts_cons, Z.eqb_refl in F. discriminate.
  - assert (Hxy : x = y).
    { pose proof (F (timestamp_or_zero x)) as Fx.
      pose proof (F (timestamp_or_zero y)) as Fy.
      rewrite !filter_has_ts_cons, Z.eqb_refl in Fx, Fy.
      destruct (Z.eqb_spec (timestamp_or_zero y) (timestamp_or_zero x)) as [E|N].
      - now injection Fx.
      - destruct (Z.eqb_spec (timestamp_or_zero x) (timestamp_or_zero y));
          [congruence|].
        symmetry in Fx. apply filter_head_in in Fx. destruct Fx as [Ix _].
        apply filter_head_in in Fy. destruct Fy as [Iy _].
        pose proof (ts_le_head _ _ Sa) as Ha. pose proof (ts_le_head _ _ Sb) as Hb.
        rewrite Forall_forall in Ha, Hb.
        specialize (Ha y Iy). specialize (Hb x Ix). unfold ts_le in *. lia. }
    subst y. f_equal. apply IH.
    + now inversion Sa.
    + now inversion Sb.
    + intros t. specialize (F t). rewrite !filter_has_ts_cons in F.
      destruct (timestamp_or_zero x =? t)%Z; [now injection F|exact F].
Qed.

Lemma sort_unique (entries sorted : list Entry) :
  Sorted ts_le sorted ->
  (forall t, filter (has_ts t) sorted = filter (has_ts t) entries) ->
  sorted = sort by_timestamp entries.
Proof.
  intros S F. apply sorted_stable_unique; [exact S|apply sort_sorted|].
  intros t. now rewrite F, sort_stable.
Qed.

(** C9: before the entries of the diary task are serialized they are
    sorted by timestamp, ascending, an entry without timestamp counting as
    timestamp zero and entries of equal timestamp keeping their input
    order; the payload lists them in that order, numbered from 1.  On
    timestamps 5, 1, 5 the order is the entry of timestamp 1, then the two
    entries of timestamp 5 as they came. *)
Theorem diary_entries_stable_order (fmt : Z -> jsstring) (entries : list Entry) :
  Permutation entries (sort by_timestamp entries)
  /\ Sorted ts_le (sort by_timestamp entries)
  /\ (forall t, filter (has_ts t) (sort by_timestamp entries)
                = filter (has_ts t) entries)
  /\ map payload_text (diary_payload fmt entries)
     = map text (sort by_timestamp entries)
  /\ map index (diary_payload fmt entries) = seq 1 (length entries)
  /\ (forall a b c ty,
        sort by_timestamp
             [ {| text := a; type := ty; timestamp := Some 5%Z |};
               {| text := b; type := ty; timestamp := Some 1%Z |};
               {| text := c; type := ty; timestamp := Some 5%Z |} ]
        = [ {| text := b; type := ty; timestamp := Some 1%Z |};
            {| text := a; type := ty; timestamp := Some 5%Z |};
            {| text := c; type := ty; timestamp := Some 5%Z |} ])
  /\ (forall a b ty,
        sort by_timestamp
             [ {| text := a; type := ty; timestamp := Some 3%Z |};
               {| text := b; type := ty; timestamp := None |} ]
        = [ {| text := b; type := ty; timestamp := None |};
            {| text := a; type := ty; timestamp := Some 3%Z |} ]).
Proof.
  split; [apply sort_perm|].
  split; [apply sort_sorted|].
  split; [intros t; apply sort_stable|].
  unfold diary_payload.
  destruct (map_index_text fmt (sort by_timestamp entries) 0) as [H1 H2].
  split; [exact H1|].
  split.
  - rewrite H2. simpl. f_equal.
    symmetry. apply Permutation_length, sort_perm.
  - split; reflexivity.
Qed.

End EntryOrder.

(** ** Where the continuation of a matcher is called *)

Module MatcherFacts.
Import Gateway.

Lemma orelse_some {A : Type} (a b : option A) (x : A) :
  orelse a b = Some x -> a = Some x \/ b = Some x.
Proof. destruct a; simpl; auto. Qed.

Lemma star_greedy_from_k (p : jschar -> bool) (k : cont) (s : jsstring) :
  forall pos cap a,
    star_greedy p k pos s cap = Some a ->
    exists pos' s', k pos' s' cap = Some a.
Proof.
  induction s as [|c s IH]; intros pos cap a; simpl; [eauto|].
  destruct (p c); [|eauto].
  intros H. apply orelse_some in H. destruct H as [H|H]; eauto.
Qed.

Lemma star_lazy_from_k (p : jschar -> bool) (k : cont) (s : jsstring) :
  forall pos cap a,
    star_lazy p k pos s cap = Some a ->
    exists pos' s', k pos' s' cap = Some a.
Proof.
  induction s as [|c s IH]; intros pos cap a; simpl; [eauto|].
  intros H. apply orelse_some in H. destruct H as [H|H]; [eauto|].
  destruct (p c); [eauto|discriminate].
Qed.

(** A successful match ends in a successful call of the continuation, and
    on the way group 1 is either left alone or set. *)
Lemma rmatch_from_k (r : regex) :
  forall k pos s cap a,
    rmatch r k pos s cap = Some a ->
    exists pos' s' cap',
      k pos' s' cap' = Some a /\ (cap' = cap \/ exists g, cap' = Some g).
Proof.
  induction r as [c|p|r1 IH1 r2 IH2|r1 IH1 r2 IH2|r1 IH1|p|p|p|r1 IH1|r1 IH1| | | ];
    intros k pos s cap a; cbn [rmatch].
  - destruct s as [|x s]; [discriminate|]. destruct (x =? c)%N; [|discriminate].
    eauto 6.
  - destruct s as [|x s]; [discriminate|]. destruct (p x); [|discriminate].
    eauto 6.
  - intros H. apply IH1 in H. destruct H as [p1 [s1 [c1 [H Hc1]]]].
    apply IH2 in H. destruct H as [p2 [s2 [c2 [H Hc2]]]].
    exists p2, s2, c2. split; [exact H|].
    destruct Hc2 as [->|Hg]; auto.
  - intros H. apply orelse_some in H. destruct H as [H|H]; eauto.
  - intros H. apply orelse_some in H. destruct H as [H|H]; [|eauto 6].
    apply IH1 in H. destruct H as [p1 [s1 [c1 [H Hc1]]]].
    destruct (Nat.eqb p1 pos); [discriminate|]. eauto 6.
  - intros H. apply star_greedy_from_k in H. destruct H as [p1 [s1 H]]. eauto 6.
  - intros H. apply star_lazy_from_k in H. destruct H as [p1 [s1 H]]. eauto 6.
  - destruct s as [|x s]; [discriminate|]. destruct (p x); [|discriminate].
    intros H. apply star_greedy_from_k in H. destruct H as [p1 [s1 H]]. eauto 6.
  - intros H. apply IH1 in H. destruct H as [p1 [s1 [c1 [H _]]]].
    exists p1, s1. eexists. split; [exact H|]. right. eauto.
  - destruct (rmatch r1 accept pos s cap) as [[e c1]|] eqn:E; [|discriminate].
    apply IH1 in E. destruct E as [p1 [s1 [c2 [E Hc]]]].
    unfold accept in E. injection E as _ <-.
    intros H. eauto 6.
  - destruct (Nat.eqb pos 0); [|discriminate]. eauto 6.
  - destruct s; [|discriminate]. eauto 6.
  - eauto 6.
Qed.

Lemma sets_group_group (r : regex) : sets_group (RGroup r).
Proof.
  intros k pos s cap a H. cbn [rmatch] in H.
  apply rmatch_from_k in H. destruct H as [p1 [s1 [c1 [H _]]]]. eauto.
Qed.

Lemma sets_group_seq_r (r1 r2 : regex) : sets_group r2 -> sets_group (RSeq r1 r2).
Proof.
  intros H2 k pos s cap a H. cbn [rmatch] in H.
  apply rmatch_from_k in H. destruct H as [p1 [s1 [c1 [H _]]]].
  now apply H2 in H.
Qed.

Lemma sets_group_seq_l (r1 r2 : regex) : sets_group r1 -> sets_group (RSeq r1 r2).
Proof.
  intros H1 k pos s cap a H. cbn [rmatch] in H.
  apply H1 in H. destruct H as [p1 [s1 [g H]]].
  apply rmatch_from_k in H. destruct H as [p2 [s2 [c2 [H Hc]]]].
  destruct Hc as [->|[g' ->]]; eauto.
Qed.

Lemma exec_from_group (r : regex) (s : jsstring) :
  sets_group r ->
  forall pos m, exec_from r pos s = Some m -> exists g, m_group1 m = Some g.
Proof.
  intros Hr. induction s as [|c s IH]; intros pos m; cbn [exec_from].
  - destruct (rmatch r accept pos [] None) as [[e cap]|] eqn:E; [|discriminate].
    apply Hr in E. destruct E as [p1 [s1 [g E]]]. unfold accept in E.
    injection E as _ <-. intros H. injection H as <-. simpl. eauto.
  - destruct (rmatch r accept pos (c :: s) None) as [[e cap]|] eqn:E.
    + apply Hr in E. destruct E as [p1 [s1 [g E]]]. unfold accept in E.
      injection E as _ <-. intros H. injection H as <-. simpl. eauto.
    + apply IH.
Qed.

Lemma re_diary_sets_group : sets_group re_diary.
Proof.
  unfold re_diary. do 3 apply sets_group_seq_r.
  apply sets_group_seq_l, sets_group_group.
Qed.

Lemma re_points_sets_group : sets_group re_points.
Proof.
  unfold re_points. do 3 apply sets_group_seq_r.
  apply sets_group_seq_l, sets_group_group.
Qed.

Lemma re_insights_sets_group : sets_group re_insights.
Proof.
  unfold re_insights. do 3 apply sets_group_seq_r. apply sets_group_group.
Qed.

(** The [catch] block of the diary handler never throws. *)
Lemma diary_catch_total (raw : jsstring) (parsed : parsed_fields) :
  exists p, diary_catch raw parsed = Some p.
Proof.
  unfold diary_catch, group1_trim.
  destruct (exec re_diary raw) as [m1|] eqn:E1.
  - destruct (@exec_from_group re_diary raw re_diary_sets_group 0 _ E1) as [g1 ->].
    destruct (exec re_points raw) as [m2|] eqn:E2.
    + destruct (@exec_from_group re_points raw re_points_sets_group 0 _ E2) as [g2 ->].
      destruct (exec re_insights raw) as [m3|] eqn:E3; [|eauto].
      destruct (@exec_from_group re_insights raw re_insights_sets_group 0 _ E3) as [g3 ->]. eauto.
    + destruct (exec re_insights raw) as [m3|] eqn:E3; [|eauto].
      destruct (@exec_from_group re_insights raw re_insights_sets_group 0 _ E3) as [g3 ->]. eauto.
  - destruct (exec re_points raw) as [m2|] eqn:E2.
    + destruct (@exec_from_group re_points raw re_points_sets_group 0 _ E2) as [g2 ->].
      destruct (exec re_insights raw) as [m3|] eqn:E3; [|eauto].
      destruct (@exec_from_group re_insights raw re_insights_sets_group 0 _ E3) as [g3 ->]. eauto.
    + destruct (exec re_insights raw) as [m3|] eqn:E3; [|eauto].
      destruct (@exec_from_group re_insights raw re_insights_sets_group 0 _ E3) as [g3 ->]. eauto.
Qed.

End MatcherFacts.

(** ** The span from the first opening to the last closing brace *)

Module SpanFacts.
Import Gateway.

Lemma star_close_none (s : jsstring) :
  ~ In 125%N s ->
  forall pos cap,
    star_greedy any_char (rmatch (RChar 125%N) accept) pos s cap = None.
Proof.
  induction s as [|c s IH]; intros Hn pos cap; [reflexivity|].
  cbn [star_greedy any_char]. rewrite IH by (intros H; apply Hn; now right).
  cbn [orelse rmatch]. destruct (N.eqb_spec c 125) as [->|_]; [|reflexivity].
  exfalso. apply Hn. now left.
Qed.

Lemma star_close_last (body rest : jsstring) :
  ~ In 125%N rest ->
  forall pos cap,
    star_greedy any_char (rmatch (RChar 125%N) accept) pos
                (body ++ 125%N :: rest) cap
    = Some (pos + length body + 1, cap).
Proof.
  intros Hn. induction body as [|c b IH]; intros pos cap.
  - cbn [app star_greedy any_char]. rewrite (star_close_none rest Hn).
    cbn. unfold accept. f_equal. f_equal. lia.
  - cbn [app star_greedy any_char]. rewrite IH. cbn. f_equal. f_equal. lia.
Qed.

Lemma star_close_some (s : jsstring) :
  In 125%N s ->
  forall pos cap,
    exists e, star_greedy any_char (rmatch (RChar 125%N) accept) pos s cap
              = Some (e, cap).
Proof.
  induction s as [|c s IH]; intros Hin pos cap; [contradiction|].
  cbn [star_greedy any_char].
  destruct (in_dec N.eq_dec 125%N s) as [Hs|Hs].
  - destruct (IH Hs (S pos) cap) as [e ->]. cbn. eauto.
  - rewrite (star_close_none s Hs). cbn [orelse rmatch].
    destruct Hin as [->|Hin]; [|contradiction].
    cbn. unfold accept. eauto.
Qed.

Lemma span_at_open (pos : nat) (s : jsstring) :
  rmatch re_json_span accept pos (123%N :: s) None
  = star_greedy any_char (rmatch (RChar 125%N) accept) (S pos) s None.
Proof. reflexivity. Qed.

Lemma span_at_other (pos : nat) (c : jschar) (s : jsstring) :
  c <> 123%N -> rmatch re_json_span accept pos (c :: s) None = None.
Proof.
  intros H. cbn [re_json_span rmatch].
  destruct (N.eqb_spec c 123); [contradiction|reflexivity].
Qed.

Lemma exec_from_span_no_close (s : jsstring) :
  ~ In 125%N s -> forall pos, exec_from re_json_span pos s = None.
Proof.
  induction s as [|c s IH]; intros Hn pos; [reflexivity|].
  assert (Hs : ~ In 125%N s) by (intros H; apply Hn; now right).
  cbn [exec_from].
  destruct (N.eq_dec c 123) as [->|Hc].
  - rewrite span_at_open, (star_close_none s Hs). now apply IH.
  - rewrite (span_at_other _ _ _ Hc). now apply IH.
Qed.

Lemma exec_from_span_no_open (s : jsstring) :
  ~ In 123%N s -> forall pos, exec_from re_json_span pos s = None.
Proof.
  induction s as [|c s IH]; intros Hn pos; [reflexivity|].
  cbn [exec_from]. rewrite span_at_other.
  - apply IH. intros H. apply Hn. now right.
  - intros ->. apply Hn. now left.
Qed.

(** The expression finds a span exactly in the texts that have one. *)
Lemma exec_span_iff (raw : jsstring) :
  has_span raw <-> exists m, exec re_json_span raw = Some m.
Proof.
  unfold exec. generalize 0 as pos. split.
  - intros [a [b [c ->]]]. revert pos.
    induction a as [|x a IH]; intros pos.
    + cbn [app exec_from]. rewrite span_at_open.
      destruct (star_close_some (b ++ 125%N :: c)
                  (in_elt _ _ _) (S pos) None) as [e ->]. eauto.
    + cbn [app exec_from].
      destruct (rmatch re_json_span accept pos _ None) as [[e cap]|]; eauto.
  - revert pos. induction raw as [|x s IH]; intros pos [m H].
    + discriminate.
    + cbn [exec_from] in H.
      destruct (N.eq_dec x 123) as [->|Hx].
      * rewrite span_at_open in H.
        destruct (in_dec N.eq_dec 125%N s) as [Hs|Hs].
        -- apply in_split in Hs. destruct Hs as [b [c ->]].
           exists [], b, c. reflexivity.
        -- rewrite (star_close_none s Hs) in H.
           destruct (IH (S pos) (ex_intro _ m H)) as [a [b [c ->]]].
           exists (123%N :: a), b, c. reflexivity.
      * rewrite (span_at_other _ _ _ Hx) in H.
        destruct (IH (S pos) (ex_intro _ m H)) as [a [b [c ->]]].
        exists (x :: a), b, c. reflexivity.
Qed.

Lemma exec_span_none (raw : jsstring) :
  ~ has_span raw -> exec re_json_span raw = None.
Proof.
  intros H. destruct (exec re_json_span raw) as [m|] eqn:E; [|reflexivity].
  exfalso. apply H. apply exec_span_iff. eauto.
Qed.

(** A text that opens with a brace and closes with one is its own span. *)
Lemma exec_span_whole (body : jsstring) :
  exists m,
    exec re_json_span (123%N :: body ++ [125%N]) = Some m
    /\ matched (123%N :: body ++ [125%N]) m = 123%N :: body ++ [125%N].
Proof.
  unfold exec. cbn [exec_from]. rewrite span_at_open.
  rewrite (star_close_last body [] (fun H => H)).
  eexists. split; [reflexivity|].
  unfold matched. cbn [m_index m_end skipn].
  replace (1 + length body + 1 - 0) with (length (123%N :: body ++ [125%N])).
  - apply firstn_all.
  - cbn [length]. rewrite length_app. simpl. lia.
Qed.

Lemma star_close_after (t : jsstring) :
  forall q e cap cap',
    star_greedy any_char (rmatch (RChar 125%N) accept) q t cap = Some (e, cap') ->
    q < e.
Proof.
  induction t as [|y t IHt]; intros q e cap cap'; [discriminate|].
  cbn [star_greedy any_char]. intros H.
  apply MatcherFacts.orelse_some in H. destruct H as [H|H].
  - apply IHt in H. lia.
  - cbn [rmatch] in H. destruct (y =? 125)%N; [|discriminate].
    unfold accept in H. injection H as <- _. lia.
Qed.

Lemma exec_from_span_index (s : jsstring) :
  forall pos m,
    exec_from re_json_span pos s = Some m ->
    pos <= m_index m /\ m_index m < m_end m
    /\ nth_error s (m_index m - pos) = Some 123%N.
Proof.
  induction s as [|x s IH]; intros pos m H; [discriminate|].
  cbn [exec_from] in H.
  destruct (rmatch re_json_span accept pos (x :: s) None) as [[e cap]|] eqn:E.
  - injection H as <-. cbn [m_index m_end].
    destruct (N.eq_dec x 123) as [->|Hx].
    + rewrite span_at_open in E. apply star_close_after in E.
      rewrite Nat.sub_diag. repeat split; try lia.
    + now rewrite (span_at_other _ _ _ Hx) in E.
  - apply IH in H. destruct H as [H1 [H2 H3]].
    split; [lia|split; [exact H2|]].
    replace (m_index m - pos) with (S (m_index m - S pos)) by lia.
    exact H3.
Qed.

(** The span always opens with a brace. *)
Lemma matched_span_open (raw : jsstring) (m : rmatch_result) :
  exec re_json_span raw = Some m ->
  exists rest, matched raw m = 123%N :: rest.
Proof.
  unfold exec. intros H. apply exec_from_span_index in H.
  destruct H as [_ [H2 H3]].
  rewrite Nat.sub_0_r in H3. unfold matched.
  apply nth_error_split in H3. destruct H3 as [l1 [l2 [-> Hl]]].
  rewrite <- Hl, skipn_app, Nat.sub_diag, skipn_all. cbn [app skipn].
  destruct (m_end m - length l1) as [|n] eqn:En; [lia|].
  cbn [firstn]. eauto.
Qed.

End SpanFacts.

(** ** [JSON.parse] after [JSON.stringify] *)

Module JsonFacts.

Lemma hexval_hexdigit (d : N) : (d < 16)%N -> hexval (hexdigit d) = Some d.
Proof.
  intros H.
  assert (E : (d = 0 \/ d = 1 \/ d = 2 \/ d = 3 \/ d = 4 \/ d = 5 \/ d = 6
               \/ d = 7 \/ d = 8 \/ d = 9 \/ d = 10 \/ d = 11 \/ d = 12
               \/ d = 13 \/ d = 14 \/ d = 15)%N) by lia.
  repeat (destruct E as [->|E]; [reflexivity|]). now subst.
Qed.

Lemma hex4_digits (c : jschar) :
  wf_char c ->
  hex4 (hexdigit (c / 4096)) (hexdigit ((c / 256) mod 16))
       (hexdigit ((c / 16) mod 16)) (hexdigit (c mod 16)) = Some c.
Proof.
  unfold wf_char, hex4. intros H.
  rewrite !hexval_hexdigit.
  - f_equal.
    pose proof (N.div_mod c 4096). pose proof (N.div_mod c 256).
    pose proof (N.div_mod c 16).
    pose proof (N.div_mod (c / 256) 16). pose proof (N.div_mod (c / 16) 16).
    assert (c / 256 / 16 = c / 4096)%N by (rewrite N.Div0.div_div; reflexivity).
    assert (c / 16 / 16 = c / 256)%N by (rewrite N.Div0.div_div; reflexivity).
    pose proof (N.mod_lt c 16). pose proof (N.mod_lt c 256).
    pose proof (N.mod_lt c 4096).
    lia.
  - apply N.mod_lt. discriminate.
  - apply N.mod_lt. discriminate.
  - apply N.mod_lt. discriminate.
  - apply N.Div0.div_lt_upper_bound. exact H.
Qed.

Lemma parse_unicode_escape (c : jschar) (t : jsstring) :
  wf_char c ->
  parse_string (unicode_escape c ++ t) = cons_fst c (parse_string t).
Proof.
  intros H. unfold unicode_escape. cbn [app parse_string N.eqb Pos.eqb].
  now rewrite (hex4_digits c H).
Qed.

Lemma parse_plain (c : jschar) (t : jsstring) :
  (32 <= c)%N -> c <> 34%N -> c <> 92%N ->
  parse_string (c :: t) = cons_fst c (parse_string t).
Proof.
  intros H1 H2 H3. cbn [parse_string].
  destruct (N.eqb_spec c 34); [contradiction|].
  destruct (N.eqb_spec c 92); [contradiction|].
  destruct (N.ltb_spec c 32); [lia|reflexivity].
Qed.

Lemma parse_quote_unit (c : jschar) (t : jsstring) :
  wf_char c ->
  parse_string (quote_unit c ++ t) = cons_fst c (parse_string t).
Proof.
  intros H. unfold quote_unit.
  destruct (N.eqb_spec c 8) as [->|H8]; [reflexivity|].
  destruct (N.eqb_spec c 9) as [->|H9]; [reflexivity|].
  destruct (N.eqb_spec c 10) as [->|H10]; [reflexivity|].
  destruct (N.eqb_spec c 12) as [->|H12]; [reflexivity|].
  destruct (N.eqb_spec c 13) as [->|H13]; [reflexivity|].
  destruct (N.eqb_spec c 34) as [->|H34]; [reflexivity|].
  destruct (N.eqb_spec c 92) as [->|H92]; [reflexivity|].
  destruct (N.ltb_spec c 32) as [Hlt|Hge].
  - now apply parse_unicode_escape.
  - cbn [orb].
    destruct (is_high_surrogate c || is_low_surrogate c).
    + now apply parse_unicode_escape.
    + now apply parse_plain.
Qed.

Lemma high_surrogate_plain (c : jschar) :
  is_high_surrogate c = true -> (32 <= c)%N /\ c <> 34%N /\ c <> 92%N.
Proof.
  unfold is_high_surrogate. intros H. apply andb_prop in H.
  destruct H as [H _]. apply N.leb_le in H. lia.
Qed.

Lemma low_surrogate_plain (c : jschar) :
  is_low_surrogate c = true -> (32 <= c)%N /\ c <> 34%N /\ c <> 92%N.
Proof.
  unfold is_low_surrogate. intros H. apply andb_prop in H.
  destruct H as [H _]. apply N.leb_le in H. lia.
Qed.

Lemma parse_quote_body_bounded (n : nat) :
  forall s rest,
    length s <= n -> wf_string s ->
    parse_string (quote_body s ++ 34%N :: rest) = Some (s, rest).
Proof.
  induction n as [|n IH]; intros s rest Hlen Hwf.
  - destruct s; [reflexivity|simpl in Hlen; lia].
  - destruct s as [|c s1]; [reflexivity|].
    inversion Hwf as [|? ? Hc Hs1]; subst.
    assert (Step : parse_string ((quote_unit c ++ quote_body s1) ++ 34%N :: rest)
                   = Some (c :: s1, rest)).
    { rewrite <- app_assoc, (parse_quote_unit c _ Hc), IH; auto.
      simpl in Hlen. lia. }
    cbn [quote_body].
    destruct (is_high_surrogate c) eqn:Eh; [|exact Step].
    destruct s1 as [|d s2].
    + rewrite app_nil_r in Step. exact Step.
    + destruct (is_low_surrogate d) eqn:El; [|exact Step].
      inversion Hs1 as [|? ? Hd Hs2]; subst.
      destruct (high_surrogate_plain c Eh) as [A1 [A2 A3]].
      destruct (low_surrogate_plain d El) as [B1 [B2 B3]].
      cbn [app]. rewrite (parse_plain c _ A1 A2 A3), (parse_plain d _ B1 B2 B3).
      rewrite IH; auto. simpl in Hlen. lia.
Qed.

(** Reading back a quoted string gives the string. *)
Lemma parse_quote_body (s rest : jsstring) :
  wf_string s ->
  parse_string (quote_body s ++ 34%N :: rest) = Some (s, rest).
Proof. apply (parse_quote_body_bounded (length s)). lia. Qed.

Lemma stringify_members_cons (k v : jsstring)
      (l : list (jsstring * jsstring)) (t : jsstring) :
  stringify_members ((k, v) :: l) ++ t
  = 34%N :: quote_body k ++ 34%N :: 58%N :: 34%N :: quote_body v ++ 34%N ::
      match l with
      | [] => t
      | _ :: _ => 44%N :: stringify_members l ++ t
      end.
Proof.
  destruct l as [|kv l]; cbn [stringify_members]; unfold quote;
    cbn [app]; repeat (rewrite <- app_assoc; cbn [app]); reflexivity.
Qed.

Lemma parse_quoted_value (fuel : nat) (v rest : jsstring) :
  wf_string v ->
  parse_value (S fuel) (34%N :: quote_body v ++ 34%N :: rest)
  = POk (JStr v) rest.
Proof.
  intros H. cbn [parse_value N.eqb Pos.eqb].
  now rewrite (parse_quote_body v rest H).
Qed.

Lemma parse_member_step (fuel : nat) (k v : jsstring) (d : jschar) (t : jsstring) :
  wf_string k -> wf_string v ->
  parse_members (S (S fuel))
    (34%N :: quote_body k ++ 34%N :: 58%N :: 34%N :: quote_body v ++ 34%N :: d :: t)
  = if (d =? 44)%N then
      match parse_members (S fuel) t with
      | POk ms r => POk ((k, JStr v) :: ms) r
      | PErr => PErr
      | PFuel => PFuel
      end
    else if (d =? 125)%N then POk [(k, JStr v)] t
    else if is_json_ws d then
      match skip_ws t with
      | [] => PErr
      | d' :: t' =>
          if (d' =? 44)%N then
            match parse_members (S fuel) t' with
            | POk ms r => POk ((k, JStr v) :: ms) r
            | PErr => PErr
            | PFuel => PFuel
            end
          else if (d' =? 125)%N then POk [(k, JStr v)] t'
          else PErr
      end
    else PErr.
Proof.
  intros Hk Hv.
  change (parse_members (S (S fuel)) ?s)
    with (match skip_ws s with
          | [] => PErr
          | q :: s1 =>
              if (q =? 34)%N then
                match parse_string s1 with
                | None => PErr
                | Some (key, s2) =>
                    match skip_ws s2 with
                    | [] => PErr
                    | c :: s3 =>
                        if (c =? 58)%N then
                          match parse_value (S fuel) (skip_ws s3) with
                          | POk v0 r =>
                              match skip_ws r with
                              | [] => PErr
                              | d0 :: r1 =>
                                  if (d0 =? 44)%N then
                                    match parse_members (S fuel) r1 with
                                    | POk ms r2 => POk ((key, v0) :: ms) r2
                                    | PErr => PErr
                                    | PFuel => PFuel
                                    end
                                  else if (d0 =? 125)%N then POk [(key, v0)] r1
                                  else PErr
                              end
                          | PErr => PErr
                          | PFuel => PFuel
                          end
                        else PErr
                    end
                end
              else PErr
          end).
  cbn [skip_ws is_json_ws N.eqb Pos.eqb orb].
  rewrite (parse_quote_body k _ Hk).
  cbn [skip_ws is_json_ws N.eqb Pos.eqb orb].
  rewrite (parse_quoted_value fuel v _ Hv).
  cbn [skip_ws].
  destruct (is_json_ws d) eqn:Ews.
  - assert (N44 : (d =? 44)%N = false).
    { unfold is_json_ws in Ews.
      destruct (N.eqb_spec d 44) as [->|]; [discriminate|reflexivity]. }
    assert (N125 : (d =? 125)%N = false).
    { unfold is_json_ws in Ews.
      destruct (N.eqb_spec d 125) as [->|]; [discriminate|reflexivity]. }
    rewrite N44, N125. reflexivity.
  - destruct (d =? 44)%N; [reflexivity|].
    destruct (d =? 125)%N; reflexivity.
Qed.

Lemma parse_members_stringify (kvs : list (jsstring * jsstring)) :
  kvs <> [] -> wf_fields kvs ->
  forall fuel rest,
    length kvs < fuel ->
    parse_members fuel (stringify_members kvs ++ 125%N :: rest)
    = POk (as_json_fields kvs) rest.
Proof.
  induction kvs as [|[k v] l IH]; intros Hne Hwf fuel rest Hfuel;
    [contradiction|].
  inversion Hwf as [|? ? [Hk Hv] Hl]; subst. cbn [fst snd] in Hk, Hv.
  rewrite stringify_members_cons.
  destruct fuel as [|[|fuel]]; cbn [length] in Hfuel; try lia.
  destruct l as [|kv2 l'].
  - rewrite (parse_member_step fuel k v _ _ Hk Hv). reflexivity.
  - rewrite (parse_member_step fuel k v _ _ Hk Hv).
    cbn [N.eqb Pos.eqb].
    rewrite IH; [reflexivity|discriminate|exact Hl|cbn [length] in *; lia].
Qed.

Lemma stringify_members_length (kvs : list (jsstring * jsstring)) :
  length kvs <= length (stringify_members kvs).
Proof.
  induction kvs as [|[k v] l IH]; [apply Nat.le_refl|].
  pose proof (stringify_members_cons k v l []) as E.
  rewrite app_nil_r in E. rewrite E. clear E.
  cbn [length]. rewrite !length_app. cbn [length]. rewrite !length_app.
  destruct l as [|kv l']; cbn [length] in *; [lia|].
  rewrite app_nil_r. cbn [length] in IH. lia.
Qed.

(** [JSON.parse(JSON.stringify(o))] for an object [o] of strings. *)
Lemma parse_stringify_object (kvs : list (jsstring * jsstring)) :
  wf_fields kvs ->
  JSON_parse (stringify_object kvs) = Some (JObj (as_json_fields kvs)).
Proof.
  intros Hwf. unfold JSON_parse, stringify_object, parse_fuel.
  cbn [skip_ws is_json_ws N.eqb Pos.eqb orb].
  destruct kvs as [|[k v] l].
  - reflexivity.
  - remember ((k, v) :: l) as kvs eqn:Ekvs.
    assert (Hne : kvs <> []) by (subst; discriminate).
    assert (Hlen : length kvs < 2 * length (123%N :: stringify_members kvs ++ [125%N])).
    { pose proof (stringify_members_length kvs).
      cbn [length]. rewrite length_app. cbn [length].
      assert (1 <= length kvs) by (subst; cbn [length]; lia). lia. }
    cbn [parse_value N.eqb Pos.eqb].
    pose proof (stringify_members_cons k v l [125%N]) as E.
    rewrite <- Ekvs in E. rewrite E at 1. cbn [skip_ws is_json_ws N.eqb Pos.eqb orb].
    match goal with
    | |- context [parse_members ?f _] =>
        rewrite (parse_members_stringify kvs Hne Hwf f [] Hlen)
    end.
    reflexivity.
Qed.

(** *** The parser's budget is never exhausted *)

Ltac break_match_hyp H :=
  match type of H with
  | context [match ?x with _ => _ end] => destruct x eqn:?
  | context [if ?x then _ else _] => destruct x eqn:?
  end.

Ltac break_any :=
  match goal with
  | H : context [match ?x with _ => _ end] |- _ => destruct x eqn:?
  | H : context [if ?x then _ else _] |- _ => destruct x eqn:?
  end.

Lemma skip_ws_length (s : jsstring) : length (skip_ws s) <= length s.
Proof.
  induction s as [|c s IH]; simpl; [lia|].
  destruct (is_json_ws c); simpl; lia.
Qed.

Lemma skip_ws_cons_length (s : jsstring) (c : jschar) (t : jsstring) :
  skip_ws s = c :: t -> length t < length s.
Proof.
  intros H. pose proof (skip_ws_length s) as L. rewrite H in L. simpl in L. lia.
Qed.

Lemma cons_fst_some (c : jschar) (r : option (jsstring * jsstring))
      (str rest : jsstring) :
  cons_fst c r = Some (str, rest) ->
  exists str', r = Some (str', rest).
Proof.
  destruct r as [[a b]|]; simpl; [|discriminate].
  intros H. injection H as _ <-. eauto.
Qed.

Lemma parse_string_length_bounded (n : nat) :
  forall s str rest,
    length s <= n ->
    parse_string s = Some (str, rest) -> length rest < length s.
Proof.
  induction n as [|n IH]; intros s str rest Hlen H.
  - destruct s; [discriminate|simpl in Hlen; lia].
  - destruct s as [|c s1]; [discriminate|]. cbn [parse_string] in H.
    cbn [length] in *.
    destruct (c =? 34)%N.
    { injection H as _ <-. lia. }
    destruct (c =? 92)%N.
    + destruct s1 as [|e s2]; [discriminate|]. cbn [length] in *.
      destruct (e =? 117)%N.
      * destruct s2 as [|h1 [|h2 [|h3 [|h4 s3]]]]; try discriminate.
        destruct (hex4 h1 h2 h3 h4); [|discriminate].
        apply cons_fst_some in H. destruct H as [str' H].
        apply IH in H; cbn [length] in *; lia.
      * destruct (unescape e); [|discriminate].
        apply cons_fst_some in H. destruct H as [str' H].
        apply IH in H; lia.
    + destruct (c <? 32)%N; [discriminate|].
      apply cons_fst_some in H. destruct H as [str' H].
      apply IH in H; lia.
Qed.

Lemma parse_string_length (s str rest : jsstring) :
  parse_string s = Some (str, rest) -> length rest < length s.
Proof. apply (parse_string_length_bounded (length s)). lia. Qed.

Lemma strip_prefix_length (w : jsstring) :
  forall s r, strip_prefix w s = Some r -> length r <= length s.
Proof.
  induction w as [|a w IH]; intros s r; simpl.
  - intros H. injection H as <-. lia.
  - destruct s as [|b s]; [discriminate|].
    destruct (a =? b)%N; [|discriminate].
    intros H. apply IH in H. simpl. lia.
Qed.

Lemma digits_length (s : jsstring) :
  forall acc n a m r, digits acc n s = (a, m, r) -> length r <= length s.
Proof.
  induction s as [|c s IH]; intros acc n a m r; simpl.
  - intros H. injection H as _ _ <-. simpl. lia.
  - destruct (is_digit c).
    + intros H. apply IH in H. lia.
    + intros H. injection H as _ _ <-. simpl. lia.
Qed.

Lemma parse_number_length (s : jsstring) (n : jnum) (r : jsstring) :
  parse_number s = Some (n, r) -> length r <= length s.
Proof.
  unfold parse_number. intros H.
  repeat (break_any; try discriminate);
    repeat match goal with
           | E : (_, _) = (_, _) |- _ => inversion E; clear E; subst
           | E : Some _ = Some _ |- _ => inversion E; clear E; subst
           | E : digits _ _ _ = _ |- _ => apply digits_length in E
           end;
    cbn [length] in *; lia.
Qed.

Lemma parse_value_length (fuel : nat) :
  (forall s v r, parse_value fuel s = POk v r -> length r <= length s)
  /\ (forall s v r, parse_elements fuel s = POk v r -> length r <= length s)
  /\ (forall s v r, parse_members fuel s = POk v r -> length r <= length s).
Proof.
  induction fuel as [|f [IHv [IHe IHm]]];
    [repeat split; intros; discriminate|].
  repeat split; intros s v r H.
  - cbn [parse_value] in H.
    destruct s as [|c s1]; [discriminate|]. cbn [length].
    repeat (break_match_hyp H; try discriminate);
      repeat match goal with
             | E : POk _ _ = POk _ _ |- _ => injection E as ? ?; subst
             | E : parse_members f _ = POk _ _ |- _ => apply IHm in E
             | E : parse_elements f _ = POk _ _ |- _ => apply IHe in E
             | E : parse_string _ = Some _ |- _ => apply parse_string_length in E
             | E : strip_prefix _ _ = Some _ |- _ => apply strip_prefix_length in E
             | E : parse_number _ = Some _ |- _ => apply parse_number_length in E
             | E : skip_ws _ = _ :: _ |- _ => apply skip_ws_cons_length in E
             end;
      cbn [length] in *; lia.
  - cbn [parse_elements] in H.
    pose proof (skip_ws_length s).
    repeat (break_match_hyp H; try discriminate);
      repeat match goal with
             | E : POk _ _ = POk _ _ |- _ => injection E as ? ?; subst
             | E : parse_value f _ = POk _ _ |- _ => apply IHv in E
             | E : parse_elements f _ = POk _ _ |- _ => apply IHe in E
             | E : skip_ws _ = _ :: _ |- _ => apply skip_ws_cons_length in E
             end;
      cbn [length] in *; lia.
  - cbn [parse_members] in H.
    repeat (break_match_hyp H; try discriminate);
      repeat match goal with
             | E : POk _ _ = POk _ _ |- _ => injection E as ? ?; subst
             | E : parse_value f (skip_ws ?x) = POk _ _ |- _ =>
                 pose proof (skip_ws_length x); apply IHv in E
             | E : parse_members f _ = POk _ _ |- _ => apply IHm in E
             | E : parse_string _ = Some _ |- _ => apply parse_string_length in E
             | E : skip_ws _ = _ :: _ |- _ => apply skip_ws_cons_length in E
             end;
      cbn [length] in *; lia.
Qed.

Lemma parse_value_fuel (fuel : nat) :
  (forall s, 2 * length s < fuel -> parse_value fuel s <> PFuel)
  /\ (forall s, 2 * length s + 1 < fuel -> parse_elements fuel s <> PFuel)
  /\ (forall s, 2 * length s + 1 < fuel -> parse_members fuel s <> PFuel).
Proof.
  induction fuel as [|f [IHv [IHe IHm]]]; [repeat split; intros; lia|].
  destruct (parse_value_length f) as [Lv [Le Lm]].
  repeat split; intros s Hlen H.
  - cbn [parse_value] in H.
    destruct s as [|c s1]; [discriminate|]. cbn [length] in Hlen.
    repeat (break_match_hyp H; try discriminate);
      match goal with
      | E : parse_members f _ = PFuel |- _ => apply IHm in E; [exact E|lia]
      | E : parse_elements f _ = PFuel |- _ => apply IHe in E; [exact E|lia]
      end.
  - cbn [parse_elements] in H.
    pose proof (skip_ws_length s).
    repeat (break_match_hyp H; try discriminate);
      repeat match goal with
             | E : parse_value f _ = POk _ _ |- _ => apply Lv in E
             | E : skip_ws _ = _ :: _ |- _ => apply skip_ws_cons_length in E
             end;
      match goal with
      | E : parse_value f _ = PFuel |- _ => apply IHv in E; [exact E|lia]
      | E : parse_elements f _ = PFuel |- _ => apply IHe in E; [exact E|lia]
      end.
  - cbn [parse_members] in H.
    repeat (break_match_hyp H; try discriminate);
      repeat match goal with
             | E : parse_value f (skip_ws ?x) = POk _ _ |- _ =>
                 pose proof (skip_ws_length x); apply Lv in E
             | E : parse_string _ = Some _ |- _ => apply parse_string_length in E
             | E : skip_ws _ = _ :: _ |- _ => apply skip_ws_cons_length in E
             end;
      match goal with
      | E : parse_value f (skip_ws ?x) = PFuel |- _ =>
          pose proof (skip_ws_length x); apply IHv in E;
          [exact E|cbn [length] in *; lia]
      | E : parse_members f _ = PFuel |- _ =>
          apply IHm in E; [exact E|cbn [length] in *; lia]
      end.
Qed.

(** [JSON_parse] answers [None] only on a syntax error. *)
Lemma parse_fuel_enough (s : jsstring) :
  parse_value (parse_fuel s) (skip_ws s) <> PFuel.
Proof.
  apply (proj1 (parse_value_fuel (parse_fuel s))).
  pose proof (skip_ws_length s). unfold parse_fuel. lia.
Qed.

(** A text that opens with a brace can only parse to an object. *)
Lemma parse_open_brace (s : jsstring) (v : json) :
  JSON_parse (123%N :: s) = Some v -> exists l, v = JObj l.
Proof.
  unfold JSON_parse. cbn [skip_ws is_json_ws N.eqb Pos.eqb orb].
  unfold parse_fuel. cbn [parse_value N.eqb Pos.eqb].
  intros H.
  repeat (break_any; try discriminate);
    repeat match goal with
           | E : POk _ _ = POk _ _ |- _ => injection E as ? ?; subst
           | E : Some _ = Some _ |- _ => injection E as ?; subst
           end; eauto.
Qed.

End JsonFacts.

(** ** POST /analysis/diary and POST /analysis/long-term *)

Module StructuredOutput.
Import Gateway.

Lemma or_else_string (s : jsstring) : or_else (Some (JStr s)) (JStr s) = JStr s.
Proof. destruct s; reflexivity. Qed.

Lemma or_else_assign (v : jsval) (default : jsstring) :
  or_else (assign_if v (Some (JStr default))) (JStr default)
  = match v with
    | Some j => if truthy j then j else JStr default
    | None => JStr default
    end.
Proof.
  unfold assign_if. destruct v as [j|]; cbn [truthy_val].
  - destruct (truthy j) eqn:E; cbn [or_else]; [now rewrite E|].
    apply or_else_string.
  - apply or_else_string.
Qed.

(** Without a span the text goes through as the diary. *)
Lemma diary_no_span (raw : jsstring) :
  ~ has_span raw ->
  diary_extract raw
  = Return {| diary := JStr raw; keyPoints := JStr []; insights := JStr [] |}.
Proof.
  intros H. unfold diary_extract.
  rewrite (SpanFacts.exec_span_none raw H).
  cbn [parsed_diary parsed_keyPoints parsed_insights].
  now rewrite or_else_string.
Qed.

(** When the span parses, the fields come from the parsed object. *)
Lemma diary_span_parsed (raw : jsstring) (v : json) :
  span_json raw = Some v ->
  exists l,
    v = JObj l
    /\ diary_extract raw
       = Return {| diary := field_or l (lit "diary") raw;
                   keyPoints := field_or l (lit "keyPoints") [];
                   insights := field_or l (lit "insights") [] |}.
Proof.
  unfold span_json, diary_extract.
  destruct (exec re_json_span raw) as [m|] eqn:E; [|discriminate].
  intros P.
  destruct (SpanFacts.matched_span_open raw m E) as [rest Hopen].
  assert (O : exists l, v = JObj l).
  { rewrite Hopen in P. exact (JsonFacts.parse_open_brace rest v P). }
  destruct O as [l ->]. exists l. split; [reflexivity|].
  unfold diary_try. rewrite P.
  cbn [get_prop parsed_diary parsed_keyPoints parsed_insights].
  rewrite !or_else_assign. reflexivity.
Qed.

(** When there is a span and it does not parse, the fields come from the
    header expressions. *)
Lemma diary_span_failed (raw : jsstring) :
  has_span raw -> span_json raw = None ->
  diary_extract raw
  = Return {| diary := JStr match captured re_diary raw with
                            | Some (c :: t) => c :: t
                            | _ => raw
                            end;
              keyPoints := JStr match captured re_points raw with
                                | Some t => t
                                | None => []
                                end;
              insights := JStr match captured re_insights raw with
                               | Some t => t
                               | None => []
                               end |}.
Proof.
  intros Hs. apply SpanFacts.exec_span_iff in Hs. destruct Hs as [m E].
  unfold span_json, diary_extract, captured. rewrite E. intros P.
  unfold diary_try. rewrite P. unfold diary_catch.
  cbn [parsed_diary parsed_keyPoints parsed_insights].
  assert (G : forall r, sets_group r ->
                        forall m0, exec r raw = Some m0 ->
                                   exists g, group1_trim m0 = Some (trim g)).
  { intros r Hr m0 H0.
    destruct (MatcherFacts.exec_from_group r raw Hr 0 m0 H0) as [g Hg].
    exists g. unfold group1_trim. now rewrite Hg. }
  destruct (exec re_diary raw) as [m1|] eqn:E1;
    [destruct (G _ MatcherFacts.re_diary_sets_group m1 E1) as [g1 ->]|];
    (destruct (exec re_points raw) as [m2|] eqn:E2;
     [destruct (G _ MatcherFacts.re_points_sets_group m2 E2) as [g2 ->]|]);
    (destruct (exec re_insights raw) as [m3|] eqn:E3;
     [destruct (G _ MatcherFacts.re_insights_sets_group m3 E3) as [g3 ->]|]);
    cbn [parsed_diary parsed_keyPoints parsed_insights];
    f_equal; f_equal;
    try (destruct (trim g1); reflexivity);
    try (destruct (trim g2); reflexivity);
    try (destruct (trim g3); reflexivity);
    try (destruct raw; reflexivity).
Qed.

Lemma no_brace_no_span (raw : jsstring) :
  ~ In 123%N raw \/ ~ In 125%N raw -> ~ has_span raw.
Proof.
  intros H [a [b [c ->]]]. destruct H as [H|H]; apply H.
  - apply in_elt.
  - apply in_or_app. right. right. apply in_elt.
Qed.

(** C3: on the text [{"diary":"x"}] the diary task returns diary ["x"]
    with empty key points and insights; and on a text without braces (a
    fortiori on plain prose without section headers) it returns the whole
    text as the diary, with empty key points and insights. *)
Theorem diary_scenarios :
  diary_extract raw_diary_x
  = Return {| diary := JStr (lit "x"); keyPoints := JStr []; insights := JStr [] |}
  /\ (forall raw,
        ~ In 123%N raw -> ~ In 125%N raw ->
        diary_extract raw
        = Return {| diary := JStr raw; keyPoints := JStr []; insights := JStr [] |}).
Proof.
  split; [reflexivity|].
  intros raw H _. apply diary_no_span, no_brace_no_span. now left.
Qed.

Lemma diary_scenarios_witness :
  diary_extract (lit "a quiet day")
  = Return {| diary := JStr (lit "a quiet day");
              keyPoints := JStr []; insights := JStr [] |}.
Proof.
  apply (proj2 diary_scenarios (lit "a quiet day")).
  - intros H. repeat (destruct H as [H|H]; [discriminate|]). exact H.
  - intros H. repeat (destruct H as [H|H]; [discriminate|]). exact H.
Defined.

(** The three ways the diary task can go. *)
Lemma span_cases (raw : jsstring) :
  (exists v, span_json raw = Some v)
  \/ (has_span raw /\ span_json raw = None)
  \/ (~ has_span raw /\ span_json raw = None).
Proof.
  destruct (span_json raw) as [v|] eqn:S; [left; eauto|right].
  destruct (exec re_json_span raw) as [m|] eqn:E.
  - left. split; [|reflexivity]. apply SpanFacts.exec_span_iff. eauto.
  - right. split; [|reflexivity]. intros H.
    apply SpanFacts.exec_span_iff in H. destruct H as [m H]. congruence.
Qed.

(** C5 as the claim states it fails: on the text made of the diary
    heading, a full-width colon and [abc], which has no brace and is not
    JSON, the diary expression would capture [abc], yet the diary returned
    is the whole text. *)
Lemma header_scan_counterexample :
  let raw := (w_diary ++ [65306%N] ++ lit "abc")%list in
  JSON_parse raw = None
  /\ ~ has_span raw
  /\ captured re_diary raw = Some (lit "abc")
  /\ diary_extract raw
     = Return {| diary := JStr raw; keyPoints := JStr []; insights := JStr [] |}
  /\ JStr raw <> JStr (lit "abc").
Proof.
  cbv zeta. split; [reflexivity|]. split.
  - apply no_brace_no_span. left.
    intros H. repeat (destruct H as [H|H]; [discriminate|]). exact H.
  - split; [reflexivity|]. split; [reflexivity|discriminate].
Qed.

(** C5, amended: the header expressions are applied only when the text
    has a span from a first opening brace to a last closing brace and that
    span is not JSON; then the diary is the trimmed capture of the diary
    expression when that is not empty (else the whole text), and the key
    points and insights are the trimmed captures of their expressions
    (else empty).  A text without such a span is returned whole as the
    diary, whatever headings it holds; and when the span parses, the
    fields come from the parsed object alone. *)
Theorem header_scan_after_failed_span (raw : jsstring) :
  (has_span raw -> span_json raw = None ->
     diary_extract raw
     = Return {| diary := JStr match captured re_diary raw with
                               | Some (c :: t) => c :: t
                               | _ => raw
                               end;
                 keyPoints := JStr match captured re_points raw with
                                   | Some t => t
                                   | None => []
                                   end;
                 insights := JStr match captured re_insights raw with
                                  | Some t => t
                                  | None => []
                                  end |})
  /\ (~ has_span raw ->
      diary_extract raw
      = Return {| diary := JStr raw; keyPoints := JStr []; insights := JStr [] |})
  /\ (forall v,
        span_json raw = Some v ->
        exists l,
          v = JObj l
          /\ diary_extract raw
             = Return {| diary := field_or l (lit "diary") raw;
                         keyPoints := field_or l (lit "keyPoints") [];
                         insights := field_or l (lit "insights") [] |}).
Proof.
  split; [apply diary_span_failed|].
  split; [apply diary_no_span|apply diary_span_parsed].
Qed.

Lemma header_scan_after_failed_span_witness :
  let raw := (lit "{" ++ w_diary ++ lit ": abc " ++ w_points ++ lit ":k }")%list in
  diary_extract raw
  = Return {| diary := JStr (lit "abc");
              keyPoints := JStr (lit "k }");
              insights := JStr [] |}.
Proof.
  cbv zeta.
  rewrite (proj1 (header_scan_after_failed_span
                    (lit "{" ++ w_diary ++ lit ": abc " ++ w_points ++ lit ":k }"))).
  - reflexivity.
  - exists [], (w_diary ++ lit ": abc " ++ w_points ++ lit ":k ")%list, [].
    reflexivity.
  - reflexivity.
Defined.

Lemma span_json_stringify (kvs : list (jsstring * jsstring)) :
  wf_fields kvs ->
  span_json (stringify_object kvs) = Some (JObj (as_json_fields kvs)).
Proof.
  intros Hwf. unfold span_json, stringify_object.
  destruct (SpanFacts.exec_span_whole (stringify_members kvs)) as [m [-> ->]].
  exact (JsonFacts.parse_stringify_object kvs Hwf).
Qed.

(** C4 as the claim states it fails: the object with an empty diary and
    key points [a], insights [b] comes back with its whole serialization
    as the diary. *)
Lemma roundtrip_counterexample :
  let raw := stringify_object (diary_object [] (lit "a") (lit "b")) in
  diary_extract raw
  = Return {| diary := JStr raw;
              keyPoints := JStr (lit "a");
              insights := JStr (lit "b") |}
  /\ JStr raw <> JStr [].
Proof.
  cbv zeta. split; [reflexivity|discriminate].
Qed.

Lemma eqb_eq (a b : jsstring) : JsString.eqb a b = true <-> a = b.
Proof.
  revert b. induction a as [|x a IH]; intros [|y b]; cbn [JsString.eqb];
    try (split; [discriminate|discriminate]); [tauto|].
  rewrite andb_true_iff, N.eqb_eq, IH. split.
  - intros [-> ->]. reflexivity.
  - intros E. injection E as -> ->. auto.
Qed.

Lemma lookup_absent (key : jsstring) (kvs : list (jsstring * jsstring)) :
  ~ In key (map fst kvs) -> lookup key (as_json_fields kvs) = None.
Proof.
  induction kvs as [|[k0 v0] l IH]; intros H; [reflexivity|].
  cbn [as_json_fields map lookup fst snd].
  change (map (fun kv => (fst kv, JStr (snd kv))) l) with (as_json_fields l).
  rewrite IH by (intros Hin; apply H; now right).
  destruct (JsString.eqb k0 key) eqn:E; [|reflexivity].
  apply eqb_eq in E. exfalso. apply H. now left.
Qed.

(** An object has each of its keys once, so a property reads back as the
    one value stored under it. *)
Lemma lookup_present (key v : jsstring) (kvs : list (jsstring * jsstring)) :
  NoDup (map fst kvs) -> In (key, v) kvs ->
  lookup key (as_json_fields kvs) = Some (JStr v).
Proof.
  induction kvs as [|[k0 v0] l IH]; intros Hnd Hin; [contradiction|].
  cbn [as_json_fields map lookup fst snd].
  change (map (fun kv => (fst kv, JStr (snd kv))) l) with (as_json_fields l).
  cbn [map fst] in Hnd. inversion Hnd as [|? ? Hk Hl]; subst.
  destruct Hin as [E|Hin].
  - injection E as -> ->. rewrite (lookup_absent key l Hk).
    now rewrite (proj2 (eqb_eq key key) eq_refl).
  - now rewrite (IH Hl Hin).
Qed.

(** C4, amended: for every object of the diary shape whose diary is not
    the empty string, whatever the order of its three properties,
    extraction on the exact serialization recovers all three fields
    unchanged (key points and insights also when empty); when the diary is
    the empty string the whole serialization is returned as the diary, the
    other two fields being recovered all the same. *)
Theorem diary_roundtrip (d k i : jsstring) (fields : list (jsstring * jsstring)) :
  wf_string d -> wf_string k -> wf_string i ->
  Permutation (diary_object d k i) fields ->
  diary_extract (stringify_object fields)
  = Return {| diary := JStr match d with
                            | [] => stringify_object fields
                            | _ :: _ => d
                            end;
              keyPoints := JStr k;
              insights := JStr i |}.
Proof.
  intros Hd Hk Hi Hp.
  assert (Hwf : wf_fields fields).
  { unfold wf_fields. apply (Permutation_Forall Hp). unfold diary_object.
    repeat (constructor; [split; [|assumption]|]); try constructor;
      cbn [fst]; repeat constructor. }
  assert (Hnd : NoDup (map fst fields)).
  { apply (Permutation_NoDup (Permutation_map fst Hp)).
    cbn. repeat constructor; cbn; intuition discriminate. }
  assert (In1 : In (lit "diary", d) fields)
    by (apply (Permutation_in _ Hp); cbn; auto).
  assert (In2 : In (lit "keyPoints", k) fields)
    by (apply (Permutation_in _ Hp); cbn; auto).
  assert (In3 : In (lit "insights", i) fields)
    by (apply (Permutation_in _ Hp); cbn; auto).
  destruct (diary_span_parsed _ _ (span_json_stringify _ Hwf)) as [l [El ->]].
  injection El as <-.
  unfold field_or.
  rewrite (lookup_present _ _ _ Hnd In1), (lookup_present _ _ _ Hnd In2),
    (lookup_present _ _ _ Hnd In3).
  cbn [truthy nonempty].
  destruct d, k, i; reflexivity.
Qed.

Lemma diary_roundtrip_witness :
  diary_extract
    (stringify_object
       [ (lit "keyPoints", []); (lit "diary", lit "d"); (lit "insights", lit "i") ])
  = Return {| diary := JStr (lit "d"); keyPoints := JStr []; insights := JStr (lit "i") |}.
Proof.
  apply (diary_roundtrip (lit "d") [] (lit "i")
           [ (lit "keyPoints", []); (lit "diary", lit "d"); (lit "insights", lit "i") ]).
  - repeat constructor.
  - constructor.
  - repeat constructor.
  - apply perm_swap.
Defined.

(** C2 as the claim states it fails: on the text [{}] the long-horizon
    report returns the empty object, which has no summary; and on the text
    [{"diary":1}] the diary task returns a number as the diary. *)
Lemma shape_counterexample :
  long_term_extract (lit "{}") = JObj []
  /\ has_field (long_term_extract (lit "{}")) (lit "summary") = false
  /\ (exists d,
        diary_extract [123; 34; 100; 105; 97; 114; 121; 34; 58; 49; 125]%N
        = Return d
        /\ is_string (diary d) = false).
Proof.
  split; [reflexivity|]. split; [reflexivity|].
  eexists. split; reflexivity.
Qed.

Lemma field_or_shape (l : list (jsstring * json)) (key default : jsstring) :
  is_string (field_or l key default) = true
  \/ (lookup key l = Some (field_or l key default)
      /\ truthy (field_or l key default) = true).
Proof.
  unfold field_or. destruct (lookup key l) as [v|]; [|now left].
  destruct (truthy v) eqn:E; [right|left]; auto.
Qed.

(** C2, amended: extraction never throws.  The diary task always returns
    a record with diary, key points and insights; each is a string unless
    the parsed span holds a truthy value under that name, which is then
    returned as it is.  The long-horizon report returns the synthetic
    record, with all of summary, psychologicalInsight, lifeAdvice and
    metrics, when the text has no span that parses; when the span parses,
    it returns the parsed object as it is, whatever its fields. *)
Theorem extraction_shape (raw : jsstring) :
  (exists d,
      diary_extract raw = Return d
      /\ (is_string (diary d) = true
          \/ exists l, span_json raw = Some (JObj l)
                       /\ lookup (lit "diary") l = Some (diary d)
                       /\ truthy (diary d) = true)
      /\ (is_string (keyPoints d) = true
          \/ exists l, span_json raw = Some (JObj l)
                       /\ lookup (lit "keyPoints") l = Some (keyPoints d)
                       /\ truthy (keyPoints d) = true)
      /\ (is_string (insights d) = true
          \/ exists l, span_json raw = Some (JObj l)
                       /\ lookup (lit "insights") l = Some (insights d)
                       /\ truthy (insights d) = true))
  /\ (span_json raw = None ->
      long_term_extract raw = long_term_fallback raw
      /\ has_field (long_term_extract raw) (lit "summary") = true
      /\ has_field (long_term_extract raw) (lit "psychologicalInsight") = true
      /\ has_field (long_term_extract raw) (lit "lifeAdvice") = true
      /\ has_field (long_term_extract raw) (lit "metrics") = true)
  /\ (forall v,
        span_json raw = Some v ->
        long_term_extract raw = v /\ exists l, v = JObj l).
Proof.
  split; [|split].
  - destruct (span_cases raw) as [[v S]|[[Hs S]|[Hs S]]].
    + destruct (diary_span_parsed raw v S) as [l [-> ->]].
      eexists. split; [reflexivity|]. cbn [diary keyPoints insights].
      repeat split;
        match goal with
        | |- context [field_or l ?key ?def] =>
            destruct (field_or_shape l key def) as [F|[F1 F2]];
            [left; exact F|right; exists l; auto]
        end.
    + rewrite (diary_span_failed raw Hs S).
      eexists. split; [reflexivity|]. repeat split; left; reflexivity.
    + rewrite (diary_no_span raw Hs).
      eexists. split; [reflexivity|]. repeat split; left; reflexivity.
  - intros S.
    assert (E : long_term_extract raw = long_term_fallback raw).
    { unfold long_term_extract. unfold span_json in S.
      destruct (exec re_json_span raw) as [m|]; [rewrite S|]; reflexivity. }
    rewrite E. repeat split; reflexivity.
  - intros v S. destruct (diary_span_parsed raw v S) as [l [-> _]].
    split; [|eauto].
    unfold long_term_extract. unfold span_json in S.
    destruct (exec re_json_span raw) as [m|]; [|discriminate].
    rewrite S. reflexivity.
Qed.

Lemma extraction_shape_witness :
  long_term_extract (lit "no data") = long_term_fallback (lit "no data")
  /\ long_term_extract (lit "{}") = JObj [].
Proof.
  split.
  - apply (proj1 (proj2 (extraction_shape (lit "no data")))). reflexivity.
  - apply (proj2 (proj2 (extraction_shape (lit "{}"))) (JObj [])). reflexivity.
Defined.

End StructuredOutput.

(** ** The access token over time and over interleavings *)

Module TokenLife.
Import Wechat.

(** X1: a token stored by a refresh at time [later] is served from the
    cache, with no request, to every call made while more than 60 seconds
    of the granted lifetime remain, and to no call after that; the
    lifetime is the [expires_in] of the answer as it is, zero included,
    and 7200 seconds only when the answer names none.  A lifetime of 60
    seconds or less is therefore never served from the cache. *)
Theorem refreshed_token_reuse
        (cache cache' : option CachedToken) (later : Z)
        (data : TokenData) (t : jsstring) :
  getAccessToken_resume cache later (Resolved data) = (cache', Return t) ->
  (forall config now answer later',
      (now - later < lifetime_of data * 1000 - 60000)%Z ->
      getAccessToken config cache' now answer later' = (cache', 0, Return t))
  /\ (forall config now,
        (now - later >= lifetime_of data * 1000 - 60000)%Z ->
        getAccessToken_begin config cache' now = request_token config)
  /\ ((lifetime_of data <= 60)%Z ->
      forall config now,
        (later <= now)%Z ->
        getAccessToken_begin config cache' now = request_token config).
Proof.
  intros H.
  pose proof (TokenCache.resume_return cache later (Resolved data) t) as R.
  rewrite H in R. destruct (R eq_refl) as [_ [data0 [E [_ Hc]]]].
  injection E as <-. cbn [fst] in Hc. subst cache'.
  fold (lifetime_of data).
  split; [|split].
  - intros config now answer later' Hlt. unfold getAccessToken.
    rewrite TokenCache.begin_fresh; [reflexivity|]. cbn [expireAt]. lia.
  - intros config now Hge. apply TokenCache.begin_stale. cbn. lia.
  - intros Hshort config now Hle. apply TokenCache.begin_stale. cbn. lia.
Qed.

Lemma refreshed_token_reuse_witness :
  let data := {| access_token := Some (lit "T"); expires_in := Some 7200%Z;
                 errcode := None; errmsg := None |} in
  let config := {| appId := lit "wx1"; secret := lit "s" |} in
  getAccessToken config (Some {| token := lit "T"; expireAt := 7201000 |})
                 5000 (Rejected []) 5001
  = (Some {| token := lit "T"; expireAt := 7201000 |}, 0, Return (lit "T")).
Proof.
  cbv zeta.
  apply (proj1 (refreshed_token_reuse None _ 1000
                  {| access_token := Some (lit "T"); expires_in := Some 7200%Z;
                     errcode := None; errmsg := None |} (lit "T") eq_refl)).
  cbn. lia.
Defined.

Lemma step_sound (config : WechatConfig) (p : process) (e : event) :
  cache_sound (cachedAccessToken p) -> delivered_sound p ->
  cache_sound (cachedAccessToken (step config p e))
  /\ delivered_sound (step config p e).
Proof.
  intros Hc Hd. destruct e as [caller now|caller now answer]; cbn [step].
  - destruct (getAccessToken_begin config (cachedAccessToken p) now) as [r|req] eqn:B;
      cbn [cachedAccessToken delivered]; split; auto.
    unfold delivered_sound. cbn [delivered]. constructor; [|exact Hd].
    cbn [snd]. destruct r as [t|e]; [|exact I].
    unfold getAccessToken_begin in B.
    destruct (cachedAccessToken p) as [c|].
    + destruct (expireAt c >? now + 60000)%Z.
      * injection B as <-. exact Hc.
      * unfold request_token in B.
        destruct (negb (nonempty (appId config)) || negb (nonempty (secret config)));
          discriminate.
    + unfold request_token in B.
      destruct (negb (nonempty (appId config)) || negb (nonempty (secret config)));
        discriminate.
  - destruct (existsb (Nat.eqb caller) (waiting p)); [|auto].
    pose proof (TokenCache.resume_return (cachedAccessToken p) now answer) as R.
    pose proof (TokenCache.resume_throw (cachedAccessToken p) now answer) as T.
    destruct (getAccessToken_resume (cachedAccessToken p) now answer) as [c1 r1].
    cbn [cachedAccessToken delivered]. cbn [fst snd] in R, T.
    destruct r1 as [t|e].
    + destruct (R t eq_refl) as [Hne [data [_ [_ ->]]]]. split.
      * exact Hne.
      * constructor; [exact Hne|exact Hd].
    + rewrite (T e eq_refl). split; [exact Hc|].
      constructor; [exact I|exact Hd].
Qed.

(** X2: in every interleaving of calls and answers, a cache that starts
    empty (or holding a non-empty token) never comes to hold an empty
    token, and no caller is ever handed one. *)
Theorem cache_never_holds_empty_token
        (config : WechatConfig) (es : list event) (p : process) :
  cache_sound (cachedAccessToken p) -> delivered_sound p ->
  cache_sound (cachedAccessToken (run config p es))
  /\ delivered_sound (run config p es).
Proof.
  revert p. induction es as [|e es IH]; intros p Hc Hd; [split; assumption|].
  cbn [run fold_left]. destruct (step_sound config p e Hc Hd) as [Hc' Hd'].
  exact (IH _ Hc' Hd').
Qed.

Lemma cache_never_holds_empty_token_witness :
  let config := {| appId := lit "wx1"; secret := lit "s" |} in
  let blank := Resolved {| access_token := Some []; expires_in := Some 7200%Z;
                           errcode := None; errmsg := None |} in
  cache_sound (cachedAccessToken (run config (idle None) [Call 1 0; Answer 1 5 blank])).
Proof.
  cbv zeta.
  apply (cache_never_holds_empty_token
           {| appId := lit "wx1"; secret := lit "s" |}
           [Call 1 0;
            Answer 1 5 (Resolved {| access_token := Some []; expires_in := Some 7200%Z;
                                    errcode := None; errmsg := None |})]
           (idle None)).
  - exact I.
  - constructor.
Defined.

End TokenLife.

(** ** code2Session, getPhoneNumber and the configuration *)

Module WechatCalls.
Import Wechat WechatApi.

Lemma nonempty_false (s : jsstring) : nonempty s = false <-> s = [].
Proof. destruct s; split; intros H; try reflexivity; discriminate. Qed.

Lemma not_configured_test (config : WechatConfig) :
  ~ configured config ->
  negb (nonempty (appId config)) || negb (nonempty (Wechat.secret config)) = true.
Proof.
  intros H. unfold configured in H.
  destruct (appId config); [reflexivity|].
  destruct (Wechat.secret config); [reflexivity|].
  exfalso. apply H. split; discriminate.
Qed.

Lemma configured_test (config : WechatConfig) :
  configured config ->
  negb (nonempty (appId config)) || negb (nonempty (Wechat.secret config)) = false.
Proof.
  intros [Ha Hs].
  destruct (appId config); [contradiction|].
  destruct (Wechat.secret config); [contradiction|]. reflexivity.
Qed.

(** X4: [code2Session] sends nothing and throws when the AppID or secret
    is missing; it returns only on an answer without error code (absent
    or zero) and with a non-empty openid, and then hands back that openid
    with the answer's session key and union id, which it does not check:
    the session key may be absent. *)
Theorem code2Session_outcome
        (config : WechatConfig) (code : jsstring)
        (answer : axios_result SessionData) :
  (~ configured config ->
     code2Session config code answer = (0, Throw SessionNotConfigured))
  /\ (forall n r,
        code2Session config code answer = (n, Return r) ->
        n = 1 /\ configured config /\ openid r <> []
        /\ exists data,
            answer = Resolved data
            /\ data_openid data = Some (openid r)
            /\ (errcode data = None \/ errcode data = Some 0%Z)
            /\ session_key r = data_session_key data
            /\ unionid r = data_unionid data)
  /\ (forall data o,
        configured config ->
        answer = Resolved data ->
        data_openid data = Some o -> o <> [] ->
        errcode data = None \/ errcode data = Some 0%Z ->
        code2Session config code answer
        = (1, Return {| openid := o;
                        session_key := data_session_key data;
                        unionid := data_unionid data |})).
Proof.
  split; [|split].
  - intros H. unfold code2Session, code2Session_begin.
    now rewrite (not_configured_test config H).
  - intros n r. unfold code2Session, code2Session_begin.
    destruct (negb (nonempty (appId config)) || negb (nonempty (Wechat.secret config)))
             eqn:C; [discriminate|].
    intros H. injection H as <- H. split; [reflexivity|].
    split.
    { apply orb_false_elim in C. destruct C as [C1 C2].
      apply negb_false_iff in C1, C2. split; intros E; rewrite E in *; discriminate. }
    unfold code2Session_resume in H.
    destruct answer as [data|m]; [|discriminate].
    destruct (truthy_num (errcode data)) eqn:Ec; [discriminate|].
    destruct (data_openid data) as [[|x o]|] eqn:Eo; cbn in H; try discriminate.
    injection H as <-. cbn [openid session_key unionid].
    split; [discriminate|]. exists data. repeat split; auto.
    unfold truthy_num in Ec. destruct (errcode data) as [z|]; [|now left].
    right. apply negb_false_iff in Ec. apply Z.eqb_eq in Ec. now subst.
  - intros data o Hc -> Eo Hne Ec. unfold code2Session, code2Session_begin.
    rewrite (configured_test config Hc). cbn [code2Session_resume].
    assert (T : truthy_num (errcode data) = false)
      by (destruct Ec as [->| ->]; reflexivity).
    rewrite T, Eo. destruct o; [contradiction|]. reflexivity.
Qed.

Lemma code2Session_outcome_witness :
  code2Session {| appId := lit "wx1"; Wechat.secret := lit "s" |} (lit "c")
               (Resolved {| data_openid := Some (lit "o1");
                            data_session_key := None;
                            data_unionid := None;
                            errcode := Some 0%Z;
                            errmsg := None |})
  = (1, Return {| openid := lit "o1"; session_key := None; unionid := None |}).
Proof.
  apply (proj2 (proj2 (code2Session_outcome
                         {| appId := lit "wx1"; Wechat.secret := lit "s" |} (lit "c")
                         (Resolved {| data_openid := Some (lit "o1");
                                      data_session_key := None;
                                      data_unionid := None;
                                      errcode := Some 0%Z;
                                      errmsg := None |})))
               {| data_openid := Some (lit "o1");
                  data_session_key := None;
                  data_unionid := None;
                  errcode := Some 0%Z;
                  errmsg := None |}
               (lit "o1")).
  - split; discriminate.
  - reflexivity.
  - reflexivity.
  - discriminate.
  - right. reflexivity.
Defined.

(** X5: [getPhoneNumber] asks for the phone number with the cached token
    when that is fresh (one request) and with the token of the refresh
    otherwise (two requests); when the token step throws, no phone
    request is made; and a refreshed token stays in the cache whatever
    the phone request then gives.  It returns only the phone info of an
    answer without error code. *)
Theorem getPhoneNumber_requests
        (config : WechatConfig) (cache : option CachedToken) (phoneCode : jsstring)
        (now later : Z) (tokenAnswer : axios_result TokenData)
        (phoneAnswer : axios_result PhoneData) :
  (forall c,
      cache = Some c -> (expireAt c - now > 60000)%Z ->
      getPhoneNumber config cache phoneCode now tokenAnswer later phoneAnswer
      = (cache, [PhoneRequested (token c) phoneCode], phone_step phoneAnswer))
  /\ (cache_stale cache now -> ~ configured config ->
      getPhoneNumber config cache phoneCode now tokenAnswer later phoneAnswer
      = (cache, [], Throw (TokenFailed NotConfigured)))
  /\ (cache_stale cache now -> configured config -> refused tokenAnswer ->
      exists req e,
        getPhoneNumber config cache phoneCode now tokenAnswer later phoneAnswer
        = (cache, [TokenRequested req], Throw (TokenFailed e)))
  /\ (forall cache' t,
        cache_stale cache now -> configured config ->
        getAccessToken_resume cache later tokenAnswer = (cache', Return t) ->
        exists req c,
          cache' = Some c /\ token c = t
          /\ getPhoneNumber config cache phoneCode now tokenAnswer later phoneAnswer
             = (cache', [TokenRequested req; PhoneRequested t phoneCode],
                phone_step phoneAnswer))
  /\ (forall cache' reqs info,
        getPhoneNumber config cache phoneCode now tokenAnswer later phoneAnswer
        = (cache', reqs, Return info) ->
        exists data,
          phoneAnswer = Resolved data /\ phone_info data = Some info
          /\ (phone_errcode data = None \/ phone_errcode data = Some 0%Z)).
Proof.
  split; [|split; [|split; [|split]]].
  - intros c -> H. unfold getPhoneNumber.
    now rewrite (TokenCache.begin_fresh config c now H).
  - intros Hs Hc. unfold getPhoneNumber.
    now rewrite (TokenCache.begin_stale config cache now Hs),
      (TokenCache.request_token_unconfigured config Hc).
  - intros Hs Hc Hr. unfold getPhoneNumber.
    rewrite (TokenCache.begin_stale config cache now Hs),
      (TokenCache.request_token_configured config Hc).
    destruct (TokenCache.resume_refused cache later tokenAnswer Hr) as [e ->].
    eauto.
  - intros cache' t Hs Hc R. unfold getPhoneNumber.
    rewrite (TokenCache.begin_stale config cache now Hs),
      (TokenCache.request_token_configured config Hc), R.
    pose proof (TokenCache.resume_return cache later tokenAnswer t) as P.
    rewrite R in P. destruct (P eq_refl) as [_ [data [_ [_ Hc']]]].
    cbn [fst] in Hc'. eexists. eexists. split; [exact Hc'|].
    split; reflexivity.
  - intros cache' reqs info H.
    assert (P : phone_step phoneAnswer = Return info).
    { unfold getPhoneNumber in H.
      destruct (getAccessToken_begin config cache now) as [[t|e]|req].
      - now injection H.
      - discriminate.
      - destruct (getAccessToken_resume cache later tokenAnswer) as [c1 [t|e]];
          [now injection H|discriminate]. }
    unfold phone_step in P. destruct phoneAnswer as [data|m]; [|discriminate].
    destruct (truthy_num (phone_errcode data)) eqn:Ec; [discriminate|].
    destruct (phone_info data) as [[a b]|] eqn:Ei; [|discriminate].
    cbn [phoneNumber purePhoneNumber] in P.
    injection P as <-. exists data. split; [reflexivity|]. split.
    + exact Ei.
    + unfold truthy_num in Ec. destruct (phone_errcode data) as [z|]; [|now left].
      right. apply negb_false_iff in Ec. apply Z.eqb_eq in Ec. now subst.
Qed.

Lemma getPhoneNumber_requests_witness :
  let config := {| appId := lit "wx1"; Wechat.secret := lit "s" |} in
  let bad := Resolved {| phone_errcode := Some 40029%Z; phone_errmsg := None;
                         phone_info := None |} in
  exists req c,
    getPhoneNumber config None (lit "pc") 0
                   (Resolved {| access_token := Some (lit "T");
                                expires_in := None; Wechat.errcode := None;
                                Wechat.errmsg := None |})
                   10 bad
    = (Some c, [TokenRequested req; PhoneRequested (lit "T") (lit "pc")],
       Throw (PhoneRefused {| phone_errcode := Some 40029%Z; phone_errmsg := None;
                              phone_info := None |})).
Proof.
  cbv zeta.
  assert (Hc : configured {| appId := lit "wx1"; Wechat.secret := lit "s" |})
    by (split; discriminate).
  destruct (proj1 (proj2 (proj2 (proj2
              (getPhoneNumber_requests
                 {| appId := lit "wx1"; Wechat.secret := lit "s" |} None (lit "pc")
                 0 10
                 (Resolved {| access_token := Some (lit "T");
                              expires_in := None; Wechat.errcode := None;
                              Wechat.errmsg := None |})
                 (Resolved {| phone_errcode := Some 40029%Z; phone_errmsg := None;
                              phone_info := None |})))))
              (Some {| token := lit "T"; expireAt := 7200010 |}) (lit "T")
              I Hc eq_refl) as [req [c [Ec [_ E]]]].
  exists req, c. rewrite <- Ec. exact E.
Defined.

(** X6: when [WECHAT_APPID] or [WECHAT_SECRET] is not set in the
    environment, or is set to the empty string, [code2Session] throws the
    not-configured error without a request, and so do [getAccessToken] and
    [getPhoneNumber] whenever the cached token cannot be used; with both
    set, the configuration is complete. *)
Theorem unset_environment_blocks_wechat
        (env : jsstring -> option jsstring) :
  (unset env (lit "WECHAT_APPID") \/ unset env (lit "WECHAT_SECRET") ->
     ~ configured (Config.wechat env)
     /\ (forall code answer,
           code2Session (Config.wechat env) code answer
           = (0, Throw SessionNotConfigured))
     /\ (forall cache now answer later,
           cache_stale cache now ->
           getAccessToken (Config.wechat env) cache now answer later
           = (cache, 0, Throw NotConfigured))
     /\ (forall cache code now tokenAnswer later phoneAnswer,
           cache_stale cache now ->
           getPhoneNumber (Config.wechat env) cache code now tokenAnswer later
                          phoneAnswer
           = (cache, [], Throw (TokenFailed NotConfigured))))
  /\ (forall a s,
        env (lit "WECHAT_APPID") = Some a -> a <> [] ->
        env (lit "WECHAT_SECRET") = Some s -> s <> [] ->
        Config.wechat env = {| appId := a; Wechat.secret := s |}
        /\ configured (Config.wechat env)).
Proof.
  split.
  - intros H.
    assert (N : ~ configured (Config.wechat env)).
    { unfold configured, Config.wechat, Config.getEnv. cbn [appId Wechat.secret].
      intros [Ha Hs].
      destruct H as [[E|E]|[E|E]]; rewrite E in *; cbn in *; congruence. }
    split; [exact N|]. split; [|split].
    + intros code answer. unfold code2Session, code2Session_begin.
      now rewrite (not_configured_test _ N).
    + intros cache now answer later Hs. unfold getAccessToken.
      now rewrite (TokenCache.begin_stale _ cache now Hs),
        (TokenCache.request_token_unconfigured _ N).
    + intros cache code now tokenAnswer later phoneAnswer Hs.
      unfold getPhoneNumber.
      now rewrite (TokenCache.begin_stale _ cache now Hs),
        (TokenCache.request_token_unconfigured _ N).
  - intros a s Ea Ha Es Hs.
    assert (E : Config.wechat env = {| appId := a; Wechat.secret := s |}).
    { unfold Config.wechat, Config.getEnv. rewrite Ea, Es.
      destruct a; [contradiction|]. destruct s; [contradiction|]. reflexivity. }
    split; [exact E|]. rewrite E. split; assumption.
Qed.

Lemma unset_environment_blocks_wechat_witness :
  let env := fun key : jsstring =>
               if JsString.eqb key (lit "WECHAT_SECRET") then Some (lit "s")
               else None in
  code2Session (Config.wechat env) (lit "c") (Rejected [])
  = (0, Throw SessionNotConfigured).
Proof.
  cbv zeta.
  apply (proj1 (proj2 (proj1 (unset_environment_blocks_wechat
           (fun key : jsstring =>
              if JsString.eqb key (lit "WECHAT_SECRET") then Some (lit "s")
              else None))
           (or_introl (or_introl eq_refl))))).
Defined.

End WechatCalls.

(** ** The users table *)

Module UsersTable.
Import Db.

Lemma find_app_split {A : Type} (f : A -> bool) (l l' : list A) :
  find f (l ++ l') = match find f l with
                     | Some x => Some x
                     | None => find f l'
                     end.
Proof.
  induction l as [|x l IH]; [reflexivity|].
  cbn [app find]. destruct (f x); [reflexivity|exact IH].
Qed.

Lemma find_map_same {A : Type} (f : A -> bool) (g : A -> A) (l : list A) :
  (forall x, f (g x) = f x) ->
  find f (map g l) = option_map g (find f l).
Proof.
  intros H. induction l as [|x l IH]; [reflexivity|].
  cbn [map find]. rewrite H. destruct (f x); [reflexivity|exact IH].
Qed.

Lemma find_absent {A : Type} (f : A -> bool) (l : list A) :
  (forall x, In x l -> f x = false) -> find f l = None.
Proof.
  intros H. induction l as [|x l IH]; [reflexivity|].
  cbn [find]. rewrite (H x (or_introl eq_refl)).
  apply IH. intros y Hy. apply H. now right.
Qed.

(** With unique keys, looking a row up by its key finds that row. *)
Lemma find_by_key {A : Type} (key : A -> Z) (l : list A) (r : A) :
  NoDup (map key l) -> In r l ->
  find (fun x => (key x =? key r)%Z) l = Some r.
Proof.
  induction l as [|x l IH]; intros Hnd Hin; [contradiction|].
  cbn [map] in Hnd. inversion Hnd as [|? ? Hx Hl]; subst.
  cbn [find]. destruct Hin as [->|Hin].
  - now rewrite Z.eqb_refl.
  - destruct (Z.eqb_spec (key x) (key r)) as [E|_]; [|now apply IH].
    exfalso. apply Hx. rewrite E. now apply in_map.
Qed.

Lemma getUserById_id (t : users_table) (i : Z) (r : UserRow) :
  getUserById t i = Some r -> id r = i /\ In r (user_rows t).
Proof.
  unfold getUserById. intros H. apply find_some in H. destruct H as [H1 H2].
  split; [now apply Z.eqb_eq|exact H1].
Qed.

Lemma findUser_openid (t : users_table) (o : jsstring) (r : UserRow) :
  findUserByWxOpenId t o = Some r ->
  wx_open_id r = to_text o /\ In r (user_rows t).
Proof.
  unfold findUserByWxOpenId. intros H. apply find_some in H.
  destruct H as [H1 H2]. split; [now apply StructuredOutput.eqb_eq|exact H1].
Qed.

Lemma getUserById_found (t : users_table) (r : UserRow) :
  users_ok t -> In r (user_rows t) -> getUserById t (id r) = Some r.
Proof.
  intros [Hid _] Hin. unfold getUserById. now apply find_by_key.
Qed.

Lemma eqb_refl (s : jsstring) : JsString.eqb s s = true.
Proof. now apply StructuredOutput.eqb_eq. Qed.

Lemma eqb_neq (a b : jsstring) : a <> b -> JsString.eqb a b = false.
Proof.
  intros H. destruct (JsString.eqb a b) eqn:E; [|reflexivity].
  apply StructuredOutput.eqb_eq in E. contradiction.
Qed.

(** What the passage through the database does to a string. *)
Lemma to_text_plain (s : jsstring) : plain s -> to_text s = s.
Proof.
  induction 1 as [|c s [Hl Ht] _ IH]; [reflexivity|].
  cbn [to_text]. now rewrite Hl, Ht, IH.
Qed.

Lemma to_text_idem_bounded (n : nat) :
  forall s, length s <= n -> to_text (to_text s) = to_text s.
Proof.
  induction n as [|n IH]; intros s Hn.
  - destruct s; [reflexivity|cbn in Hn; lia].
  - destruct s as [|c s]; [reflexivity|]. cbn [length] in Hn.
    cbn [to_text]. destruct (is_lead c) eqn:Hl.
    + destruct s as [|d s]; [reflexivity|]. cbn [length] in Hn.
      destruct (is_trail d) eqn:Hd.
      * cbn [to_text]. rewrite Hl, Hd. now rewrite (IH s) by lia.
      * change (to_text (65533%N :: to_text (d :: s)))
          with (65533%N :: to_text (to_text (d :: s))).
        now rewrite (IH (d :: s)) by (cbn [length]; lia).
    + destruct (is_trail c) eqn:Ht.
      * change (to_text (65533%N :: to_text s))
          with (65533%N :: to_text (to_text s)).
        now rewrite (IH s) by lia.
      * cbn [to_text]. rewrite Hl, Ht. now rewrite (IH s) by lia.
Qed.

Lemma to_text_idem (s : jsstring) : to_text (to_text s) = to_text s.
Proof. exact (to_text_idem_bounded (length s) s (le_n _)). Qed.

Lemma createUser_new (t : users_table) (o : jsstring) (ph : option jsstring)
      (now : jsstring) :
  users_ok t -> findUserByWxOpenId t o = None ->
  let row := {| id := (user_seq t + 1)%Z; wx_open_id := to_text o;
                phone := option_map to_text ph;
                vip_level := lit "free"; settings := lit "{}";
                created_at := to_text now; updated_at := to_text now |} in
  let t' := {| user_rows := user_rows t ++ [row];
               user_seq := (user_seq t + 1)%Z |} in
  createUser t o ph now = Some (t', row) /\ users_ok t'.
Proof.
  intros [Hid [Hop Hseq]] Hfind row t'.
  assert (Fresh : forall x, In x (user_rows t) -> (id x =? user_seq t + 1)%Z = false).
  { intros x Hx. rewrite Forall_forall in Hseq. specialize (Hseq x Hx).
    apply Z.eqb_neq. lia. }
  assert (NoOpen : forall x, In x (user_rows t) -> wx_open_id x <> to_text o).
  { intros x Hx E. unfold findUserByWxOpenId in Hfind.
    pose proof (find_none _ _ Hfind x Hx) as F. cbn in F.
    rewrite E, eqb_refl in F. discriminate. }
  split.
  - unfold createUser. rewrite Hfind. fold row. fold t'.
    unfold getUserById, t'. cbn [user_rows].
    rewrite find_app_split, (find_absent _ _ Fresh). cbn [find id row].
    now rewrite Z.eqb_refl.
  - unfold users_ok, t'. cbn [user_rows user_seq]. rewrite !map_app.
    cbn [map id wx_open_id row]. repeat split.
    + apply NoDup_app; [exact Hid|repeat constructor; intros []|].
      intros a Ha [<-|[]]. apply in_map_iff in Ha. destruct Ha as [x [E Hx]].
      specialize (Fresh x Hx). rewrite E, Z.eqb_refl in Fresh. discriminate.
    + apply NoDup_app; [exact Hop|repeat constructor; intros []|].
      intros a Ha [<-|[]]. apply in_map_iff in Ha. destruct Ha as [x [E Hx]].
      exact (NoOpen x Hx E).
    + apply Forall_app. split.
      * eapply Forall_impl; [|exact Hseq]. cbn. intros; lia.
      * repeat constructor. cbn. lia.
Qed.

(** X7: creating a user for an openid whose text the table does not hold
    gives the next id and a row with that text, level [free] and settings
    [{}], which the lookup by id then finds, and which the lookup by
    openid finds for every openid of the same text: the openid itself and
    those that differ from it in lone surrogates only.  Every other lookup
    answers as before and the table keeps ids and openids unique.  When
    the table already holds the text of the openid, the INSERT fails.  The
    text of a string is the string itself when it holds no surrogate, and
    in any case a text reads back as it is. *)
Theorem createUser_round_trip
        (t : users_table) (o : jsstring) (ph : option jsstring) (now : jsstring) :
  (users_ok t -> findUserByWxOpenId t o = None ->
     exists t' row,
       createUser t o ph now = Some (t', row)
       /\ row = {| id := (user_seq t + 1)%Z; wx_open_id := to_text o;
                   phone := option_map to_text ph;
                   vip_level := lit "free"; settings := lit "{}";
                   created_at := to_text now; updated_at := to_text now |}
       /\ getUserById t' (id row) = Some row
       /\ (forall o', to_text o' = to_text o ->
             findUserByWxOpenId t' o' = Some row)
       /\ (forall i, i <> id row -> getUserById t' i = getUserById t i)
       /\ (forall o', to_text o' <> to_text o ->
             findUserByWxOpenId t' o' = findUserByWxOpenId t o')
       /\ users_ok t')
  /\ (forall r o',
        to_text o' = to_text o ->
        findUserByWxOpenId t o' = Some r -> createUser t o ph now = None)
  /\ (plain o -> to_text o = o)
  /\ to_text (to_text o) = to_text o.
Proof.
  split; [|split; [|split]].
  - intros Hok Hfind.
    destruct (createUser_new t o ph now Hok Hfind) as [E Hok'].
    eexists. eexists. split; [exact E|]. split; [reflexivity|].
    assert (Hin : In {| id := (user_seq t + 1)%Z; wx_open_id := to_text o;
                        phone := option_map to_text ph;
                        vip_level := lit "free"; settings := lit "{}";
                        created_at := to_text now; updated_at := to_text now |}
                     (user_rows t ++
                      [{| id := (user_seq t + 1)%Z; wx_open_id := to_text o;
                          phone := option_map to_text ph;
                          vip_level := lit "free"; settings := lit "{}";
                          created_at := to_text now;
                          updated_at := to_text now |}]))
      by (apply in_or_app; right; now left).
    split; [exact (getUserById_found _ _ Hok' Hin)|].
    split.
    { intros o' Ho'. unfold findUserByWxOpenId. cbn [user_rows].
      rewrite find_app_split, Ho'.
      unfold findUserByWxOpenId in Hfind. rewrite Hfind. cbn [find wx_open_id].
      now rewrite eqb_refl. }
    split.
    { intros i Hi. unfold getUserById. cbn [user_rows id] in *.
      rewrite find_app_split. destruct (find _ (user_rows t)); [reflexivity|].
      cbn [find id]. destruct (Z.eqb_spec (user_seq t + 1) i); [congruence|reflexivity]. }
    split; [|exact Hok'].
    intros o' Ho'. unfold findUserByWxOpenId. cbn [user_rows].
    rewrite find_app_split. destruct (find _ (user_rows t)); [reflexivity|].
    cbn [find wx_open_id]. rewrite eqb_neq; [reflexivity|congruence].
  - intros r o' Ho' H. unfold createUser.
    unfold findUserByWxOpenId in *. rewrite Ho' in H. now rewrite H.
  - apply to_text_plain.
  - apply to_text_idem.
Qed.

Lemma createUser_round_trip_witness :
  exists t' row,
    createUser {| user_rows := []; user_seq := 0 |} (lit "o1") None (lit "t0")
    = Some (t', row)
    /\ getUserById t' 1 = Some row.
Proof.
  destruct (proj1 (createUser_round_trip {| user_rows := []; user_seq := 0 |}
                     (lit "o1") None (lit "t0")))
    as [t' [row [E [Er [G _]]]]].
  - repeat split; constructor.
  - reflexivity.
  - subst row. eexists. eexists. split; [exact E|exact G].
Defined.

(** X8: updating a phone number changes the phone and the update time of
    the user with that id, to the texts of the strings given, and nothing
    else: other users read back as
    before, lookups by openid find the same users, the number of rows and
    the uniqueness of ids and openids are kept, and for an id the table
    does not hold nothing changes at all. *)
Theorem updateUserPhone_frame
        (t : users_table) (u : Z) (p now : jsstring) :
  getUserById (updateUserPhone t u p now) u
  = option_map (with_phone (to_text p) (to_text now)) (getUserById t u)
  /\ (forall i, i <> u ->
        getUserById (updateUserPhone t u p now) i = getUserById t i)
  /\ (forall o,
        option_map id (findUserByWxOpenId (updateUserPhone t u p now) o)
        = option_map id (findUserByWxOpenId t o))
  /\ length (user_rows (updateUserPhone t u p now)) = length (user_rows t)
  /\ (getUserById t u = None -> updateUserPhone t u p now = t)
  /\ (users_ok t -> users_ok (updateUserPhone t u p now)).
Proof.
  set (f := fun r : UserRow =>
              if (id r =? u)%Z then with_phone (to_text p) (to_text now) r
              else r).
  assert (U : updateUserPhone t u p now
              = {| user_rows := map f (user_rows t); user_seq := user_seq t |})
    by reflexivity.
  assert (Fid : forall x, id (f x) = id x)
    by (intros x; unfold f; destruct (id x =? u)%Z; reflexivity).
  assert (Fop : forall x, wx_open_id (f x) = wx_open_id x)
    by (intros x; unfold f; destruct (id x =? u)%Z; reflexivity).
  rewrite U. split; [|split; [|split; [|split; [|split]]]].
  - unfold getUserById. cbn [user_rows].
    rewrite find_map_same by (intros x; now rewrite Fid).
    destruct (find _ (user_rows t)) as [r|] eqn:E; [|reflexivity].
    apply find_some in E. destruct E as [_ E]. cbn [option_map].
    unfold f. now rewrite E.
  - intros i Hi. unfold getUserById. cbn [user_rows].
    rewrite find_map_same by (intros x; now rewrite Fid).
    destruct (find _ (user_rows t)) as [r|] eqn:E; [|reflexivity].
    apply find_some in E. destruct E as [_ E]. apply Z.eqb_eq in E.
    cbn [option_map]. unfold f.
    destruct (Z.eqb_spec (id r) u); [congruence|reflexivity].
  - intros o. unfold findUserByWxOpenId. cbn [user_rows].
    rewrite find_map_same by (intros x; now rewrite Fop).
    destruct (find _ (user_rows t)); cbn [option_map]; [now rewrite Fid|reflexivity].
  - cbn [user_rows]. apply length_map.
  - intros H. destruct t as [rows seq]. cbn [user_rows user_seq] in *. f_equal.
    unfold getUserById in H. cbn [user_rows] in H.
    pose proof (find_none _ _ H) as N. cbn in N.
    clear H U. induction rows as [|x rows IH]; [reflexivity|].
    cbn [map]. rewrite IH by (intros y Hy; apply N; now right).
    unfold f. now rewrite (N x (or_introl eq_refl)).
  - intros [Hid [Hop Hseq]]. unfold users_ok. cbn [user_rows user_seq].
    rewrite !map_map.
    rewrite (map_ext _ id Fid), (map_ext _ wx_open_id Fop).
    repeat split; [exact Hid|exact Hop|].
    apply Forall_map. eapply Forall_impl; [|exact Hseq].
    cbn. intros x Hx. now rewrite Fid.
Qed.

Lemma updateUserPhone_frame_witness :
  let t := {| user_rows := [ {| id := 1; wx_open_id := lit "o1"; phone := None;
                                vip_level := lit "free"; settings := lit "{}";
                                created_at := lit "t0"; updated_at := lit "t0" |} ];
              user_seq := 1 |} in
  getUserById (updateUserPhone t 1 (lit "138") (lit "t1")) 2 = getUserById t 2
  /\ updateUserPhone t 2 (lit "138") (lit "t1") = t.
Proof.
  cbv zeta. split.
  - apply (proj1 (proj2 (updateUserPhone_frame _ 1 (lit "138") (lit "t1")))).
    discriminate.
  - apply (proj1 (proj2 (proj2 (proj2 (proj2
             (updateUserPhone_frame _ 2 (lit "138") (lit "t1"))))))).
    reflexivity.
Defined.

End UsersTable.

(** ** Logging in, the middleware and the phone number *)

Module AuthFacts.
Import Db Auth.

Lemma strip_prefix_spec (w s r : jsstring) :
  strip_prefix w s = Some r <-> s = w ++ r.
Proof.
  revert s. induction w as [|a w IH]; intros s; cbn [strip_prefix app].
  - split; [intros H; now injection H|intros ->; reflexivity].
  - destruct s as [|b s]; [split; discriminate|].
    destruct (N.eqb_spec a b) as [->|Hab].
    + rewrite IH. split; [intros ->; reflexivity|intros H; now injection H].
    + split; [discriminate|intros H; injection H as -> _; contradiction].
Qed.

Lemma code2Session_return (config : Wechat.WechatConfig) (c : jsstring)
      (answer : axios_result WechatApi.SessionData) (n : nat)
      (session : WechatApi.Code2SessionResult) :
  WechatApi.code2Session config c answer = (n, Return session) -> n = 1.
Proof.
  unfold WechatApi.code2Session.
  destruct (WechatApi.code2Session_begin config c) as [r|req] eqn:B.
  - unfold WechatApi.code2Session_begin in B.
    destruct (negb (nonempty (Wechat.appId config))
              || negb (nonempty (Wechat.secret config))); [|discriminate].
    injection B as <-. discriminate.
  - intros H. now injection H.
Qed.

Lemma created_row_dto (i : Z) (o : jsstring) (ph : option jsstring) (now : jsstring) :
  toUserDto {| id := i; wx_open_id := o; Db.phone := ph; vip_level := lit "free";
               settings := lit "{}"; created_at := now; updated_at := now |}
  = Some {| dto_id := i; dto_wxOpenId := o; dto_phone := ph;
            dto_vipLevel := lit "free"; dto_settings := JObj [];
            dto_createdAt := now; dto_updatedAt := now |}.
Proof. reflexivity. Qed.

Lemma created_row_found (t : users_table) (o : jsstring) (row : UserRow) :
  findUserByWxOpenId t o = None -> wx_open_id row = to_text o ->
  findUserByWxOpenId {| user_rows := user_rows t ++ [row];
                        user_seq := (user_seq t + 1)%Z |} o = Some row.
Proof.
  intros H E. unfold findUserByWxOpenId in *. cbn [user_rows].
  rewrite UsersTable.find_app_split, H. cbn [find].
  now rewrite E, UsersTable.eqb_refl.
Qed.

(** X9: POST /login finds the user of the openid or creates it, never
    both.  It answers 400 without a code and 500 without a JWT secret,
    with no request made, and 401 when [code2Session] throws or the
    settings of the user found do not parse; in all these cases the users
    table is left as it was, and on a table with unique openids the INSERT
    never fails.  On success the table holds exactly one row for the
    openid of the session, the row the returned user describes, and the
    token is signed, at the clock of this login, for the id and openid of
    that row: an openid already known leaves the table unchanged, a new
    one appends one row with the next id and the text of the openid.
    Logging in again with the same code and answer returns the same user
    and changes nothing; its token is signed for the same payload at the
    clock of the later login.  The table keeps its ids and openids
    unique. *)
Theorem login_find_or_create
        (sign : JwtPayload -> jsstring -> Z -> jsstring)
        (secret : jsstring) (config : Wechat.WechatConfig)
        (users users' : users_table) (code : jsval)
        (answer : axios_result WechatApi.SessionData) (now : jsstring)
        (iat : Z) (n : nat) (resp : login_response) :
  users_ok users ->
  login sign secret config users code answer now iat = (users', n, resp) ->
  users_ok users'
  /\ match resp with
     | LoginNoCode => users' = users /\ n = 0 /\ string_field code = None
     | LoginNoJwt =>
         users' = users /\ n = 0 /\ secret = []
         /\ exists c, string_field code = Some c
     | LoginRejected (SessionFailed e) =>
         users' = users /\ secret <> []
         /\ exists c, string_field code = Some c
                      /\ WechatApi.code2Session config c answer = (n, Throw e)
     | LoginRejected InsertFailed => False
     | LoginRejected SettingsUnreadable =>
         users' = users /\ secret <> []
         /\ exists c session old,
              string_field code = Some c
              /\ WechatApi.code2Session config c answer = (n, Return session)
              /\ findUserByWxOpenId users (WechatApi.openid session) = Some old
              /\ toUserDto old = None
     | LoginOk token dto =>
         secret <> []
         /\ exists c session row,
           string_field code = Some c
           /\ WechatApi.code2Session config c answer = (1, Return session)
           /\ n = 1
           /\ findUserByWxOpenId users' (WechatApi.openid session) = Some row
           /\ getUserById users' (id row) = Some row
           /\ toUserDto row = Some dto
           /\ token = sign {| userId := id row; wxOpenId := wx_open_id row |}
                           secret iat
           /\ (forall old,
                 findUserByWxOpenId users (WechatApi.openid session) = Some old ->
                 users' = users /\ row = old)
           /\ (findUserByWxOpenId users (WechatApi.openid session) = None ->
               user_rows users' = user_rows users ++ [row]
               /\ id row = (user_seq users + 1)%Z
               /\ wx_open_id row = to_text (WechatApi.openid session))
           /\ (forall now2 iat2,
                 login sign secret config users' code answer now2 iat2
                 = (users', 1,
                    LoginOk (sign {| userId := id row;
                                     wxOpenId := wx_open_id row |} secret iat2)
                            dto))
     end.
Proof.
  intros Hok. unfold login.
  destruct (string_field code) as [c|] eqn:Ec;
    [|intros H; injection H as <- <- <-; auto].
  destruct secret as [|s0 s]; cbn [nonempty negb].
  { intros H; injection H as <- <- <-. split; [exact Hok|].
    split; [reflexivity|]. split; [reflexivity|]. split; [reflexivity|].
    exists c. reflexivity. }
  assert (Hsec : s0 :: s <> []) by discriminate.
  destruct (WechatApi.code2Session config c answer) as [m [session|e]] eqn:E2.
  2:{ intros H; injection H as <- <- <-. split; [exact Hok|].
      split; [reflexivity|]. split; [exact Hsec|]. exists c. auto. }
  pose proof (code2Session_return config c answer m session E2) as ->.
  destruct (findUserByWxOpenId users (WechatApi.openid session)) as [old|] eqn:Ef.
  - destruct (toUserDto old) as [dto|] eqn:Ed;
      intros H; injection H as <- <- <-.
    2:{ split; [exact Hok|]. split; [reflexivity|]. split; [exact Hsec|].
        exists c, session, old. auto. }
    split; [exact Hok|]. split; [exact Hsec|].
    destruct (UsersTable.findUser_openid users _ old Ef) as [_ Hin].
    exists c, session, old.
    split; [reflexivity|]. split; [exact E2|]. split; [reflexivity|].
    split; [exact Ef|].
    split; [exact (UsersTable.getUserById_found users old Hok Hin)|].
    split; [exact Ed|]. split; [reflexivity|].
    split; [intros o H0; split; congruence|].
    split; [intros H0; congruence|].
    intros now2 iat2. now rewrite Ef, Ed.
  - destruct (UsersTable.createUser_new users (WechatApi.openid session) None now
                Hok Ef) as [Ec' Hok'].
    cbv zeta in Ec', Hok'. rewrite Ec', created_row_dto.
    intros H. injection H as <- <- <-. split; [exact Hok'|].
    split; [exact Hsec|].
    pose proof (created_row_found users (WechatApi.openid session)
                  {| id := (user_seq users + 1)%Z;
                     wx_open_id := to_text (WechatApi.openid session);
                     Db.phone := option_map to_text None;
                     vip_level := lit "free"; settings := lit "{}";
                     created_at := to_text now; updated_at := to_text now |}
                  Ef eq_refl) as Found.
    eexists c, session, _. split; [reflexivity|]. split; [exact E2|].
    split; [reflexivity|]. split; [exact Found|].
    split.
    { apply (UsersTable.getUserById_found _ _ Hok').
      cbn [user_rows]. apply in_or_app. right. now left. }
    split; [apply created_row_dto|]. split; [reflexivity|].
    split; [intros old H; congruence|].
    split; [intros _; repeat split; reflexivity|].
    intros now2 iat2.
    match type of Found with _ = ?r =>
      match goal with |- context [findUserByWxOpenId ?t ?o] =>
        replace (findUserByWxOpenId t o) with r by (symmetry; exact Found)
      end
    end.
    reflexivity.
Qed.

Lemma login_find_or_create_witness :
  let config := {| Wechat.appId := lit "wx1"; Wechat.secret := lit "s" |} in
  let answer := Resolved {| WechatApi.data_openid := Some (lit "o1");
                            WechatApi.data_session_key := Some (lit "k");
                            WechatApi.data_unionid := None;
                            WechatApi.errcode := None;
                            WechatApi.errmsg := None |} in
  users_ok (fst (fst (login (fun _ s _ => s) (lit "jwt") config
                            {| user_rows := []; user_seq := 0 |}
                            (Some (JStr (lit "c"))) answer (lit "t0") 7))).
Proof.
  cbv zeta.
  match goal with
  | |- users_ok (fst (fst (login ?sg ?s ?cfg ?t ?c ?ans ?now ?iat))) =>
    refine (proj1 (login_find_or_create sg s cfg t
                     (fst (fst (login sg s cfg t c ans now iat))) c ans now iat
                     (snd (fst (login sg s cfg t c ans now iat)))
                     (snd (login sg s cfg t c ans now iat)) _ _))
  end.
  - repeat split; constructor.
  - reflexivity.
Defined.

(** X10: [authMiddleware] calls [next()] exactly when the header is
    [Bearer ] followed by a non-empty token, the JWT secret is set, the
    token verifies and its user id is in the table; [req.user] is then
    read from the table row, not from the token; and the handlers that run
    next and look the user up again find that row, so that the 401 of
    GET /me cannot occur. *)
Theorem authMiddleware_next
        (verify : jsstring -> jsstring -> option JwtPayload)
        (secret : jsstring) (users : users_table)
        (authorization : option jsstring) (u : ReqUser) :
  (authMiddleware verify secret users authorization = Next u
   <-> exists token payload row,
        authorization = Some (lit "Bearer " ++ token)
        /\ token <> [] /\ secret <> []
        /\ verify token secret = Some payload
        /\ getUserById users (userId payload) = Some row
        /\ u = {| req_id := id row; req_wxOpenId := wx_open_id row |})
  /\ (authMiddleware verify secret users authorization = Next u ->
      exists row,
        getUserById users (req_id u) = Some row
        /\ req_wxOpenId u = wx_open_id row
        /\ me users (Some u) = match toUserDto row with
                               | Some dto => MeOk dto
                               | None => MeThrows
                               end).
Proof.
  assert (Fwd : authMiddleware verify secret users authorization = Next u ->
                exists token payload row,
                  authorization = Some (lit "Bearer " ++ token)
                  /\ token <> [] /\ secret <> []
                  /\ verify token secret = Some payload
                  /\ getUserById users (userId payload) = Some row
                  /\ u = {| req_id := id row; req_wxOpenId := wx_open_id row |}).
  { unfold authMiddleware.
    destruct authorization as [auth|]; [|discriminate].
    destruct (strip_prefix (lit "Bearer ") auth) as [[|c t]|] eqn:Ep;
      try discriminate.
    apply strip_prefix_spec in Ep.
    destruct secret as [|s0 s]; [discriminate|]. cbn [nonempty negb].
    destruct (verify (c :: t) (s0 :: s)) as [payload|] eqn:Ev; [|discriminate].
    destruct (getUserById users (userId payload)) as [row|] eqn:Eg; [|discriminate].
    intros H. injection H as <-.
    exists (c :: t), payload, row. subst auth.
    repeat split; auto; discriminate. }
  split; [split; [exact Fwd|]|].
  - intros [token [payload [row [-> [Ht [Hs [Ev [Eg ->]]]]]]]].
    unfold authMiddleware.
    rewrite (proj2 (strip_prefix_spec (lit "Bearer ") _ token) eq_refl).
    destruct token as [|c t]; [contradiction|].
    destruct secret as [|s0 s]; [contradiction|]. cbn [nonempty negb].
    now rewrite Ev, Eg.
  - intros H. destruct (Fwd H) as [token [payload [row [_ [_ [_ [_ [Eg ->]]]]]]]].
    destruct (UsersTable.getUserById_id users _ row Eg) as [Eid _].
    exists row. cbn [req_id req_wxOpenId]. unfold me. cbn [req_id].
    rewrite Eid, Eg. auto.
Qed.

Lemma authMiddleware_next_witness :
  let users := {| user_rows := [ {| id := 1; wx_open_id := lit "o1"; Db.phone := None;
                                    vip_level := lit "free"; settings := lit "{}";
                                    created_at := lit "t0"; updated_at := lit "t0" |} ];
                  user_seq := 1 |} in
  let verify := fun (token _ : jsstring) =>
                  Some {| userId := 1; wxOpenId := token |} in
  exists row,
    getUserById users 1 = Some row
    /\ lit "o1" = wx_open_id row
    /\ me users (Some {| req_id := 1; req_wxOpenId := lit "o1" |})
       = match toUserDto row with
         | Some dto => MeOk dto
         | None => MeThrows
         end.
Proof.
  cbv zeta.
  apply (proj2 (authMiddleware_next
                  (fun (token _ : jsstring) => Some {| userId := 1; wxOpenId := token |})
                  (lit "jwt")
                  {| user_rows := [ {| id := 1; wx_open_id := lit "o1"; Db.phone := None;
                                       vip_level := lit "free"; settings := lit "{}";
                                       created_at := lit "t0";
                                       updated_at := lit "t0" |} ];
                     user_seq := 1 |}
                  (Some (lit "Bearer abc"))
                  {| req_id := 1; req_wxOpenId := lit "o1" |})).
  reflexivity.
Defined.

End AuthFacts.

(** ** From the login to the handlers behind the middleware *)

Module AuthFlow.
Import Db Auth.

Lemma toUserDto_fields (row : UserRow) (dto : UserDto) :
  toUserDto row = Some dto ->
  dto_id dto = id row /\ dto_wxOpenId dto = wx_open_id row
  /\ dto_phone dto = Db.phone row /\ dto_vipLevel dto = vip_level row
  /\ dto_createdAt dto = created_at row /\ dto_updatedAt dto = updated_at row.
Proof.
  unfold toUserDto.
  destruct (if nonempty (settings row) then JSON_parse (settings row)
            else Some (JObj [])); [|discriminate].
  intros H. injection H as <-. repeat split.
Qed.

(** The row behind a successful login. *)
Lemma login_ok_row (sign : JwtPayload -> jsstring -> Z -> jsstring)
      (secret : jsstring) (config : Wechat.WechatConfig)
      (users users' : users_table) (code : jsval)
      (answer : axios_result WechatApi.SessionData) (now : jsstring) (iat : Z)
      (n : nat) (token : jsstring) (dto : UserDto) :
  users_ok users ->
  login sign secret config users code answer now iat
  = (users', n, LoginOk token dto) ->
  exists row,
    getUserById users' (id row) = Some row
    /\ toUserDto row = Some dto
    /\ token = sign {| userId := id row; wxOpenId := wx_open_id row |} secret iat
    /\ secret <> [].
Proof.
  intros Hok. unfold login.
  destruct (string_field code) as [c|]; [|discriminate].
  destruct secret as [|s0 s]; [discriminate|]. cbn [nonempty negb].
  destruct (WechatApi.code2Session config c answer) as [m [session|e]];
    [|discriminate].
  destruct (findUserByWxOpenId users (WechatApi.openid session)) as [old|] eqn:Ef.
  - destruct (toUserDto old) as [d|] eqn:Ed; [|discriminate].
    intros H. injection H as <- _ <- <-.
    destruct (UsersTable.findUser_openid users _ old Ef) as [_ Hin].
    exists old. repeat split; auto.
    + exact (UsersTable.getUserById_found users old Hok Hin).
    + discriminate.
  - destruct (UsersTable.createUser_new users (WechatApi.openid session) None now
                Hok Ef) as [Ec Hok'].
    cbv zeta in Ec, Hok'. rewrite Ec.
    match goal with
    | |- context [toUserDto ?r] => destruct (toUserDto r) as [d|] eqn:Ed;
                                   [|discriminate]; intros H; exists r
    end.
    injection H as <- _ <- <-.
    repeat split; auto.
    + apply (UsersTable.getUserById_found _ _ Hok').
      cbn [user_rows]. apply in_or_app. right. now left.
    + discriminate.
Qed.

(** X11: with a JWT library whose [verify] gives back the payload that
    [sign] was given, under the same secret, and whose tokens are never
    empty, the token of a successful login passes [authMiddleware] when it
    is sent as [Bearer <token>]: [req.user] is the user the login returned,
    and GET /me answers with the very user object of the login response.
    The assumption bears on the tokens signed at the clock of this
    login. *)
Theorem login_then_me
        (sign : JwtPayload -> jsstring -> Z -> jsstring)
        (verify : jsstring -> jsstring -> option JwtPayload)
        (secret : jsstring) (config : Wechat.WechatConfig)
        (users users' : users_table) (code : jsval)
        (answer : axios_result WechatApi.SessionData) (now : jsstring) (iat : Z)
        (n : nat) (token : jsstring) (dto : UserDto) :
  (forall p, verify (sign p secret iat) secret = Some p) ->
  (forall p, sign p secret iat <> []) ->
  users_ok users ->
  login sign secret config users code answer now iat
  = (users', n, LoginOk token dto) ->
  authMiddleware verify secret users' (Some (lit "Bearer " ++ token))
  = Next {| req_id := dto_id dto; req_wxOpenId := dto_wxOpenId dto |}
  /\ me users' (Some {| req_id := dto_id dto; req_wxOpenId := dto_wxOpenId dto |})
     = MeOk dto.
Proof.
  intros Hv Hs Hok L.
  destruct (login_ok_row sign secret config users users' code answer now iat n
              token dto Hok L) as [row [Eg [Ed [-> Hsec]]]].
  destruct (toUserDto_fields row dto Ed) as [-> [-> _]].
  split.
  - unfold authMiddleware.
    rewrite (proj2 (AuthFacts.strip_prefix_spec (lit "Bearer ") _ _) eq_refl).
    pose proof (Hs {| userId := id row; wxOpenId := wx_open_id row |}) as Hne.
    pose proof (Hv {| userId := id row; wxOpenId := wx_open_id row |}) as Hve.
    destruct (sign {| userId := id row; wxOpenId := wx_open_id row |} secret iat)
      as [|c t]; [contradiction|].
    destruct secret as [|s0 s]; [contradiction|]. cbn [nonempty negb].
    rewrite Hve. cbn [userId]. now rewrite Eg.
  - unfold me. cbn [req_id]. now rewrite Eg, Ed.
Qed.

Lemma login_then_me_witness :
  let sign := fun (p : JwtPayload) (_ : jsstring) (iat : Z) =>
                Z.abs_N (userId p) :: (if (userId p <? 0)%Z then 1%N else 0%N)
                :: Z.abs_N iat :: wxOpenId p in
  let verify := fun (token _ : jsstring) =>
                  match token with
                  | m :: sg :: _ :: rest =>
                      Some {| userId := if (sg =? 0)%N then Z.of_N m
                                        else (- Z.of_N m)%Z;
                              wxOpenId := rest |}
                  | _ => None
                  end in
  let config := {| Wechat.appId := lit "wx1"; Wechat.secret := lit "s" |} in
  let answer := Resolved {| WechatApi.data_openid := Some (lit "o1");
                            WechatApi.data_session_key := Some (lit "k");
                            WechatApi.data_unionid := None;
                            WechatApi.errcode := None;
                            WechatApi.errmsg := None |} in
  let dto := {| dto_id := 1; dto_wxOpenId := lit "o1"; dto_phone := None;
                dto_vipLevel := lit "free"; dto_settings := JObj [];
                dto_createdAt := lit "t0"; dto_updatedAt := lit "t0" |} in
  let users' := fst (fst (login sign (lit "jwt") config
                                {| user_rows := []; user_seq := 0 |}
                                (Some (JStr (lit "c"))) answer (lit "t0") 7)) in
  me users' (Some {| req_id := 1; req_wxOpenId := lit "o1" |}) = MeOk dto.
Proof.
  intros sign verify config answer dto users'.
  refine (proj2 (login_then_me sign verify (lit "jwt") config
                   {| user_rows := []; user_seq := 0 |} users'
                   (Some (JStr (lit "c"))) answer (lit "t0") 7 1
                   (sign {| userId := 1; wxOpenId := lit "o1" |} (lit "jwt") 7%Z)
                   dto _ _ _ _)).
  - intros [u w]. unfold sign, verify. cbn [userId wxOpenId].
    destruct u as [|q|q]; reflexivity.
  - intros p. unfold sign. discriminate.
  - repeat split; constructor.
  - reflexivity.
Defined.

Lemma getUserById_updated (t : users_table) (u : Z) (p now : jsstring) :
  getUserById (updateUserPhone t u p now) u
  = option_map (with_phone (to_text p) (to_text now)) (getUserById t u).
Proof.
  set (f := fun r : UserRow =>
              if (id r =? u)%Z then with_phone (to_text p) (to_text now) r
              else r).
  assert (U : updateUserPhone t u p now
              = {| user_rows := map f (user_rows t); user_seq := user_seq t |})
    by reflexivity.
  assert (Fid : forall x, id (f x) = id x)
    by (intros x; unfold f; destruct (id x =? u)%Z; reflexivity).
  rewrite U. unfold getUserById. cbn [user_rows].
  rewrite UsersTable.find_map_same by (intros x; now rewrite Fid).
  destruct (find _ (user_rows t)) as [r|] eqn:E; [|reflexivity].
  apply find_some in E. destruct E as [_ E]. cbn [option_map].
  unfold f. now rewrite E.
Qed.

(** X12: POST /phone writes to the users table only after
    [getPhoneNumber] returned.  Without a code the answer is a 400, and
    with a code but without [req.user] a 401: nothing is requested and
    neither the table nor the token cache changes.  With both, the lookup
    is made; when it throws, the answer is a 400 and the table is left as
    it was.  Once the lookup returned, the table is the one
    [updateUserPhone] leaves, also when the handler then answers 400
    because the settings of the user do not parse (or the user is gone, in
    which case nothing changed); an answer with [code: 0] carries the user
    of [req.user] with the text of the pure phone number of the lookup and
    of the time of the update. *)
Theorem phone_writes_after_lookup
        (config : Wechat.WechatConfig) (cache cache' : option Wechat.CachedToken)
        (users users' : users_table) (user : option ReqUser) (code : jsval)
        (now : Z) (tokenAnswer : axios_result Wechat.TokenData) (later : Z)
        (phoneAnswer : axios_result WechatApi.PhoneData) (nowIso : jsstring)
        (reqs : list WechatApi.request) (resp : phone_response) :
  Auth.phone config cache users user code now tokenAnswer later phoneAnswer nowIso
  = (cache', users', reqs, resp) ->
  match resp with
  | PhoneNoCode =>
      users' = users /\ cache' = cache /\ reqs = []
      /\ string_field code = None
  | PhoneNotLoggedIn =>
      users' = users /\ cache' = cache /\ reqs = []
      /\ user = None /\ exists c, string_field code = Some c
  | PhoneRejected (LookupFailed e) =>
      users' = users
      /\ exists c u,
           string_field code = Some c /\ user = Some u
           /\ WechatApi.getPhoneNumber config cache c now tokenAnswer later
                                       phoneAnswer = (cache', reqs, Throw e)
  | PhoneRejected PhoneUserUnreadable =>
      exists c u info,
        string_field code = Some c /\ user = Some u
        /\ WechatApi.getPhoneNumber config cache c now tokenAnswer later
                                    phoneAnswer = (cache', reqs, Return info)
        /\ users' = updateUserPhone users (req_id u)
                                    (WechatApi.purePhoneNumber info) nowIso
        /\ match getUserById users (req_id u) with
           | None => users' = users
           | Some row => JSON_parse (settings row) = None
           end
  | PhoneOk dto =>
      exists c u info row,
        string_field code = Some c /\ user = Some u
        /\ WechatApi.getPhoneNumber config cache c now tokenAnswer later
                                    phoneAnswer = (cache', reqs, Return info)
        /\ users' = updateUserPhone users (req_id u)
                                    (WechatApi.purePhoneNumber info) nowIso
        /\ getUserById users (req_id u) = Some row
        /\ toUserDto (with_phone (to_text (WechatApi.purePhoneNumber info))
                                 (to_text nowIso) row)
           = Some dto
        /\ dto_id dto = req_id u
        /\ dto_phone dto = Some (to_text (WechatApi.purePhoneNumber info))
        /\ dto_updatedAt dto = to_text nowIso
  end.
Proof.
  unfold Auth.phone.
  destruct (string_field code) as [c|] eqn:Ec;
    [|intros H; injection H as <- <- <- <-; auto].
  destruct user as [u|].
  2:{ intros H; injection H as <- <- <- <-.
      repeat (split; [reflexivity|]). exists c. reflexivity. }
  destruct (WechatApi.getPhoneNumber config cache c now tokenAnswer later
                                     phoneAnswer) as [[ch rq] [info|e]] eqn:Eg.
  - rewrite getUserById_updated.
    destruct (getUserById users (req_id u)) as [row|] eqn:Er; cbn [option_map].
    + destruct (UsersTable.getUserById_id users _ row Er) as [Eid _].
      destruct (toUserDto (with_phone (to_text (WechatApi.purePhoneNumber info))
                                      (to_text nowIso) row))
        as [dto|] eqn:Ed; intros H; injection H as <- <- <- <-.
      * destruct (toUserDto_fields _ dto Ed) as [D1 [_ [D3 [_ [_ D6]]]]].
        cbn [with_phone id Db.phone updated_at] in D1, D3, D6.
        exists c, u, info, row.
        split; [reflexivity|]. split; [reflexivity|]. split; [exact Eg|].
        split; [reflexivity|]. split; [exact Er|]. split; [exact Ed|].
        split; [congruence|]. split; [exact D3|exact D6].
      * exists c, u, info.
        split; [reflexivity|]. split; [reflexivity|]. split; [exact Eg|].
        split; [reflexivity|]. rewrite Er.
        unfold toUserDto in Ed. cbn [with_phone settings] in Ed.
        destruct (nonempty (settings row)); [|discriminate].
        destruct (JSON_parse (settings row)); [discriminate|reflexivity].
    + intros H. injection H as <- <- <- <-.
      exists c, u, info.
      split; [reflexivity|]. split; [reflexivity|]. split; [exact Eg|].
      split; [reflexivity|]. rewrite Er.
      unfold updateUserPhone. destruct users as [rows sq].
      cbn [user_rows user_seq]. f_equal.
      unfold getUserById in Er. cbn [user_rows] in Er.
      pose proof (find_none _ _ Er) as N. cbn beta in N.
      clear Er Eg. induction rows as [|x rows IH]; [reflexivity|].
      cbn [map]. rewrite IH by (intros y Hy; apply N; now right).
      now rewrite (N x (or_introl eq_refl)).
  - intros H. injection H as <- <- <- <-. split; [reflexivity|].
    exists c, u. split; [reflexivity|]. split; [reflexivity|exact Eg].
Qed.

Lemma phone_writes_after_lookup_witness :
  let config := {| Wechat.appId := lit "wx1"; Wechat.secret := lit "s" |} in
  let cache := Some {| Wechat.token := lit "T"; Wechat.expireAt := 7200010 |} in
  let users := {| user_rows := [ {| id := 1; wx_open_id := lit "o1";
                                    Db.phone := None;
                                    vip_level := lit "free"; settings := lit "{}";
                                    created_at := lit "t0"; updated_at := lit "t0" |} ];
                  user_seq := 1 |} in
  let answer := Resolved {| WechatApi.phone_errcode := None;
                            WechatApi.phone_errmsg := None;
                            WechatApi.phone_info :=
                              Some {| WechatApi.phoneNumber := lit "+86138";
                                      WechatApi.purePhoneNumber := lit "138" |} |} in
  exists dto,
    snd (Auth.phone config cache users
                    (Some {| req_id := 1; req_wxOpenId := lit "o1" |})
                    (Some (JStr (lit "pc"))) 0 (Rejected []) 0 answer (lit "t1"))
    = PhoneOk dto
    /\ dto_updatedAt dto = lit "t1".
Proof.
  intros config cache users answer.
  pose (X := Auth.phone config cache users
                        (Some {| req_id := 1; req_wxOpenId := lit "o1" |})
                        (Some (JStr (lit "pc"))) 0 (Rejected []) 0 answer (lit "t1")).
  destruct (phone_writes_after_lookup
              config cache (fst (fst (fst X))) users (snd (fst (fst X)))
              (Some {| req_id := 1; req_wxOpenId := lit "o1" |})
              (Some (JStr (lit "pc"))) 0 (Rejected []) 0 answer (lit "t1")
              (snd (fst X)) (snd X) eq_refl)
    as [c [u [info [row [_ [_ [_ [_ [_ [_ [_ [_ D6]]]]]]]]]]]].
  eexists. split; [reflexivity|exact D6].
Defined.

End AuthFlow.

(** ** The emotion_cookies table *)

Module DaysTable.
Import Db.

Lemma key_inj {A : Type} (key : A -> Z) (l : list A) (a b : A) :
  NoDup (map key l) -> In a l -> In b l -> key a = key b -> a = b.
Proof.
  induction l as [|x l IH]; intros Hnd Ha Hb E; [contradiction|].
  cbn [map] in Hnd. inversion Hnd as [|? ? Hx Hl]; subst.
  destruct Ha as [->|Ha], Hb as [->|Hb]; auto.
  - exfalso. apply Hx. rewrite E. now apply in_map.
  - exfalso. apply Hx. rewrite <- E. now apply in_map.
Qed.

Lemma is_live_spec (u : Z) (day : jsstring) (r : EmotionDayRow) :
  is_live u day r = true <-> live_day u day r.
Proof.
  unfold is_live, live_day.
  rewrite !andb_true_iff, !Z.eqb_eq, StructuredOutput.eqb_eq. tauto.
Qed.

Lemma existing_day_find (t : days_table) (u : Z) (day : jsstring) :
  existing_day t u day = find (is_live u (to_text day)) (day_rows t).
Proof. reflexivity. Qed.

Lemma existing_day_live (t : days_table) (u : Z) (day : jsstring)
      (e : EmotionDayRow) :
  existing_day t u day = Some e ->
  In e (day_rows t) /\ live_day u (to_text day) e.
Proof.
  rewrite existing_day_find. intros H. apply find_some in H.
  destruct H as [H1 H2]. split; [exact H1|]. now apply is_live_spec.
Qed.

Lemma existing_day_none (t : days_table) (u : Z) (day : jsstring)
      (x : EmotionDayRow) :
  existing_day t u day = None -> In x (day_rows t) ->
  ~ live_day u (to_text day) x.
Proof.
  rewrite existing_day_find. intros H Hx L.
  pose proof (find_none _ _ H x Hx) as F. cbn beta in F.
  apply is_live_spec in L. congruence.
Qed.

(** The live row of a user and day is the one the SELECT finds. *)
Lemma existing_day_unique (t : days_table) (u : Z) (day : jsstring)
      (r : EmotionDayRow) :
  days_ok t -> one_day_each t ->
  In r (day_rows t) -> live_day u (to_text day) r ->
  existing_day t u day = Some r.
Proof.
  intros [Hid _] H1 Hr L.
  destruct (existing_day t u day) as [e|] eqn:E.
  - destruct (existing_day_live t u day e E) as [He Le]. f_equal.
    apply (key_inj day_id (day_rows t) e r Hid He Hr).
    exact (H1 e r u (to_text day) He Hr Le L).
  - exfalso. exact (existing_day_none t u day r E Hr L).
Qed.

Lemma touch_id (e : EmotionDayRow) (d now : jsstring) (r : EmotionDayRow) :
  day_id (touch e d now r) = day_id r.
Proof. unfold touch. destruct (day_id r =? day_id e)%Z; reflexivity. Qed.

Lemma touch_live (e : EmotionDayRow) (d now : jsstring) (r : EmotionDayRow)
      (u : Z) (day : jsstring) :
  is_live u day (touch e d now r) = is_live u day r.
Proof. unfold touch. destruct (day_id r =? day_id e)%Z; reflexivity. Qed.

(** The UPDATE branch, which asks nothing of the users table. *)
Lemma upsert_existing (users : users_table) (t : days_table) (u : Z)
      (day d now : jsstring) (e : EmotionDayRow) :
  days_ok t -> existing_day t u day = Some e ->
  upsertEmotionDay users t u day d now
  = Return ({| day_rows := map (touch e (to_text d) (to_text now)) (day_rows t);
               day_seq := day_seq t |},
            Some (with_data (to_text d) (to_text now) e)).
Proof.
  intros [Hid _] E. unfold upsertEmotionDay. rewrite E. cbv zeta.
  change (fun r : EmotionDayRow =>
            if (day_id r =? day_id e)%Z
            then {| day_id := day_id r; user_id := user_id r; date := date r;
                    data := to_text d; day_created_at := day_created_at r;
                    day_updated_at := to_text now; is_deleted := is_deleted r |}
            else r) with (touch e (to_text d) (to_text now)).
  do 2 f_equal. unfold day_by_id. cbn [day_rows].
  rewrite UsersTable.find_map_same by (intros x; now rewrite touch_id).
  destruct (existing_day_live t u day e E) as [He _].
  rewrite (UsersTable.find_by_key day_id (day_rows t) e Hid He).
  cbn [option_map]. unfold touch. now rewrite Z.eqb_refl.
Qed.

(** The INSERT branch, for a user the users table holds. *)
Lemma upsert_new (users : users_table) (t : days_table) (u : Z)
      (day d now : jsstring) :
  days_ok t -> existing_day t u day = None -> getUserById users u <> None ->
  upsertEmotionDay users t u day d now
  = Return ({| day_rows := day_rows t ++
                 [ {| day_id := (day_seq t + 1)%Z; user_id := u;
                      date := to_text day; data := to_text d;
                      day_created_at := to_text now;
                      day_updated_at := to_text now; is_deleted := 0%Z |} ];
               day_seq := (day_seq t + 1)%Z |},
            Some {| day_id := (day_seq t + 1)%Z; user_id := u;
                    date := to_text day; data := to_text d;
                    day_created_at := to_text now;
                    day_updated_at := to_text now; is_deleted := 0%Z |}).
Proof.
  intros [_ Hseq] E Hu. unfold upsertEmotionDay. rewrite E.
  destruct (getUserById users u) as [urow|]; [|contradiction]. cbv zeta.
  do 2 f_equal. unfold day_by_id. cbn [day_rows].
  rewrite UsersTable.find_app_split, UsersTable.find_absent.
  - cbn [find day_id]. now rewrite Z.eqb_refl.
  - intros x Hx. rewrite Forall_forall in Hseq. specialize (Hseq x Hx).
    apply Z.eqb_neq. lia.
Qed.

(** The INSERT branch, for a user the users table does not hold. *)
Lemma upsert_orphan (users : users_table) (t : days_table) (u : Z)
      (day d now : jsstring) :
  existing_day t u day = None -> getUserById users u = None ->
  upsertEmotionDay users t u day d now = Throw ForeignKeyFailed.
Proof. intros E Hu. unfold upsertEmotionDay. now rewrite E, Hu. Qed.

(** What one save does. *)
Lemma upsert_spec (users : users_table) (t : days_table) (u : Z)
      (day d now : jsstring) :
  days_ok t -> one_day_each t ->
  (existing_day t u day = None -> getUserById users u <> None) ->
  exists t' r,
    upsertEmotionDay users t u day d now = Return (t', Some r)
    /\ In r (day_rows t') /\ live_day u (to_text day) r
    /\ data r = to_text d /\ day_updated_at r = to_text now
    /\ days_ok t' /\ one_day_each t'
    /\ match existing_day t u day with
       | Some e => r = with_data (to_text d) (to_text now) e
                   /\ length (day_rows t') = length (day_rows t)
                   /\ day_seq t' = day_seq t
       | None => day_id r = (day_seq t + 1)%Z
                 /\ day_created_at r = to_text now
                 /\ day_rows t' = day_rows t ++ [r]
       end
    /\ (forall u' day', (u', to_text day') <> (u, to_text day) ->
          existing_day t' u' day' = existing_day t u' day').
Proof.
  intros Hok H1 Hu. pose proof Hok as [Hid Hseq].
  destruct (existing_day t u day) as [e|] eqn:E.
  - destruct (existing_day_live t u day e E) as [He Le].
    eexists. eexists.
    split; [exact (upsert_existing users t u day d now e Hok E)|].
    assert (Ids : map day_id (map (touch e (to_text d) (to_text now)) (day_rows t))
                  = map day_id (day_rows t)).
    { rewrite map_map. apply map_ext. intros x. apply touch_id. }
    split; [|split; [|split; [|split; [|split; [|split; [|split]]]]]].
    + cbn [day_rows]. apply in_map_iff. exists e. split; [|exact He].
      unfold touch. now rewrite Z.eqb_refl.
    + exact Le.
    + reflexivity.
    + reflexivity.
    + unfold days_ok. cbn [day_rows day_seq]. rewrite Ids. split; [exact Hid|].
      apply Forall_map. eapply Forall_impl; [|exact Hseq].
      cbn beta. intros x Hx. now rewrite touch_id.
    + intros a b u0 day0 Ha Hb La Lb. cbn [day_rows] in Ha, Hb.
      apply in_map_iff in Ha. destruct Ha as [a0 [<- Ha]].
      apply in_map_iff in Hb. destruct Hb as [b0 [<- Hb]].
      rewrite !touch_id. apply is_live_spec in La, Lb.
      rewrite touch_live in La, Lb. apply is_live_spec in La, Lb.
      exact (H1 a0 b0 u0 day0 Ha Hb La Lb).
    + split; [reflexivity|]. cbn [day_rows day_seq].
      split; [apply length_map|reflexivity].
    + intros u' day' Hne. rewrite !existing_day_find. cbn [day_rows].
      rewrite UsersTable.find_map_same by (intros x; apply touch_live).
      destruct (find (is_live u' (to_text day')) (day_rows t)) as [x|] eqn:Ex;
        [|reflexivity].
      cbn [option_map]. f_equal. apply find_some in Ex. destruct Ex as [Hx Lx].
      apply is_live_spec in Lx. unfold touch.
      destruct (Z.eqb_spec (day_id x) (day_id e)) as [Eid|_]; [|reflexivity].
      exfalso. apply Hne.
      pose proof (key_inj day_id (day_rows t) x e Hid Hx He Eid) as ->.
      destruct Lx as [<- [Lx _]]. destruct Le as [<- [Le _]].
      now rewrite <- Lx, <- Le.
  - eexists. eexists.
    split; [exact (upsert_new users t u day d now Hok E (Hu eq_refl))|].
    split; [|split; [|split; [|split; [|split; [|split; [|split]]]]]].
    + cbn [day_rows]. apply in_or_app. right. now left.
    + repeat split.
    + reflexivity.
    + reflexivity.
    + unfold days_ok. cbn [day_rows day_seq]. rewrite map_app. cbn [map day_id].
      split.
      * apply NoDup_app; [exact Hid|repeat constructor; intros []|].
        intros a Ha [<-|[]]. apply in_map_iff in Ha. destruct Ha as [x [Ex Hx]].
        rewrite Forall_forall in Hseq. specialize (Hseq x Hx). lia.
      * apply Forall_app. split.
        -- eapply Forall_impl; [|exact Hseq]. cbn beta. intros; lia.
        -- repeat constructor. cbn [day_id]. lia.
    + intros a b u0 day0 Ha Hb La Lb. cbn [day_rows] in Ha, Hb.
      apply in_app_or in Ha. apply in_app_or in Hb.
      destruct Ha as [Ha|[<-|[]]], Hb as [Hb|[<-|[]]].
      * exact (H1 a b u0 day0 Ha Hb La Lb).
      * exfalso. destruct Lb as [Lu [Ld _]]. cbn [user_id date] in Lu, Ld.
        subst u0 day0. exact (existing_day_none t u day a E Ha La).
      * exfalso. destruct La as [Lu [Ld _]]. cbn [user_id date] in Lu, Ld.
        subst u0 day0. exact (existing_day_none t u day b E Hb Lb).
      * reflexivity.
    + cbn [day_id day_created_at day_rows]. repeat split.
    + intros u' day' Hne. rewrite !existing_day_find. cbn [day_rows].
      rewrite UsersTable.find_app_split.
      destruct (find _ (day_rows t)) as [x|]; [reflexivity|].
      cbn [find]. unfold is_live at 1. cbn [user_id date is_deleted].
      destruct (Z.eqb_spec u u') as [->|_]; [|reflexivity].
      destruct (JsString.eqb (to_text day) (to_text day')) eqn:Ed; [|reflexivity].
      apply StructuredOutput.eqb_eq in Ed. exfalso. apply Hne. now rewrite Ed.
Qed.

(** X13: [upsertEmotionDay] on a table with unique row ids in which no
    user has two live rows for one day, dates being compared as the texts
    the database holds.  When the day has a live row, or the users table
    holds the user, it returns a row (never [undefined]): the live row of
    that user and day, holding the texts of the data and of the time of
    this save, and the one a later lookup finds for that user and any date
    of the same text.  It updates the existing row in place (same id, same
    creation time, no row added) or appends one row with the next id; the
    lookup for any other user or day answers as before; and the table
    again has unique ids and at most one live row per user and day.  When
    the day has no live row and the users table does not hold the user, the
    INSERT breaks the foreign key and the call throws. *)
Theorem upsertEmotionDay_one_row_per_day
        (users : users_table) (t : days_table) (u : Z) (day d now : jsstring) :
  days_ok t -> one_day_each t ->
  ((existing_day t u day = None -> getUserById users u <> None) ->
   exists t' r,
     upsertEmotionDay users t u day d now = Return (t', Some r)
     /\ live_day u (to_text day) r
     /\ data r = to_text d /\ day_updated_at r = to_text now
     /\ (forall day', to_text day' = to_text day ->
           existing_day t' u day' = Some r)
     /\ days_ok t' /\ one_day_each t'
     /\ match existing_day t u day with
        | Some e => day_id r = day_id e
                    /\ day_created_at r = day_created_at e
                    /\ length (day_rows t') = length (day_rows t)
        | None => day_id r = (day_seq t + 1)%Z
                  /\ day_created_at r = to_text now
                  /\ day_rows t' = day_rows t ++ [r]
        end
     /\ (forall u' day', (u', to_text day') <> (u, to_text day) ->
           existing_day t' u' day' = existing_day t u' day'))
  /\ (existing_day t u day = None -> getUserById users u = None ->
      upsertEmotionDay users t u day d now = Throw ForeignKeyFailed).
Proof.
  intros Hok H1. split; [|apply upsert_orphan].
  intros Hu.
  destruct (upsert_spec users t u day d now Hok H1 Hu)
    as [t' [r [E [Hr [L [Hd [Hn [Hok' [H1' [M F]]]]]]]]]].
  exists t', r.
  split; [exact E|]. split; [exact L|]. split; [exact Hd|]. split; [exact Hn|].
  split.
  { intros day' Hday. apply (existing_day_unique t' u day' r Hok' H1' Hr).
    now rewrite Hday. }
  split; [exact Hok'|]. split; [exact H1'|]. split; [|exact F].
  destruct (existing_day t u day) as [e|].
  - destruct M as [-> [M2 _]]. repeat split. exact M2.
  - exact M.
Qed.

Lemma upsertEmotionDay_one_row_per_day_witness :
  let users := {| user_rows := [ {| id := 1; wx_open_id := lit "o1";
                                    phone := None;
                                    vip_level := lit "vip"; settings := lit "{}";
                                    created_at := lit "t0"; updated_at := lit "t0" |} ];
                  user_seq := 1 |} in
  (exists t' r,
     upsertEmotionDay users {| day_rows := []; day_seq := 0 |} 1 (lit "2024-05-01")
                      (lit "{}") (lit "t0") = Return (t', Some r)
     /\ existing_day t' 1 (lit "2024-05-01") = Some r)
  /\ upsertEmotionDay users {| day_rows := []; day_seq := 0 |} 2 (lit "2024-05-01")
                      (lit "{}") (lit "t0") = Throw ForeignKeyFailed.
Proof.
  intros users.
  assert (Hok : days_ok {| day_rows := []; day_seq := 0 |}) by (split; constructor).
  assert (H1 : one_day_each {| day_rows := []; day_seq := 0 |})
    by (intros a b u day []).
  split.
  - destruct (proj1 (upsertEmotionDay_one_row_per_day
                       users {| day_rows := []; day_seq := 0 |} 1
                       (lit "2024-05-01") (lit "{}") (lit "t0") Hok H1))
      as [t' [r [E [_ [_ [_ [X _]]]]]]].
    + intros _. discriminate.
    + exists t', r. split; [exact E|exact (X (lit "2024-05-01") eq_refl)].
  - apply (proj2 (upsertEmotionDay_one_row_per_day
                    users {| day_rows := []; day_seq := 0 |} 2
                    (lit "2024-05-01") (lit "{}") (lit "t0") Hok H1));
      reflexivity.
Defined.

(** X14: for a user the users table holds (or whose day already has its
    live row), saving the same day twice keeps one row: the second save
    returns the row of the first with its id and creation time, the data
    and update time of the second, adds no row and hands out no new id;
    the last write wins. *)
Theorem upsertEmotionDay_last_write_wins
        (users : users_table) (t : days_table) (u : Z)
        (day d1 now1 d2 now2 : jsstring) :
  days_ok t -> one_day_each t ->
  (existing_day t u day = None -> getUserById users u <> None) ->
  exists t1 r1 t2,
    upsertEmotionDay users t u day d1 now1 = Return (t1, Some r1)
    /\ upsertEmotionDay users t1 u day d2 now2
       = Return (t2, Some (with_data (to_text d2) (to_text now2) r1))
    /\ length (day_rows t2) = length (day_rows t1)
    /\ day_seq t2 = day_seq t1
    /\ existing_day t2 u day = Some (with_data (to_text d2) (to_text now2) r1).
Proof.
  intros Hok H1 Hu.
  destruct (upsert_spec users t u day d1 now1 Hok H1 Hu)
    as [t1 [r1 [E1 [Hr1 [L1 [_ [_ [Hok1 [H11 _]]]]]]]]].
  pose proof (existing_day_unique t1 u day r1 Hok1 H11 Hr1 L1) as X1.
  assert (Hu1 : existing_day t1 u day = None -> getUserById users u <> None)
    by (rewrite X1; discriminate).
  destruct (upsert_spec users t1 u day d2 now2 Hok1 H11 Hu1)
    as [t2 [r2 [E2 [Hr2 [L2 [_ [_ [Hok2 [H12 [M _]]]]]]]]]].
  rewrite X1 in M. destruct M as [-> [M2 M3]].
  exists t1, r1, t2.
  split; [exact E1|]. split; [exact E2|]. split; [exact M2|].
  split; [exact M3|].
  exact (existing_day_unique t2 u day _ Hok2 H12 Hr2 L2).
Qed.

Lemma upsertEmotionDay_last_write_wins_witness :
  let users := {| user_rows := [ {| id := 1; wx_open_id := lit "o1";
                                    phone := None;
                                    vip_level := lit "vip"; settings := lit "{}";
                                    created_at := lit "t0"; updated_at := lit "t0" |} ];
                  user_seq := 1 |} in
  exists t1 r1 t2,
    upsertEmotionDay users {| day_rows := []; day_seq := 0 |} 1 (lit "2024-05-01")
                     (lit "a") (lit "t0") = Return (t1, Some r1)
    /\ upsertEmotionDay users t1 1 (lit "2024-05-01") (lit "b") (lit "t1")
       = Return (t2, Some (with_data (to_text (lit "b")) (to_text (lit "t1")) r1))
    /\ length (day_rows t2) = length (day_rows t1).
Proof.
  intros users.
  destruct (upsertEmotionDay_last_write_wins
              users {| day_rows := []; day_seq := 0 |} 1 (lit "2024-05-01")
              (lit "a") (lit "t0") (lit "b") (lit "t1"))
    as [t1 [r1 [t2 [E1 [E2 [Hl _]]]]]].
  - split; constructor.
  - intros a b u day [].
  - intros _. discriminate.
  - exists t1, r1, t2. split; [exact E1|]. split; [exact E2|exact Hl].
Defined.

End DaysTable.

(** ** Saving a day through the route *)

Module SaveDay.
Import Db Auth EmotionCookies.

(** X15: POST / of the emotion-cookies routes writes only for a VIP with
    a date: without [req.user], for a user the table no longer holds, for a
    level other than [vip] and for a missing, empty or non-string date the
    table of days is left as it was.  On a table with unique ids and one
    live row per user and day the handler never throws: the user it saves
    for is in the users table, so the foreign key holds.  The answer
    [code: 0] carries the id of the one live row of that user and day and
    the date as the database holds it (the text of the date sent), and
    that row then holds the text of the data sent. *)
Theorem save_day_gate
        (users : users_table) (days days' : days_table) (user : option ReqUser)
        (dateField : jsval) (dataJson now : jsstring) (resp : save_response) :
  days_ok days -> one_day_each days ->
  save_day users days user dateField dataJson now = (days', resp) ->
  match resp with
  | SaveNotLoggedIn =>
      days' = days
      /\ (forall u, user = Some u -> getUserById users (req_id u) = None)
  | SaveNotVip =>
      days' = days
      /\ exists u row, user = Some u /\ getUserById users (req_id u) = Some row
                       /\ vip_level row <> lit "vip"
  | SaveNoDate =>
      days' = days /\ string_field dateField = None
      /\ exists u row, user = Some u /\ getUserById users (req_id u) = Some row
                       /\ vip_level row = lit "vip"
  | Saved rowid day =>
      exists u row sent saved,
        user = Some u /\ getUserById users (req_id u) = Some row
        /\ vip_level row = lit "vip"
        /\ string_field dateField = Some sent
        /\ day = to_text sent
        /\ upsertEmotionDay users days (req_id u) sent dataJson now
           = Return (days', Some saved)
        /\ existing_day days' (req_id u) sent = Some saved
        /\ day_id saved = rowid /\ date saved = day
        /\ data saved = to_text dataJson
        /\ days_ok days' /\ one_day_each days'
  | SaveThrows => False
  end.
Proof.
  intros Hok H1. unfold save_day.
  destruct user as [u|];
    [|intros H; injection H as <- <-; split; [reflexivity|discriminate]].
  destruct (getUserById users (req_id u)) as [row|] eqn:Er.
  2:{ intros H; injection H as <- <-. split; [reflexivity|].
      intros u0 E. injection E as <-. exact Er. }
  destruct (UsersTable.getUserById_id users _ row Er) as [Eid _].
  destruct (JsString.eqb (vip_level row) (lit "vip")) eqn:Ev; cbn [negb].
  2:{ intros H; injection H as <- <-. split; [reflexivity|].
      exists u, row. split; [reflexivity|]. split; [exact Er|]. intros E.
      apply StructuredOutput.eqb_eq in E. congruence. }
  apply StructuredOutput.eqb_eq in Ev.
  destruct (string_field dateField) as [day|] eqn:Ed.
  2:{ intros H; injection H as <- <-. split; [reflexivity|].
      split; [reflexivity|]. exists u, row. auto. }
  rewrite Eid.
  assert (Hu : existing_day days (req_id u) day = None ->
               getUserById users (req_id u) <> None)
    by (intros _; rewrite Er; discriminate).
  destruct (DaysTable.upsert_spec users days (req_id u) day dataJson now Hok H1 Hu)
    as [t' [r [E [Hr [L [Hd [_ [Hok' [H1' _]]]]]]]]].
  rewrite E. intros H. injection H as <- <-.
  destruct L as [Lu [Ld Ldel]].
  exists u, row, day, r.
  split; [reflexivity|]. split; [exact Er|]. split; [exact Ev|].
  split; [reflexivity|]. split; [exact Ld|]. split; [exact E|].
  split.
  { apply (DaysTable.existing_day_unique t' (req_id u) day r Hok' H1' Hr).
    repeat split; assumption. }
  split; [reflexivity|]. split; [reflexivity|]. split; [exact Hd|].
  split; [exact Hok'|exact H1'].
Qed.

Lemma save_day_gate_witness :
  let users := {| user_rows := [ {| id := 1; wx_open_id := lit "o1";
                                    Db.phone := None;
                                    vip_level := lit "free"; settings := lit "{}";
                                    created_at := lit "t0"; updated_at := lit "t0" |} ];
                  user_seq := 1 |} in
  fst (save_day users {| day_rows := []; day_seq := 0 |}
                (Some {| req_id := 1; req_wxOpenId := lit "o1" |})
                (Some (JStr (lit "2024-05-01"))) (lit "{}") (lit "t1"))
  = {| day_rows := []; day_seq := 0 |}.
Proof.
  intros users.
  pose (X := save_day users {| day_rows := []; day_seq := 0 |}
                      (Some {| req_id := 1; req_wxOpenId := lit "o1" |})
                      (Some (JStr (lit "2024-05-01"))) (lit "{}") (lit "t1")).
  refine (proj1 (save_day_gate users {| day_rows := []; day_seq := 0 |} (fst X)
                   (Some {| req_id := 1; req_wxOpenId := lit "o1" |})
                   (Some (JStr (lit "2024-05-01"))) (lit "{}") (lit "t1")
                   (snd X) _ _ eq_refl)).
  - split; constructor.
  - intros a b u day [].
Defined.

End SaveDay.

(** ** The snapshot filter *)

Module SnapshotFacts.
Import Snapshot.

Lemma set_prop_fresh (out : list (jsstring * json)) (key : jsstring) (v : json) :
  (forall p, In p out -> JsString.eqb (fst p) key = false) ->
  set_prop out key v = out ++ [(key, v)].
Proof.
  induction out as [|[k w] out IH]; intros H; [reflexivity|].
  cbn [set_prop app]. pose proof (H (k, w) (or_introl eq_refl)) as F.
  cbn [fst] in F. rewrite F. f_equal. apply IH. intros p Hp. apply H. now right.
Qed.

Lemma fold_pick (body : list (jsstring * json)) (keys : list jsstring)
      (acc : list (jsstring * json)) :
  NoDup keys ->
  (forall k p, In k keys -> In p acc -> JsString.eqb (fst p) k = false) ->
  fold_left (copy_key body) keys acc = acc ++ pick_keys keys body.
Proof.
  revert acc. induction keys as [|k keys IH]; intros acc Hnd H.
  - cbn. now rewrite app_nil_r.
  - inversion Hnd as [|? ? Hk Hnd']; subst. cbn [fold_left pick_keys flat_map].
    fold (pick_keys keys body). unfold copy_key at 2.
    destruct (lookup k body) as [v|].
    + rewrite set_prop_fresh by (intros p Hp; apply H; [now left|exact Hp]).
      rewrite IH; [now rewrite <- app_assoc|exact Hnd'|].
      intros k' p Hk' Hp. apply in_app_or in Hp. destruct Hp as [Hp|[<-|[]]].
      * apply H; [now right|exact Hp].
      * cbn [fst]. apply UsersTable.eqb_neq. intros ->. contradiction.
    + rewrite IH; [reflexivity|exact Hnd'|].
      intros k' p Hk' Hp. apply H; [now right|exact Hp].
Qed.

Lemma lookup_app (k : jsstring) (l1 l2 : list (jsstring * json)) :
  lookup k (l1 ++ l2) = match lookup k l2 with
                        | Some w => Some w
                        | None => lookup k l1
                        end.
Proof.
  induction l1 as [|[a v] l1 IH]; cbn [app lookup].
  - destruct (lookup k l2); reflexivity.
  - rewrite IH. destruct (lookup k l2); reflexivity.
Qed.

Lemma existsb_eqb (k : jsstring) (keys : list jsstring) :
  existsb (JsString.eqb k) keys = true <-> In k keys.
Proof.
  rewrite existsb_exists. split.
  - intros [x [Hx E]]. apply StructuredOutput.eqb_eq in E. now subst.
  - intros H. exists k. split; [exact H|apply UsersTable.eqb_refl].
Qed.

Lemma lookup_pick (keys : list jsstring) (body : list (jsstring * json))
      (k : jsstring) :
  NoDup keys ->
  lookup k (pick_keys keys body)
  = if existsb (JsString.eqb k) keys then lookup k body else None.
Proof.
  induction keys as [|a keys IH]; intros Hnd; [reflexivity|].
  inversion Hnd as [|? ? Ha Hnd']; subst.
  cbn [pick_keys flat_map existsb]. fold (pick_keys keys body).
  rewrite lookup_app, (IH Hnd').
  destruct (JsString.eqb k a) eqn:E; cbn [orb].
  - apply StructuredOutput.eqb_eq in E. subst a.
    destruct (existsb (JsString.eqb k) keys) eqn:Ex.
    + apply existsb_eqb in Ex. contradiction.
    + destruct (lookup k body) as [v|]; [|reflexivity].
      cbn [lookup]. now rewrite UsersTable.eqb_refl.
  - assert (L1 : lookup k match lookup a body with
                          | Some v => [(a, v)]
                          | None => []
                          end = None).
    { destruct (lookup a body) as [v|]; [|reflexivity].
      cbn [lookup]. rewrite UsersTable.eqb_neq; [reflexivity|].
      intros ->. rewrite UsersTable.eqb_refl in E. discriminate. }
    rewrite L1.
    destruct (existsb (JsString.eqb k) keys); [|reflexivity].
    now destruct (lookup k body).
Qed.

Lemma pick_keys_in (keys : list jsstring) (body : list (jsstring * json))
      (k : jsstring) (v : json) :
  In (k, v) (pick_keys keys body) <-> In k keys /\ lookup k body = Some v.
Proof.
  unfold pick_keys. rewrite in_flat_map. split.
  - intros [a [Ha H]]. destruct (lookup a body) as [w|] eqn:E; [|contradiction].
    destruct H as [H|[]]. injection H as <- <-. auto.
  - intros [Hk E]. exists k. split; [exact Hk|]. rewrite E. now left.
Qed.

Lemma pick_keys_ext (keys : list jsstring) (b1 b2 : list (jsstring * json)) :
  (forall k, In k keys -> lookup k b1 = lookup k b2) ->
  pick_keys keys b1 = pick_keys keys b2.
Proof.
  induction keys as [|a keys IH]; intros H; [reflexivity|].
  cbn [pick_keys flat_map]. fold (pick_keys keys b1) (pick_keys keys b2).
  rewrite (H a (or_introl eq_refl)), IH; [reflexivity|].
  intros k Hk. apply H. now right.
Qed.

Lemma pick_keys_nodup (keys : list jsstring) (body : list (jsstring * json)) :
  NoDup keys -> NoDup (map fst (pick_keys keys body)).
Proof.
  induction keys as [|a keys IH]; intros Hnd; [constructor|].
  inversion Hnd as [|? ? Ha Hnd']; subst.
  cbn [pick_keys flat_map]. fold (pick_keys keys body).
  destruct (lookup a body) as [v|]; cbn [app map fst]; [|now apply IH].
  constructor; [|now apply IH].
  intros H. apply in_map_iff in H. destruct H as [[k w] [E H]].
  cbn [fst] in E. subst k. apply pick_keys_in in H. now destruct H.
Qed.

Lemma pick_keys_length (keys : list jsstring) (body : list (jsstring * json)) :
  length (pick_keys keys body) <= length keys.
Proof.
  induction keys as [|a keys IH]; [constructor|].
  cbn [pick_keys flat_map]. fold (pick_keys keys body).
  rewrite length_app. destruct (lookup a body); cbn [length]; lia.
Qed.

Lemma keys_nodup : NoDup SNAPSHOT_KEYS.
Proof.
  unfold SNAPSHOT_KEYS.
  repeat (constructor;
          [intros H; vm_compute in H;
           repeat (destruct H as [H|H]; [discriminate H|]); exact H|]).
  constructor.
Qed.

(** X16: [sanitizeSnapshot] keeps exactly the allow-listed properties of
    the body: the result holds the properties of the body under the eight
    snapshot keys, in the order of the key list, each key once; reading a
    key from the result gives what the body has under it when the key is
    allow-listed and nothing otherwise; it has at most eight properties;
    and filtering a filtered snapshot changes nothing. *)
Theorem sanitizeSnapshot_allow_list (body : list (jsstring * json)) :
  sanitizeSnapshot body = pick_keys SNAPSHOT_KEYS body
  /\ (forall k,
        lookup k (sanitizeSnapshot body)
        = if existsb (JsString.eqb k) SNAPSHOT_KEYS then lookup k body else None)
  /\ (forall k v,
        In (k, v) (sanitizeSnapshot body)
        <-> In k SNAPSHOT_KEYS /\ lookup k body = Some v)
  /\ NoDup (map fst (sanitizeSnapshot body))
  /\ length (sanitizeSnapshot body) <= 8
  /\ sanitizeSnapshot (sanitizeSnapshot body) = sanitizeSnapshot body.
Proof.
  assert (S : forall b, sanitizeSnapshot b = pick_keys SNAPSHOT_KEYS b).
  { intros b. unfold sanitizeSnapshot.
    change (fold_left (copy_key b) SNAPSHOT_KEYS [] = pick_keys SNAPSHOT_KEYS b).
    rewrite (fold_pick b SNAPSHOT_KEYS [] keys_nodup); [reflexivity|].
    intros k p _ []. }
  rewrite !S. split; [reflexivity|]. split; [|split; [|split; [|split]]].
  - intros k. exact (lookup_pick SNAPSHOT_KEYS body k keys_nodup).
  - intros k v. apply pick_keys_in.
  - exact (pick_keys_nodup SNAPSHOT_KEYS body keys_nodup).
  - exact (pick_keys_length SNAPSHOT_KEYS body).
  - apply pick_keys_ext. intros k Hk.
    rewrite (lookup_pick SNAPSHOT_KEYS body k keys_nodup).
    now rewrite (proj2 (existsb_eqb k SNAPSHOT_KEYS) Hk).
Qed.

End SnapshotFacts.

(** ** What callDeepSeek hands to the routes *)

Module TrimFacts.
Import Gateway.

Lemma trimStart_starts_outside (s : jsstring) :
  starts_outside is_space (trimStart s).
Proof.
  induction s as [|c s IH]; cbn [trimStart]; [exact I|].
  destruct (is_space c) eqn:E; [exact IH|exact E].
Qed.

Lemma trimStart_fixed (s : jsstring) :
  starts_outside is_space s -> trimStart s = s.
Proof.
  destruct s as [|c s]; cbn [starts_outside trimStart]; [reflexivity|].
  now intros ->.
Qed.

Lemma trimStart_snoc (l : jsstring) (c : jschar) :
  is_space c = false -> trimStart (l ++ [c]) = trimStart l ++ [c].
Proof.
  intros Hc. induction l as [|x l IH]; cbn [app trimStart].
  - now rewrite Hc.
  - destruct (is_space x); [exact IH|reflexivity].
Qed.

Lemma trimEnd_head (c : jschar) (s : jsstring) :
  is_space c = false -> trimEnd (c :: s) = c :: trimEnd s.
Proof.
  intros Hc. unfold trimEnd. cbn [rev].
  now rewrite (trimStart_snoc _ c Hc), rev_app_distr.
Qed.

Lemma trim_trimmed (s : jsstring) : trimmed (trim s).
Proof.
  unfold trimmed, trim. split.
  - pose proof (trimStart_starts_outside s) as H.
    destruct (trimStart s) as [|c t]; [exact I|].
    cbn [starts_outside] in H. now rewrite (trimEnd_head c t H).
  - unfold trimEnd. rewrite rev_involutive. apply trimStart_starts_outside.
Qed.

Lemma trimmed_fixed (s : jsstring) : trimmed s -> trim s = s.
Proof.
  intros [H1 H2]. unfold trim, trimEnd.
  rewrite (trimStart_fixed s H1), (trimStart_fixed (rev s) H2).
  apply rev_involutive.
Qed.

Lemma callDeepSeek_return (answer : axios_result ChatData) (s : jsstring) :
  callDeepSeek answer = Return s ->
  exists data c, answer = Resolved data /\ first_content data = Some c
                 /\ s = trim c /\ s <> [].
Proof.
  unfold callDeepSeek. destruct answer as [data|m]; [|discriminate].
  destruct (first_content data) as [c|] eqn:Ec; cbn [nonempty negb];
    [|discriminate].
  destruct (trim c) as [|x t] eqn:E; cbn [nonempty negb]; [discriminate|].
  intros H. injection H as <-. exists data, c.
  split; [reflexivity|]. split; [exact Ec|].
  split; [now rewrite E|discriminate].
Qed.

(** X17: a text [callDeepSeek] returns is the trimmed content of the first
    choice of an answer that arrived: it is not empty, has no whitespace at
    either end, and trimming it again gives it back. *)
Theorem callDeepSeek_returns_trimmed
        (answer : axios_result ChatData) (s : jsstring) :
  callDeepSeek answer = Return s ->
  (exists data c, answer = Resolved data /\ first_content data = Some c
                  /\ s = trim c)
  /\ s <> [] /\ trimmed s /\ trim s = s.
Proof.
  intros H.
  destruct (callDeepSeek_return answer s H) as [data [c [-> [Ec [-> Hne]]]]].
  split; [exists data, c; auto|]. split; [exact Hne|].
  split; [apply trim_trimmed|apply trimmed_fixed, trim_trimmed].
Qed.

Lemma callDeepSeek_returns_trimmed_witness :
  trim (lit "ok") = lit "ok".
Proof.
  apply (callDeepSeek_returns_trimmed
           (Resolved {| choices :=
                          Some [ {| message :=
                                      Some {| content := Some (lit " ok ") |} |} ] |})
           (lit "ok")).
  reflexivity.
Defined.

End TrimFacts.

(** ** POST /fortune/generate *)

Module FortuneFacts.
Import Gateway Routes.

Section Prompts.

Variables p_physical p_touch p_social p_cognitive p_sensory p_food p_selfCare
  : jsstring.

Local Abbreviation prompts :=
  (FORTUNE_PROMPTS p_physical p_touch p_social p_cognitive p_sensory p_food
                   p_selfCare).
Local Abbreviation categories :=
  (FORTUNE_CATEGORIES p_physical p_touch p_social p_cognitive p_sensory p_food
                      p_selfCare).

Lemma includes_in (l : list jsstring) (c : jsstring) :
  includes l c = true <-> In c l.
Proof.
  unfold includes. rewrite existsb_exists. split.
  - intros [x [Hx E]]. apply StructuredOutput.eqb_eq in E. now subst.
  - intros H. exists c. split; [exact H|apply UsersTable.eqb_refl].
Qed.

Lemma category_prompt (c : jsstring) :
  In c categories -> exists p, prompt_of prompts c = Some p /\ In (c, p) prompts.
Proof.
  intros H. cbn in H.
  repeat (destruct H as [<-|H];
          [eexists; split; [reflexivity|cbn; tauto]|]).
  contradiction.
Qed.

Lemma random_category (pick : nat) :
  pick < 7 -> exists c, nth_error categories pick = Some c /\ In c categories.
Proof.
  intros H.
  do 7 (destruct pick as [|pick];
        [eexists; split; [reflexivity|cbn; tauto]|]).
  lia.
Qed.

Lemma final_category_in (category : jsval) (pick : nat) :
  pick < 7 ->
  exists c, final_category p_physical p_touch p_social p_cognitive p_sensory
                           p_food p_selfCare category pick = Some c
            /\ In c categories
            /\ (forall c', category = Some (JStr c') -> In c' categories -> c = c')
            /\ ((forall c', category = Some (JStr c') -> ~ In c' categories) ->
                nth_error categories pick = Some c).
Proof.
  intros H. destruct (random_category pick H) as [r [Er Hr]].
  unfold final_category.
  destruct category as [[| | |c| |]|];
    try (exists r; repeat split; auto; discriminate).
  destruct (nonempty c && includes categories c) eqn:E.
  - apply andb_prop in E. destruct E as [_ E]. apply includes_in in E.
    exists c. split; [reflexivity|]. split; [exact E|]. split.
    + intros c' Hc _. now injection Hc.
    + intros Hno. exfalso. exact (Hno c eq_refl E).
  - exists r. split; [exact Er|]. split; [exact Hr|]. split; [|intros _; exact Er].
    intros c' Hc Hin. injection Hc as <-.
    apply includes_in in Hin. rewrite Hin, andb_true_r in E.
    destruct c as [|x c]; [|discriminate].
    cbn in Hin. discriminate.
Qed.

(** X18: POST /fortune/generate with a random index below the number of
    categories.  Without an API key the answer is a 400 and nothing is
    requested.  With one, exactly one request is made, for a category of
    the seven, with the prompt configured for that category and the
    category named in the user content: the category is the requested one
    when that is one of the seven, and otherwise (no category, a value
    that is no string, a string outside the seven) the one at the random
    index.  The category of the answer is the one sent to the model, the
    content is the text [callDeepSeek] returned (its second [trim] changes
    nothing), and a failure is always the one of [callDeepSeek]. *)
Theorem fortune_route_category
        (apiKey category : jsval) (pick : nat) (answer : axios_result ChatData)
        (reqs : list FortuneRequest) (resp : api_response FortuneData) :
  pick < 7 ->
  fortune_route p_physical p_touch p_social p_cognitive p_sensory p_food
                p_selfCare apiKey category pick answer = (reqs, resp) ->
  match resp with
  | BadRequest why => why = MissingApiKey /\ reqs = [] /\ api_key apiKey = None
  | _ =>
      exists key c p,
        api_key apiKey = Some key
        /\ In c categories
        /\ prompt_of prompts c = Some p /\ In (c, p) prompts
        /\ (forall c', category = Some (JStr c') -> In c' categories -> c = c')
        /\ ((forall c', category = Some (JStr c') -> ~ In c' categories) ->
            nth_error categories pick = Some c)
        /\ reqs = [ {| fortune_systemPrompt := Some p;
                       fortune_userContent := fortune_user_content (Some c) |} ]
        /\ match resp with
           | Success d => fortune_category d = Some c
                          /\ callDeepSeek answer = Return (fortune_content d)
           | BadGateway e => exists err, e = ModelFailed err
                                         /\ callDeepSeek answer = Throw err
           | BadRequest _ => False
           end
  end.
Proof.
  intros Hp. unfold fortune_route.
  destruct (api_key apiKey) as [key|];
    [|intros H; injection H as <- <-; auto].
  destruct (final_category_in category pick Hp) as [c [Ec [Hc [Hreq Hrand]]]].
  rewrite Ec. destruct (category_prompt c Hc) as [p [Ep Hin]]. rewrite Ep.
  destruct (callDeepSeek answer) as [content|err] eqn:Ea;
    intros H; injection H as <- <-; exists key, c, p;
    (split; [reflexivity|]); (split; [exact Hc|]); (split; [exact Ep|]);
    (split; [exact Hin|]); (split; [exact Hreq|]); (split; [exact Hrand|]);
    (split; [reflexivity|]).
  - cbn [fortune_category fortune_content]. split; [reflexivity|].
    destruct (TrimFacts.callDeepSeek_return answer content Ea)
      as [_ [x [_ [_ [-> _]]]]].
    now rewrite (TrimFacts.trimmed_fixed _ (TrimFacts.trim_trimmed x)).
  - exists err. auto.
Qed.

End Prompts.

Lemma fortune_route_category_witness :
  exists c p,
    In (c, p) (FORTUNE_PROMPTS (lit "p1") (lit "p2") (lit "p3") (lit "p4")
                               (lit "p5") (lit "p6") (lit "p7"))
    /\ nth_error (FORTUNE_CATEGORIES (lit "p1") (lit "p2") (lit "p3") (lit "p4")
                                     (lit "p5") (lit "p6") (lit "p7")) 3
       = Some c.
Proof.
  destruct (fortune_route_category
              (lit "p1") (lit "p2") (lit "p3") (lit "p4") (lit "p5") (lit "p6")
              (lit "p7") (Some (JStr (lit "k"))) (Some (JStr (lit "sweets"))) 3
              (Rejected (lit "timeout"))
              [ {| fortune_systemPrompt := Some (lit "p4");
                   fortune_userContent :=
                     fortune_user_content (Some (lit "cognitive")) |} ]
              (BadGateway (ModelFailed (PostFailed (lit "timeout")))))
    as [key [c [p [_ [_ [_ [Hin [_ [Hrand _]]]]]]]]].
  - lia.
  - reflexivity.
  - exists c, p. split; [exact Hin|]. apply Hrand.
    intros c' E. injection E as <-. cbn.
    intros H. repeat (destruct H as [H|H]; [discriminate H|]). exact H.
Defined.

End FortuneFacts.

(** ** POST /goals/split as a whole *)

Module GoalsRoute.
Import Gateway Routes.

(** Where the line-break expression matches. *)
Lemma newline_match (q : nat) (s : jsstring) :
  rmatch re_newline accept q s None
  = match s with
    | c :: s' =>
        if (c =? 10)%N then Some (S q, None)
        else if (c =? 13)%N
             then match s' with
                  | d :: _ => if (d =? 10)%N then Some (S (S q), None) else None
                  | [] => None
                  end
             else None
    | [] => None
    end.
Proof.
  assert (Hq : (S (S q) =? q) = false) by (apply Nat.eqb_neq; lia).
  assert (Hq1 : (S q =? q) = false) by (apply Nat.eqb_neq; lia).
  unfold re_newline. cbn [rmatch].
  destruct s as [|c s]; [reflexivity|].
  destruct (N.eqb_spec c 13) as [->|H13].
  - cbn [N.eqb Pos.eqb]. rewrite Hq1.
    destruct s as [|d s]; [reflexivity|].
    destruct (d =? 10)%N; [|reflexivity].
    unfold accept. reflexivity.
  - cbn [orelse]. destruct (c =? 10)%N; reflexivity.
Qed.

Lemma newline_match_advances (q e : nat) (s : jsstring) (cap : option jsstring) :
  rmatch re_newline accept q s None = Some (e, cap) ->
  e <> q /\ exists c s', s = c :: s' /\ is_space c = true.
Proof.
  rewrite newline_match. destruct s as [|c s]; [discriminate|].
  destruct (N.eqb_spec c 10) as [->|H10].
  - intros H. injection H as <- _. split; [lia|]. eexists. eexists.
    split; reflexivity.
  - destruct (N.eqb_spec c 13) as [->|H13]; [|discriminate].
    destruct s as [|d s]; [discriminate|].
    destruct (d =? 10)%N; [|discriminate].
    intros H. injection H as <- _. split; [lia|]. eexists. eexists.
    split; reflexivity.
Qed.

Lemma newline_no_match (q : nat) (c : jschar) (s : jsstring) :
  rmatch re_newline accept q (c :: s) None = None -> c <> 10%N.
Proof.
  rewrite newline_match. intros H E. subst c. cbn in H. discriminate H.
Qed.

(** No piece of a split at line breaks holds a line feed. *)
Lemma split_scan_no_lf (s : jsstring) :
  forall q skip piece x,
    ~ In 10%N piece ->
    In x (split_scan re_newline q s skip piece) -> ~ In 10%N x.
Proof.
  induction s as [|c s IH]; intros q skip piece x Hp; cbn [split_scan].
  - intros [<-|[]]. now rewrite <- in_rev.
  - destruct skip as [|n]; [|now apply IH].
    destruct (rmatch re_newline accept q (c :: s) None) as [[e cap]|] eqn:E.
    + destruct (newline_match_advances q e (c :: s) cap E) as [Hne _].
      apply Nat.eqb_neq in Hne. rewrite Hne.
      intros [<-|H]; [now rewrite <- in_rev|].
      revert H. apply IH. intros [].
    + apply IH. intros [Ec|H]; [|now apply Hp].
      exact (newline_no_match q c s E Ec).
Qed.

(** The first piece of a split begins as the text does. *)
Lemma split_scan_first (r : regex) (s : jsstring) :
  forall q skip piece c0 l,
    rev piece = c0 :: l ->
    exists l' rest, split_scan r q s skip piece = (c0 :: l') :: rest.
Proof.
  induction s as [|c s IH]; intros q skip piece c0 l Hp; cbn [split_scan].
  - rewrite Hp. eauto.
  - destruct skip as [|n]; [|now apply (IH _ _ _ c0 l)].
    destruct (rmatch r accept q (c :: s) None) as [[e cap]|].
    + destruct (e =? q).
      * destruct piece as [|y piece]; [discriminate|]. rewrite Hp. eauto.
      * rewrite Hp. eauto.
    + apply (IH _ _ _ c0 (l ++ [c])). cbn [rev]. now rewrite Hp.
Qed.

Lemma in_trimStart (x : jschar) (s : jsstring) : In x (trimStart s) -> In x s.
Proof.
  induction s as [|c s IH]; cbn [trimStart]; [auto|].
  destruct (is_space c); [intros H; right; auto|auto].
Qed.

Lemma in_trim (x : jschar) (s : jsstring) : In x (trim s) -> In x s.
Proof.
  unfold trim, trimEnd. intros H. apply in_rev in H. apply in_trimStart in H.
  apply in_rev in H. now apply in_trimStart.
Qed.

Lemma in_drop_while (p : jschar -> bool) (x : jschar) (s : jsstring) :
  In x (drop_while p s) -> In x s.
Proof.
  induction s as [|c s IH]; cbn [drop_while]; [auto|].
  destruct (p c); [intros H; right; auto|auto].
Qed.

(** X19: POST /goals/split answers 400 and makes no request when the API
    key is missing, and when the key is there and the title is missing.
    With both it makes one request and fails only as [callDeepSeek] does.
    When it answers with [code: 0] the steps are those made of the text
    returned; their list is never empty, since the text of the model
    begins with a character that is no whitespace, and no step holds a
    line feed. *)
Theorem goals_route_steps
        (apiKey title : jsval) (answer : axios_result ChatData)
        (n : nat) (resp : api_response (list jsstring)) :
  goals_route apiKey title answer = (n, resp) ->
  match resp with
  | BadRequest why =>
      n = 0
      /\ (why = MissingApiKey /\ api_key apiKey = None
          \/ why = MissingTitle /\ Auth.string_field title = None
             /\ exists key, api_key apiKey = Some key)
  | BadGateway e =>
      n = 1
      /\ (exists key t, api_key apiKey = Some key
                        /\ Auth.string_field title = Some t)
      /\ exists err, e = ModelFailed err /\ callDeepSeek answer = Throw err
  | Success steps =>
      n = 1
      /\ (exists key t, api_key apiKey = Some key
                        /\ Auth.string_field title = Some t)
      /\ (exists stepsText, callDeepSeek answer = Return stepsText
                            /\ steps = split_steps stepsText)
      /\ steps <> []
      /\ (forall step, In step steps -> ~ In 10%N step)
  end.
Proof.
  unfold goals_route.
  destruct (api_key apiKey) as [key|] eqn:Ek;
    [|intros H; injection H as <- <-; auto].
  destruct (Auth.string_field title) as [t|] eqn:Et.
  2:{ intros H; injection H as <- <-. split; [reflexivity|]. right.
      split; [reflexivity|]. split; [reflexivity|]. exists key. reflexivity. }
  destruct (callDeepSeek answer) as [text|err] eqn:Ea;
    intros H; injection H as <- <-.
  2:{ split; [reflexivity|]. split; [exists key, t; auto|]. exists err. auto. }
  split; [reflexivity|]. split; [exists key, t; auto|].
  split; [exists text; auto|].
  destruct (TrimFacts.callDeepSeek_return answer text Ea)
    as [_ [c [_ [_ [Etext Hne]]]]].
  pose proof (TrimFacts.trim_trimmed c) as [Hstart _]. rewrite <- Etext in Hstart.
  split.
  - destruct text as [|c0 text]; [contradiction|].
    cbn [starts_outside] in Hstart.
    unfold split_steps, split. cbn [split_scan].
    assert (Er : rmatch re_newline accept 0 (c0 :: text) None = None).
    { destruct (rmatch re_newline accept 0 (c0 :: text) None) as [[e cap]|] eqn:E;
        [|reflexivity].
      destruct (newline_match_advances 0 e _ cap E) as [_ [x [s' [Hx Hs]]]].
      injection Hx as <- _. congruence. }
    rewrite Er.
    destruct (split_scan_first re_newline text 1 0 [c0] c0 [] eq_refl)
      as [l' [rest ->]].
    cbn [map]. unfold trim at 1. cbn [trimStart]. rewrite Hstart.
    rewrite (TrimFacts.trimEnd_head c0 l' Hstart).
    cbn [filter nonempty map]. discriminate.
  - intros step Hs. unfold split_steps in Hs.
    apply in_map_iff in Hs. destruct Hs as [line [<- Hl]].
    apply filter_In in Hl. destruct Hl as [Hl _].
    apply in_map_iff in Hl. destruct Hl as [piece [<- Hp]].
    rewrite replace_marker. intros H10.
    apply in_drop_while, in_trim in H10. revert H10.
    destruct text as [|c0 text]; [contradiction|]. unfold split in Hp.
    apply (split_scan_no_lf (c0 :: text) 0 0 [] piece); [intros []|exact Hp].
Qed.

Lemma goals_route_steps_witness :
  split_steps (lit "a") <> [].
Proof.
  apply (goals_route_steps
           (Some (JStr (lit "k"))) (Some (JStr (lit "t")))
           (Resolved {| choices :=
                          Some [ {| message :=
                                      Some {| content := Some (lit "a") |} |} ] |})
           1 (Success (split_steps (lit "a"))) eq_refl).
Defined.

End GoalsRoute.

(** ** POST /analysis/diary as a whole *)

Module DiaryRoute.
Import Gateway Routes.

Lemma field_or_truthy (l : list (jsstring * json)) (key : jsstring)
      (c : jschar) (t : jsstring) :
  truthy (field_or l key (c :: t)) = true.
Proof.
  unfold field_or. destruct (lookup key l) as [v|]; [|reflexivity].
  destruct (truthy v) eqn:E; [exact E|reflexivity].
Qed.

(** On a text that is not empty the diary returned is never falsy. *)
Lemma diary_extract_truthy (raw : jsstring) :
  raw <> [] ->
  exists data, diary_extract raw = Return data /\ truthy (diary data) = true.
Proof.
  intros Hne. destruct raw as [|c t]; [contradiction|].
  destruct (StructuredOutput.span_cases (c :: t)) as [[v S]|[[H S]|[H S]]].
  - destruct (StructuredOutput.diary_span_parsed (c :: t) v S) as [l [_ ->]].
    eexists. split; [reflexivity|]. cbn [diary]. apply field_or_truthy.
  - rewrite (StructuredOutput.diary_span_failed (c :: t) H S).
    eexists. split; [reflexivity|]. cbn [diary truthy].
    destruct (captured re_diary (c :: t)) as [[|x s]|]; reflexivity.
  - rewrite (StructuredOutput.diary_no_span (c :: t) H).
    eexists. split; reflexivity.
Qed.



(** X21: what the diary task returns is a fixed point of the extraction:
    when the text of the model is not empty and the three fields returned
    are strings, serializing them as an object of the diary shape and
    extracting again returns the same three fields. *)
Theorem diary_extract_fixed_point (raw d k i : jsstring) :
  raw <> [] ->
  wf_string d -> wf_string k -> wf_string i ->
  diary_extract raw
  = Return {| diary := JStr d; keyPoints := JStr k; insights := JStr i |} ->
  diary_extract (stringify_object (diary_object d k i))
  = Return {| diary := JStr d; keyPoints := JStr k; insights := JStr i |}.
Proof.
  intros Hne Hd Hk Hi E.
  destruct (diary_extract_truthy raw Hne) as [data [Ed Ht]].
  rewrite E in Ed. injection Ed as <-. cbn [diary truthy] in Ht.
  assert (Hwf : wf_fields (diary_object d k i)).
  { unfold wf_fields, diary_object.
    repeat (constructor; [split; [|assumption]|]); try constructor;
      unfold wf_string; repeat constructor. }
  pose proof (StructuredOutput.span_json_stringify (diary_object d k i) Hwf) as S.
  destruct (StructuredOutput.diary_span_parsed _ _ S) as [l [El ->]].
  injection El as <-.
  unfold field_or, diary_object. cbn [as_json_fields map fst snd].
  destruct d as [|c t]; [discriminate|].
  destruct k, i; reflexivity.
Qed.

Lemma diary_extract_fixed_point_witness :
  diary_extract (stringify_object (diary_object (lit "fine") [] []))
  = Return {| diary := JStr (lit "fine"); keyPoints := JStr [];
              insights := JStr [] |}.
Proof.
  apply (diary_extract_fixed_point (lit "fine") (lit "fine") [] []).
  - discriminate.
  - repeat constructor.
  - constructor.
  - constructor.
  - reflexivity.
Defined.

End DiaryRoute.

(** ** POST /analysis/counselor-diary as a whole *)

Module CounselorRoute.
Import Gateway Routes.







End CounselorRoute.

(** ** The system prompt of the diary task *)

Module DiaryPrompt.
Import Gateway Routes.

Lemma trimStart_nonblank (s : jsstring) :
  forallb is_space s = false ->
  exists c t, trimStart s = c :: t /\ is_space c = false.
Proof.
  induction s as [|x s IH]; cbn [forallb trimStart]; [discriminate|].
  destruct (is_space x) eqn:E; cbn [andb]; [exact IH|].
  intros _. exists x, s. auto.
Qed.

Lemma trim_nonblank (s : jsstring) :
  forallb is_space s = false ->
  exists c t, trim s = c :: t /\ is_space c = false.
Proof.
  intros H. destruct (trimStart_nonblank s H) as [c [t [E Hc]]].
  unfold trim. rewrite E, (TrimFacts.trimEnd_head c t Hc). eauto.
Qed.

(** X23: the diary task uses the caller's prompt exactly when it is a
    string with a character that is no whitespace: the system prompt is
    then the trimmed custom prompt followed by the JSON instructions, and
    begins with the first such character.  A missing prompt, a value that
    is no string, the empty string and a string of whitespace only all
    give the default prompt. *)
Theorem diary_system_prompt_choice
        (defaultPrompt suffix : jsstring) (customPrompt : jsval) :
  (forall p, customPrompt = Some (JStr p) -> forallb is_space p = false ->
     exists c t,
       trim p = c :: t /\ is_space c = false
       /\ diary_system_prompt defaultPrompt suffix customPrompt
          = c :: t ++ suffix)
  /\ ((forall p, customPrompt = Some (JStr p) -> forallb is_space p = true) ->
      diary_system_prompt defaultPrompt suffix customPrompt = defaultPrompt).
Proof.
  split.
  - intros p -> H. destruct (trim_nonblank p H) as [c [t [E Hc]]].
    exists c, t. split; [exact E|]. split; [exact Hc|].
    unfold diary_system_prompt. rewrite E.
    destruct p as [|x p]; [discriminate|]. reflexivity.
  - intros H. unfold diary_system_prompt.
    destruct customPrompt as [[| | |p| |]|]; try reflexivity.
    rewrite (CallDeepSeek.trim_blank p (H p eq_refl)).
    now rewrite andb_false_r.
Qed.

Lemma diary_system_prompt_choice_witness :
  (exists c t,
     trim (lit " be kind ") = c :: t /\ is_space c = false
     /\ diary_system_prompt (lit "default") (lit "!") (Some (JStr (lit " be kind ")))
        = c :: t ++ lit "!")
  /\ diary_system_prompt (lit "default") (lit "!") (Some (JStr (lit "  ")))
     = lit "default".
Proof.
  split.
  - apply (proj1 (diary_system_prompt_choice
                    (lit "default") (lit "!") (Some (JStr (lit " be kind "))))
                 (lit " be kind ") eq_refl).
    reflexivity.
  - apply (proj2 (diary_system_prompt_choice
                    (lit "default") (lit "!") (Some (JStr (lit "  "))))).
    intros p E. injection E as <-. reflexivity.
Defined.

End DiaryPrompt.
